(** * ScrapNewEvents: the medical & pharma event-organizer scraper

    A shallow embedding of [medical_pharma_scraper.py] and the properties its
    specification states about it.

    Text.  A Python [str] is a sequence of Unicode code points: it is modelled
    as a list of code points ([N]).  Literals of the source are written with
    [lit], which maps an ASCII string to its code points.

    Libraries.  [re], [requests], [bs4], [urllib], [csv] and [pandas] are not
    part of the repository.  The regular expressions of the source are run by
    a small backtracking matcher with Python's semantics for the constructs
    the source uses; an HTTP exchange is an answer of the [World]; a parsed
    document is the record of the answers BeautifulSoup gives to the queries
    the source makes ([Soup], [Card]); what depends on the Unicode database
    or on a library's own algorithm is a field of [Library].

    Effects.  A computation emits, in order, the requests it sends, the
    lines it prints, its pauses and the files it writes; an exception is a
    result ([Raise]); a [try] is [try_except]. *)

From Stdlib Require Import NArith ZArith Ascii String Btauto.
From stdpp Require Import base option list strings gmap pretty.

Open Scope N_scope.

(** ** Text *)

Abbreviation str := (list N).

Definition lit (s : string) : str :=
  (fun a : ascii => N_of_ascii a) <$> list_ascii_of_string s.

Definition ch (a : ascii) : N := N_of_ascii a.

Arguments lit : simpl never.
Arguments ch : simpl never.

(** The double quote, which a literal cannot hold. *)
Definition dquote : ascii := ascii_of_N 34.

(** [a == b] *)
Definition str_eqb (a b : str) : bool := bool_decide (a = b).

(** [s.startswith(p)] *)
Fixpoint startswith (s p : str) : bool :=
  match p, s with
  | [], _ => true
  | c :: p', x :: s' => (x =? c) && startswith s' p'
  | _ :: _, [] => false
  end.

(** [sub in s] *)
Fixpoint contains (s sub : str) : bool :=
  startswith s sub ||
  match s with
  | [] => false
  | _ :: s' => contains s' sub
  end.

(** [s.split(sep)] for a non-empty [sep]: the occurrences of [sep] are cut
    out from left to right.  [cur] is the piece being read, reversed; [skip]
    counts the characters of a separator still to pass. *)
Fixpoint split_from (sep s cur : str) (skip : nat) : list str :=
  match s with
  | [] => [reverse cur]
  | x :: s' =>
    match skip with
    | S k => split_from sep s' cur k
    | O =>
      if startswith s sep
      then reverse cur :: split_from sep s' [] (Nat.pred (length sep))
      else split_from sep s' (x :: cur) 0
    end
  end.

Definition split (s sep : str) : list str := split_from sep s [] 0.

(** [sep.join(parts)] *)
Fixpoint join (sep : str) (parts : list str) : str :=
  match parts with
  | [] => []
  | [p] => p
  | p :: rest => p ++ sep ++ join sep rest
  end.

(** The characters [str.strip()] removes: those [str.isspace()] holds of. *)
Definition is_space (c : N) : bool :=
  ((9 <=? c) && (c <=? 13)) || ((28 <=? c) && (c <=? 32)) || (c =? 133) || (c =? 160)
  || (c =? 5760) || ((8192 <=? c) && (c <=? 8202)) || (c =? 8232) || (c =? 8233)
  || (c =? 8239) || (c =? 8287) || (c =? 12288).

Fixpoint lstrip (s : str) : str :=
  match s with
  | c :: s' => if is_space c then lstrip s' else s
  | [] => []
  end.

(** [s.strip()] *)
Definition strip (s : str) : str := reverse (lstrip (reverse (lstrip s))).

Definition is_ascii (c : N) : bool := c <? 128.
Definition is_upper (c : N) : bool := (65 <=? c) && (c <=? 90).
Definition is_lower (c : N) : bool := (97 <=? c) && (c <=? 122).
Definition to_lower (c : N) : N := if is_upper c then c + 32 else c.
Definition to_upper (c : N) : N := if is_lower c then c - 32 else c.

(** [str.title()] on ASCII text: a letter after a letter is lowered, a
    letter elsewhere is raised. *)
Fixpoint title_from (after_letter : bool) (s : str) : str :=
  match s with
  | [] => []
  | c :: s' =>
    if is_upper c || is_lower c
    then (if after_letter then to_lower c else to_upper c) :: title_from true s'
    else c :: title_from false s'
  end.

(** ** Regular expressions

    The fragment of [re] the source uses: a pattern is a sequence of atoms,
    each an anchor, a literal character, one character of a set, or a greedy
    repetition [set{lo,}] of a set. *)

Inductive set_item :=
| Range (lo hi : ascii)
| Single (c : ascii).

Record charset := Charset { negated : bool; items : list set_item }.

Inductive atom :=
| Bol                              (* ^ *)
| Eol                              (* $ *)
| WordB                            (* \b *)
| Chr (c : ascii)                  (* a literal character *)
| OneOf (cs : charset)             (* [...] *)
| Many (cs : charset) (lo : nat).  (* [...]{lo,}, greedy; + is {1,} *)

Definition item_mem (c : N) (i : set_item) : bool :=
  match i with
  | Range lo hi => (ch lo <=? c) && (c <=? ch hi)
  | Single x => c =? ch x
  end.

Definition set_mem (cs : charset) (c : N) : bool :=
  xorb (negated cs) (existsb (item_mem c) (items cs)).

(** [$] without MULTILINE: at the end of the string, or just before a
    newline that ends the string. *)
Definition at_eol (s : str) : bool :=
  match s with
  | [] => true
  | [c] => c =? 10
  | _ => false
  end.

(** The greedy repetition of a set: as many characters of [cs] as there are,
    then one fewer each time the rest of the pattern ([rest]) fails, down to
    [lo] of them.  [n] counts the characters taken so far. *)
Fixpoint many (cs : charset) (lo : nat) (rest : option N -> str -> option nat)
    (n : nat) (prev : option N) (s : str) : option nat :=
  let stop := if (lo <=? n)%nat then rest prev s else None in
  match s with
  | x :: s' =>
    if set_mem cs x
    then match many cs lo rest (S n) (Some x) s' with
         | Some k => Some (S k)
         | None => stop
         end
    else stop
  | [] => stop
  end.

Section Regex.

(** [\w] on a code point outside ASCII is decided by the Unicode database. *)
Variable unicode_word : N -> bool.

Definition is_word (c : N) : bool :=
  if is_ascii c
  then set_mem (Charset false [Range "a" "z"; Range "A" "Z"; Range "0" "9"; Single "_"]) c
  else unicode_word c.

Definition word_at (c : option N) : bool :=
  match c with Some x => is_word x | None => false end.

(** [match_here re prev s]: the pattern matched at the head of [s], where
    [prev] is the character before it ([None] at the start of the string);
    the result is the length of the match the backtracking search finds
    first. *)
Fixpoint match_here (re : list atom) (prev : option N) (s : str) : option nat :=
  match re with
  | [] => Some 0%nat
  | a :: re' =>
    match a with
    | Bol => match prev with None => match_here re' prev s | Some _ => None end
    | Eol => if at_eol s then match_here re' prev s else None
    | WordB =>
      if xorb (word_at prev) (word_at (head s)) then match_here re' prev s else None
    | Chr c =>
      match s with
      | x :: s' => if x =? ch c then S <$> match_here re' (Some x) s' else None
      | [] => None
      end
    | OneOf cs =>
      match s with
      | x :: s' => if set_mem cs x then S <$> match_here re' (Some x) s' else None
      | [] => None
      end
    | Many cs lo => many cs lo (match_here re') 0 prev s
    end
  end.

(** [re.match(re, s) is not None] *)
Definition re_match (re : list atom) (s : str) : bool :=
  bool_decide (is_Some (match_here re None s)).

(** [re.search(re, s)]: the first position a match starts at, and the
    length of the match. *)
Fixpoint search_from (re : list atom) (prev : option N) (s : str) (i : nat)
    : option (nat * nat) :=
  match match_here re prev s with
  | Some k => Some (i, k)
  | None =>
    match s with
    | x :: s' => search_from re (Some x) s' (S i)
    | [] => None
    end
  end.

Definition re_search (re : list atom) (s : str) : option (nat * nat) :=
  search_from re None s 0.

(** [re.findall(re, s)] for a pattern without groups: the matches from
    left to right, each search starting where the match before it ended.
    [skip] counts the characters of the last match still to pass. *)
Fixpoint findall_from (re : list atom) (prev : option N) (s : str) (skip : nat)
    : list str :=
  match skip with
  | S k =>
    match s with
    | x :: s' => findall_from re (Some x) s' k
    | [] => []
    end
  | O =>
    match match_here re prev s with
    | Some k =>
      take k s ::
      match s with
      | x :: s' => findall_from re (Some x) s' (Nat.pred k)
      | [] => []
      end
    | None =>
      match s with
      | x :: s' => findall_from re (Some x) s' 0
      | [] => []
      end
    end
  end.

Definition re_findall (re : list atom) (s : str) : list str :=
  findall_from re None s 0.

(** [re.sub(re, repl, s)] for a pattern that matches no empty string. *)
Fixpoint sub_from (re : list atom) (repl : str) (prev : option N) (s : str) (skip : nat)
    : str :=
  match s with
  | [] => []
  | x :: s' =>
    match skip with
    | S k => sub_from re repl (Some x) s' k
    | O =>
      match match_here re prev s with
      | Some (S k) => repl ++ sub_from re repl (Some x) s' k
      | _ => x :: sub_from re repl (Some x) s' 0
      end
    end
  end.

Definition re_sub (re : list atom) (repl s : str) : str :=
  sub_from re repl None s 0.

End Regex.

(** ** Results and the libraries' own data *)

(** An exception the program handles: [requests.RequestException] and its
    subclasses, or any other [Exception]; [str(e)] is [exn_msg]. *)
Inductive exn_class := RequestException | OtherException.

Record exn := Exn { exn_kind : exn_class; exn_msg : str }.

Inductive Result (A : Type) :=
| Ok (a : A)
| Raise (e : exn).
Arguments Ok {A} a.
Arguments Raise {A} e.

(** A Python [dict] with string keys and [str] values. *)
Abbreviation dict := (gmap string str).

(** What the run takes from the Python runtime and its libraries beyond the
    parts modelled here. *)
Record Library := {
  unicode_word : N -> bool;            (* [\w] outside ASCII *)
  unicode_lower : str -> str;          (* [str.lower()] on text that is not ASCII *)
  unicode_title : str -> str;          (* [str.title()] on text that is not ASCII *)
  urljoin : str -> str -> Result str;  (* [urllib.parse.urljoin] *)
  value_counts : list str -> list (str * nat);
    (* [Series.value_counts().items()] *)
  preview : list dict -> str
    (* [str(df[[...]].head())] *)
}.

Section Strings.

Variable lib : Library.

(** [s.lower()] *)
Definition lower (s : str) : str :=
  if forallb is_ascii s then to_lower <$> s else unicode_lower lib s.

(** [s.title()] *)
Definition title (s : str) : str :=
  if forallb is_ascii s then title_from false s else unicode_title lib s.

End Strings.

(** ** Effects *)

Inductive method := GET | HEAD.

Record Request := {
  req_method : method;
  req_url : str;
  req_headers : list (str * str);
  req_timeout : nat
}.

(** An [<a>] tag: [link.get('href')] and [link.get_text(strip=True)]. *)
Record Anchor := { a_href : option str; a_text : str }.

(** A tag among [parent.find_next_siblings()]: [element.find('a')]. *)
Record Element := { find_a : option Anchor }.

(** A string of the page found by [find_all(text=...)]: [section.parent],
    seen through [parent.find_next_siblings()]. *)
Record TextNode := { parent_next_siblings : option (list Element) }.

(** [card.find('div', class_='venue')]: [venue_link.find('a')], as its
    [get_text(strip=True)], and [venue_link.get_text(strip=True)]. *)
Record Venue := { venue_a : option str; venue_text : str }.

(** A row of the listing: [card.find('td', class_='text-dark')] as its
    [get_text(strip=True)]; [card.find('td', {'onclick': True})] as its
    [onclick] attribute; the venue element. *)
Record Card := {
  date_td : option str;
  clickable_td : option str;
  venue_link : option Venue
}.

(** [BeautifulSoup(response.content, 'html.parser')], as the answers to the
    queries of the source. *)
Record Soup := {
  (* soup.find_all('tr', class_=lambda x: x and 'event-card' in x) *)
  event_cards : list Card;
  (* soup.find_all(text=re.compile(keyword, re.IGNORECASE)) *)
  find_all_text : str -> list TextNode;
  (* str(soup) *)
  markup : str;
  (* soup.find_all('a', text=re.compile(r'contact|about|organizer', re.IGNORECASE)) *)
  contact_links : list Anchor
}.

Record Response := {
  status_code : Z;
  reason : str;
  url : str;
  content : Soup
}.

(** What the run meets outside the program: the answer to its [n]-th
    request, the clock, and whether a file can be opened for writing. *)
Record World := {
  http : nat -> Request -> Result Response;
  clock : str;                    (* str(datetime.now()) *)
  open_w : str -> option exn      (* open(name, 'w'): what it raises, if it does *)
}.

Inductive event :=
| Sent (r : Request)
| Printed (line : str)
| Slept (seconds : nat)
| WroteText (file : str) (text : str)
| WroteCsv (file : str) (header : list str) (rows : list (list str)).

(** A computation over a state [S]: it returns or raises, it leaves a
    state (kept when it raises too), and it emits events. *)
Definition M (S A : Type) : Type := S -> Result A * S * list event.

#[global] Instance M_ret {S} : MRet (M S) := fun A a s => (Ok a, s, []).

#[global] Instance M_bind {S} : MBind (M S) := fun A B f m s =>
  match m s with
  | (Ok a, s1, out1) => let '(r, s2, out2) := f a s1 in (r, s2, out1 ++ out2)
  | (Raise e, s1, out1) => (Raise e, s1, out1)
  end.

Definition raise {S A} (e : exn) : M S A := fun s => (Raise e, s, []).

(** [try: m except Exception as e: h e] *)
Definition try_except {S A} (m : M S A) (h : exn -> M S A) : M S A := fun s =>
  match m s with
  | (Ok a, s1, out1) => (Ok a, s1, out1)
  | (Raise e, s1, out1) => let '(r, s2, out2) := h e s1 in (r, s2, out1 ++ out2)
  end.

(** A computation of the program: its state is the number of requests the
    run has sent so far. *)
Abbreviation IO := (M nat).

(** A computation that also has the local variables [V] of a function. *)
Abbreviation Local V := (M (V * nat)).

Definition lift {V A} (m : IO A) : Local V A := fun s =>
  let '(r, n, out) := m s.2 in (r, (s.1, n), out).

Definition modify_local {V} (f : V -> V) : Local V unit := fun s =>
  (Ok (), (f s.1, s.2), []).

(** The body [m] of a [try] run on local variables that start as [init]:
    how it ended, and the variables as it left them. *)
Definition run_local {V A} (init : V) (m : Local V A) : IO (Result A * V) := fun n =>
  let '(r, s, out) := m (init, n) in (Ok (r, s.1), s.2, out).

Definition emit (e : event) : IO unit := fun n => (Ok (), n, [e]).

Definition print (line : str) : IO unit := emit (Printed line).

(** [for x in xs: body x] *)
Fixpoint for_each {S A} (xs : list A) (body : A -> M S unit) : M S unit :=
  match xs with
  | [] => mret ()
  | x :: rest => body x;; for_each rest body
  end.

(** [d[k]] *)
Definition item {S} (d : dict) (k : string) : M S str :=
  match d !! k with
  | Some v => mret v
  | None => raise (Exn OtherException (lit "'" ++ lit k ++ lit "'"))
  end.

(** [xs[i]] *)
Definition index {S} (xs : list str) (i : nat) : M S str :=
  match xs !! i with
  | Some v => mret v
  | None => raise (Exn OtherException (lit "list index out of range"))
  end.

(** A value as an [if] reads it. *)
Definition truthy (o : option str) : bool :=
  match o with
  | Some (_ :: _) => true
  | _ => false
  end.

(** The [HTTPError] of a response, as [raise_for_status] builds it. *)
Definition http_error (response : Response) : option exn :=
  let code := status_code response in
  let tail := lit " for url: " ++ url response in
  if bool_decide (400 <= code < 500)%Z
  then Some (Exn RequestException
               (lit (pretty code) ++ lit " Client Error: " ++ reason response ++ tail))
  else if bool_decide (500 <= code < 600)%Z
  then Some (Exn RequestException
               (lit (pretty code) ++ lit " Server Error: " ++ reason response ++ tail))
  else None.

(** ** Configuration *)

Record Config := {
  EVENTS_TO_SCRAPE : nat;
  USE_STEALTH_MODE : bool;
  REQUEST_DELAY : nat;
  OUTPUT_CSV : str;
  VALIDATION_LOG : str
}.

(** The values the source sets. *)
Definition source_config : Config := {|
  EVENTS_TO_SCRAPE := 10;
  USE_STEALTH_MODE := true;
  REQUEST_DELAY := 2;
  OUTPUT_CSV := lit "verified_event_organizers.csv";
  VALIDATION_LOG := lit "data_validation_log.txt"
|}.

(** ** The patterns of the source *)

Definition letters : charset := Charset false [Range "a" "z"; Range "A" "Z"].

(** [r'^[a-zA-Z0-9._%+-]+@[a-zA-Z0-9.-]+\.[a-zA-Z]{2,}$'] *)
Definition email_format_pattern : list atom :=
  [ Bol;
    Many (Charset false [Range "a" "z"; Range "A" "Z"; Range "0" "9";
                         Single "."; Single "_"; Single "%"; Single "+"; Single "-"]) 1;
    Chr "@";
    Many (Charset false [Range "a" "z"; Range "A" "Z"; Range "0" "9";
                         Single "."; Single "-"]) 1;
    Chr ".";
    Many letters 2;
    Eol ].

(** [r'\b[A-Za-z0-9._%+-]+@[A-Za-z0-9.-]+\.[A-Z|a-z]{2,}\b'] *)
Definition email_pattern : list atom :=
  [ WordB;
    Many (Charset false [Range "A" "Z"; Range "a" "z"; Range "0" "9";
                         Single "."; Single "_"; Single "%"; Single "+"; Single "-"]) 1;
    Chr "@";
    Many (Charset false [Range "A" "Z"; Range "a" "z"; Range "0" "9";
                         Single "."; Single "-"]) 1;
    Chr ".";
    Many (Charset false [Range "A" "Z"; Single "|"; Range "a" "z"]) 2;
    WordB ].

Definition quotes : list set_item := [Single "'"; Single dquote].

(** The pattern of the click handler, [window\.open\(] followed by a quote,
    the group [([^'...]+)] and a quote. *)
Definition window_open_pattern : list atom :=
  [ Chr "w"; Chr "i"; Chr "n"; Chr "d"; Chr "o"; Chr "w"; Chr ".";
    Chr "o"; Chr "p"; Chr "e"; Chr "n"; Chr "(";
    OneOf (Charset false quotes);
    Many (Charset true quotes) 1;
    OneOf (Charset false quotes) ].

(** [r'-+'] *)
Definition hyphens_pattern : list atom := [ Many (Charset false [Single "-"]) 1 ].

(** ** The program *)

Definition NA : str := lit "N/A".

Section Scraper.

Variable lib : Library.
Variable world : World.
Variable config : Config.

(** A request: the world answers the [n]-th one of the run. *)
Definition send (r : Request) : IO Response := fun n =>
  (http world n r, S n, [Sent r]).

(** [response.raise_for_status()]: an [HTTPError] for a status from 400
    to 599, nothing otherwise. *)
Definition raise_for_status (response : Response) : IO unit :=
  match http_error response with
  | Some e => raise e
  | None => mret ()
  end.

Definition get_stealth_headers : list (str * str) :=
  [ (lit "User-Agent", lit "Mozilla/5.0 (Windows NT 10.0; Win64; x64) AppleWebKit/537.36 (KHTML, like Gecko) Chrome/120.0.0.0 Safari/537.36");
    (lit "Accept", lit "text/html,application/xhtml+xml,application/xml;q=0.9,image/avif,image/webp,image/apng,*/*;q=0.8");
    (lit "Accept-Language", lit "en-US,en;q=0.9");
    (lit "Accept-Encoding", lit "gzip, deflate, br");
    (lit "DNT", lit "1");
    (lit "Connection", lit "keep-alive");
    (lit "Upgrade-Insecure-Requests", lit "1");
    (lit "Sec-Fetch-Dest", lit "document");
    (lit "Sec-Fetch-Mode", lit "navigate");
    (lit "Sec-Fetch-Site", lit "none");
    (lit "Sec-Fetch-User", lit "?1");
    (lit "Cache-Control", lit "max-age=0");
    (lit "Referer", lit "https://google.com") ].

Definition validate_url (u : str) : IO bool :=
  try_except
    (response ← send {| req_method := HEAD; req_url := u;
                        req_headers := get_stealth_headers; req_timeout := 10 |};
     mret (bool_decide (status_code response ∈ [200; 301; 302]%Z)))
    (fun _ => mret false).

Definition validate_email_format (email : str) : bool :=
  re_match (unicode_word lib) email_format_pattern email.

(** *** extract_organizer_details *)

Definition set_info (k : string) (v : str) : Local dict unit :=
  modify_local (fun organizer_info : dict => <[k := v]> organizer_info).

(** Method 1, the loop over [next_elements]; it ends at the first link
    that qualifies ([break]). *)
Fixpoint scan_elements (next_elements : list Element) : Local dict unit :=
  match next_elements with
  | [] => mret ()
  | element :: rest =>
    match find_a element with
    | Some link =>
      if truthy (a_href link)
      then
        let href := default [] (a_href link) in
        if negb (startswith href (lit "mailto:")) && contains href (lit "http")
        then
          set_info "organiser_website" href;;
          name ← (match a_text link with
                  | _ :: _ => mret (a_text link)
                  | [] =>
                    after ← index (split href (lit "//")) 1;
                    index (split after (lit "/")) 0
                  end);
          set_info "organiser_name" name;;
          set_info "verification_status" (lit "Website_Found")
        else scan_elements rest
      else scan_elements rest
    | None => scan_elements rest
    end
  end.

Definition organizer_keywords : list str :=
  [lit "organizer"; lit "organised by"; lit "organiser"; lit "hosted by"; lit "presented by"].

Definition method_1 (soup : Soup) : Local dict unit :=
  for_each organizer_keywords (fun keyword =>
    let sections := find_all_text soup keyword in
    for_each (take 2 sections) (fun section =>
      match parent_next_siblings section with
      | Some siblings => scan_elements (take 3 siblings)
      | None => mret ()
      end)).

Definition social_fragments : list str :=
  [lit "facebook"; lit "twitter"; lit "linkedin"; lit "google"; lit "youtube"].

Definition not_social (e : str) : bool :=
  negb (existsb (fun x => contains (lower lib e) x) social_fragments).

Definition method_2 (soup : Soup) : Local dict unit :=
  let emails := re_findall (unicode_word lib) email_pattern (markup soup) in
  match emails with
  | [] => mret ()
  | _ :: _ =>
    let filtered_emails := List.filter not_social emails in
    match filtered_emails with
    | first :: _ =>
      set_info "organiser_email" first;;
      set_info "verification_status" (lit "Email_Found")
    | [] => mret ()
    end
  end.

(** Method 3, the loop over [contact_links[:2]]; it ends at the first
    link whose page answers ([break]). *)
Fixpoint probe_links (event_url : str) (links : list Anchor) : Local dict unit :=
  match links with
  | [] => mret ()
  | link :: rest =>
    let href := a_href link in
    if truthy href && negb (startswith (default [] href) (lit "mailto:"))
    then
      full_url ← (match urljoin lib event_url (default [] href) with
                  | Ok u => mret u
                  | Raise e => raise e
                  end);
      alive ← lift (validate_url full_url);
      if alive : bool
      then
        set_info "organiser_website" full_url;;
        set_info "verification_status" (lit "Contact_Page_Found")
      else probe_links event_url rest
    else probe_links event_url rest
  end.

Definition method_3 (event_url : str) (soup : Soup) : Local dict unit :=
  probe_links event_url (take 2 (contact_links soup)).

Definition initial_organizer_info : dict :=
  <["organiser_name" := NA]> (<["organiser_website" := NA]> (<["organiser_email" := NA]>
  (<["contact_person" := NA]> (<["verification_status" := lit "Unverified"]> ∅)))).

Definition extract_organizer_details (event_url : str) (headers : list (str * str))
    : IO dict :=
  '(outcome, organizer_info) ← run_local initial_organizer_info
    (lift (print (lit "    " ++ [128269] ++ lit " Extracting organizer details from: "
                  ++ take 60 event_url ++ lit "..."));;
     response ← lift (send {| req_method := GET; req_url := event_url;
                              req_headers := headers; req_timeout := 15 |});
     lift (raise_for_status response);;
     let soup := content response in
     method_1 soup;;
     method_2 soup;;
     method_3 event_url soup;;
     lift (emit (Slept (REQUEST_DELAY config))));
  match outcome with
  | Ok _ => mret organizer_info
  | Raise e =>
    print (lit "      " ++ [10060] ++ lit " Error extracting organizer details: " ++ exn_msg e);;
    mret (<["verification_status" := lit "Error: " ++ take 50 (exn_msg e)]> organizer_info)
  end.

(** *** extract_event_data_from_card *)

(** [url_match.group(1)]: the group starts after [window.open(] and a
    quote (13 characters), and a quote follows it. *)
Definition onclick_url (onclick_content : str) : option str :=
  match re_search (unicode_word lib) window_open_pattern onclick_content with
  | Some (start, len) => Some (take (len - 14) (drop (start + 13) onclick_content))
  | None => None
  end.

Definition name_of_link (event_link : str) : str :=
  let event_name := default [] (last (split event_link (lit "/"))) in
  strip (title lib (re_sub (unicode_word lib) hyphens_pattern (lit " ") event_name)).

Definition card_date (card : Card) (event_data : dict) : dict :=
  match date_td card with
  | Some text => <["event_date" := text]> event_data
  | None => <["event_date" := NA]> event_data
  end.

Definition card_link_and_name (card : Card) (event_data : dict) : dict :=
  match clickable_td card with
  | Some onclick_content =>
    match onclick_url onclick_content with
    | Some event_link =>
      <["event_name" := name_of_link event_link]> (<["event_link" := event_link]> event_data)
    | None => <["event_name" := NA]> (<["event_link" := NA]> event_data)
    end
  | None => <["event_name" := NA]> (<["event_link" := NA]> event_data)
  end.

Definition card_location (card : Card) (event_data : dict) : dict :=
  match venue_link card with
  | Some venue =>
    match venue_a venue with
    | Some location =>
      if contains location (lit ",")
      then
        let parts := split location (lit ",") in
        <["state" := if bool_decide (1 < length parts)%nat
                     then strip (default [] (last parts)) else NA]>
          (<["city" := strip (default [] (head parts))]> event_data)
      else <["state" := NA]> (<["city" := location]> event_data)
    | None => <["state" := NA]> (<["city" := venue_text venue]> event_data)
    end
  | None => <["state" := NA]> (<["city" := NA]> event_data)
  end.

Definition card_fields (card : Card) : dict :=
  card_location card (card_link_and_name card (card_date card ∅)).

(** No step of the body raises on the answers modelled here; the handler
    is the source's. *)
Definition extract_event_data_from_card (card : Card) (headers : list (str * str))
    : IO (option dict) :=
  try_except
    (mret (Some (card_fields card)))
    (fun e =>
       print (lit "      " ++ [10060] ++ lit " Error extracting event data: " ++ exn_msg e);;
       mret None).

(** *** scrape_10times_medical_pharma *)

Definition nat_str (n : nat) : str := lit (pretty n).

Definition no_details : dict :=
  <["organiser_name" := NA]> (<["organiser_website" := NA]> (<["organiser_email" := NA]>
  (<["verification_status" := lit "No_Details"]> ∅))).

(** The local lists of the driver: [scraped_data] and [validation_log]. *)
Abbreviation Driver := (Local (list dict * list str)).

Definition validate (organizer_info : dict) : Driver (list str) :=
  website ← item organizer_info "organiser_website";
  notes_1 ← (if negb (str_eqb website NA)
             then alive ← lift (validate_url website);
                  mret [if alive : bool then lit "Website_Valid" else lit "Website_Invalid"]
             else mret []);
  email ← item organizer_info "organiser_email";
  mret (notes_1 ++
        if negb (str_eqb email NA)
        then [if validate_email_format email
              then lit "Email_Format_Valid" else lit "Email_Format_Invalid"]
        else []).

(** The body of the loop over the cards, with its [try].  [validate] is
    the block under the source's comment "Validation". *)
Definition process_card (headers : list (str * str)) (total : nat) (i : nat) (card : Card)
    : Driver unit :=
  try_except
    (lift (print ([10] ++ [128203] ++ lit " Processing Event " ++ nat_str i ++ lit "/"
                  ++ nat_str total));;
     found ← lift (extract_event_data_from_card card headers);
     let event_data := default ∅ found in
     skip ← (if bool_decide (event_data = ∅) then mret true
             else name ← item event_data "event_name"; mret (str_eqb name NA));
     if skip : bool
     then lift (print (lit "    " ++ [10060] ++ lit " Could not extract basic event data"))
     else
       name ← item event_data "event_name";
       lift (print (lit "    " ++ [128197] ++ lit " Event: " ++ name));;
       city ← item event_data "city";
       state ← item event_data "state";
       lift (print (lit "    " ++ [128205] ++ lit " Location: " ++ city ++ lit ", " ++ state));;
       event_link ← item event_data "event_link";
       lift (print (lit "    " ++ [128279] ++ lit " Link: " ++ event_link));;
       organizer_info ← (if negb (str_eqb event_link NA)
                         then lift (extract_organizer_details event_link headers)
                         else mret no_details);
       let combined_data : dict := organizer_info ∪ event_data in
       validation_notes ← validate organizer_info;
       let combined_data := <["validation_notes" := join (lit ", ") validation_notes]>
                              combined_data in
       modify_local (fun v => (v.1 ++ [combined_data], v.2));;
       status ← item organizer_info "verification_status";
       notes ← item combined_data "validation_notes";
       let log_entry := lit "Event " ++ nat_str i ++ lit ": " ++ name ++ lit " | Status: "
                        ++ status ++ lit " | Notes: " ++ notes in
       modify_local (fun v => (v.1, v.2 ++ [log_entry]));;
       lift (print (lit "    " ++ [9989] ++ lit " Status: " ++ status)))
    (fun e =>
       lift (print (lit "    " ++ [10060] ++ lit " Error processing event " ++ nat_str i
                    ++ lit ": " ++ exn_msg e))).

Definition process_cards (headers : list (str * str)) (cards : list Card) : Driver unit :=
  for_each (zip (seq 1 (length cards)) cards)
           (fun ic => process_card headers (length cards) ic.1 ic.2).

(** [with open(name, 'w', ...) as f:] and the writes of [text] to it. *)
Definition write_text (name text : str) : IO unit :=
  match open_w world name with
  | Some e => raise e
  | None => emit (WroteText name text)
  end.

Definition log_text (scraped_data : list dict) (validation_log : list str) : str :=
  lit "EVENT ORGANIZER SCRAPING VALIDATION LOG" ++ [10]
  ++ lit "Scraped on: " ++ clock world ++ [10]
  ++ lit "Total events processed: " ++ nat_str (length scraped_data) ++ [10; 10]
  ++ concat ((fun entry => entry ++ [10]) <$> validation_log).

Definition listing_url : str := lit "https://10times.com/usa/medical-pharma".

Definition scrape_10times_medical_pharma : IO (list dict) :=
  let headers := get_stealth_headers in
  print ([127919] ++ lit " MEDICAL & PHARMA ORGANIZER SCRAPER");;
  print ([128205] ++ lit " Target: " ++ listing_url);;
  print ([128202] ++ lit " Events to scrape: " ++ nat_str (EVENTS_TO_SCRAPE config));;
  print ([9200] ++ lit " Request delay: " ++ nat_str (REQUEST_DELAY config) ++ lit " seconds");;
  print (replicate 70 (ch "="));;
  try_except
    (print ([127760] ++ lit " Fetching main event listing page...");;
     response ← send {| req_method := GET; req_url := listing_url;
                        req_headers := headers; req_timeout := 30 |};
     raise_for_status response;;
     print ([9989] ++ lit " Page fetched successfully (Status: "
            ++ lit (pretty (status_code response)) ++ lit ")");;
     let found := event_cards (content response) in
     print ([128269] ++ lit " Found " ++ nat_str (length found) ++ lit " event cards");;
     let cards := take (EVENTS_TO_SCRAPE config) found in
     '(_, lists) ← run_local ([], []) (process_cards headers cards);
     let scraped_data : list dict := lists.1 in
     let validation_log : list str := lists.2 in
     write_text (VALIDATION_LOG config) (log_text scraped_data validation_log);;
     print ([10] ++ [127881] ++ lit " Scraping completed!");;
     print ([128202] ++ lit " Successfully processed: " ++ nat_str (length scraped_data)
            ++ lit " events");;
     print ([128203] ++ lit " Validation log saved: " ++ VALIDATION_LOG config);;
     mret scraped_data)
    (fun e =>
       match exn_kind e with
       | RequestException =>
         print ([10060] ++ lit " Network error: " ++ exn_msg e);;
         (if contains (exn_msg e) (lit "403")
          then print ([127757] ++ lit " This might be due to geo-blocking. Try using a VPN!")
          else mret ());;
         mret []
       | OtherException =>
         print ([10060] ++ lit " Unexpected error: " ++ exn_msg e);;
         mret []
       end).

(** *** save_to_csv_with_validation *)

Definition csv_headers : list string :=
  [ "Event Name"; "Date"; "City"; "State";
    "Organiser Name"; "Organiser Website"; "Organiser Email";
    "Event Link"; "Verification Status"; "Validation Notes" ].

(** [event.get(k, 'N/A')] *)
Definition get_or_NA (event : dict) (k : string) : str := default NA (event !! k).

Definition csv_row (event : dict) : dict :=
  <["Event Name" := get_or_NA event "event_name"]> (
  <["Date" := get_or_NA event "event_date"]> (
  <["City" := get_or_NA event "city"]> (
  <["State" := get_or_NA event "state"]> (
  <["Organiser Name" := get_or_NA event "organiser_name"]> (
  <["Organiser Website" := get_or_NA event "organiser_website"]> (
  <["Organiser Email" := get_or_NA event "organiser_email"]> (
  <["Event Link" := get_or_NA event "event_link"]> (
  <["Verification Status" := get_or_NA event "verification_status"]> (
  <["Validation Notes" := get_or_NA event "validation_notes"]> ∅))))))))).

(** The cells [csv.DictWriter] writes for a row: the value at each field
    name, in the order of [fieldnames]. *)
Definition cells (fieldnames : list string) (row : dict) : list str :=
  (fun k => default [] (row !! k)) <$> fieldnames.

(** [with open(name, 'w', ...) as csvfile:], [writeheader] and
    [writerows]. *)
Definition write_csv (name : str) (fieldnames : list string) (rows : list dict) : IO unit :=
  match open_w world name with
  | Some e => raise e
  | None => emit (WroteCsv name (lit <$> fieldnames) (cells fieldnames <$> rows))
  end.

(** [(df[column] != 'N/A').sum()] *)
Definition count_known (column : string) (csv_data : list dict) : nat :=
  length (List.filter (fun row => negb (str_eqb (default [] (row !! column)) NA)) csv_data).

Definition save_to_csv_with_validation (data : list dict) : IO (option (list dict)) :=
  match data with
  | [] => print ([10060] ++ lit " No data to save!");; mret None
  | _ :: _ =>
    let csv_data := csv_row <$> data in
    write_csv (OUTPUT_CSV config) csv_headers csv_data;;
    print ([10] ++ [128202] ++ lit " DATA QUALITY SUMMARY:");;
    print (replicate 50 (ch "="));;
    print ([9989] ++ lit " Total events: " ++ nat_str (length csv_data));;
    print ([127970] ++ lit " Events with organizer names: "
           ++ nat_str (count_known "Organiser Name" csv_data));;
    print ([127760] ++ lit " Events with websites: "
           ++ nat_str (count_known "Organiser Website" csv_data));;
    print ([9993; 65039] ++ lit "  Events with emails: "
           ++ nat_str (count_known "Organiser Email" csv_data));;
    print ([128205] ++ lit " Events with location: "
           ++ nat_str (count_known "City" csv_data));;
    print ([10] ++ [128269] ++ lit " VERIFICATION STATUS BREAKDOWN:");;
    for_each (value_counts lib ((fun row => default [] (row !! "Verification Status"))
                                <$> csv_data))
             (fun sc => print (lit "    " ++ sc.1 ++ lit ": " ++ nat_str sc.2));;
    print ([10] ++ [128203] ++ lit " SAMPLE DATA PREVIEW:");;
    print (replicate 80 (ch "-"));;
    print (preview lib csv_data);;
    print ([10] ++ [9989] ++ lit " Data saved to: " ++ OUTPUT_CSV config);;
    mret (Some csv_data)
  end.

(** *** The main block *)

Definition bool_str (b : bool) : str := if b then lit "True" else lit "False".

Definition main : IO unit :=
  print ([127919] ++ lit " MEDICAL & PHARMA EVENT ORGANIZER SCRAPER");;
  print (replicate 60 (ch "="));;
  print ([128202] ++ lit " Configuration:");;
  print (lit "   Events to scrape: " ++ nat_str (EVENTS_TO_SCRAPE config));;
  print (lit "   Output file: " ++ OUTPUT_CSV config);;
  print (lit "   Request delay: " ++ nat_str (REQUEST_DELAY config) ++ lit " seconds");;
  print (lit "   Stealth mode: " ++ bool_str (USE_STEALTH_MODE config));;
  print (replicate 60 (ch "="));;
  organizer_data ← scrape_10times_medical_pharma;
  match organizer_data with
  | _ :: _ =>
    save_to_csv_with_validation organizer_data;;
    print ([10] ++ [127881] ++ lit " SCRAPING COMPLETED SUCCESSFULLY!");;
    print ([128193] ++ lit " Files created:");;
    print (lit "   " ++ [8226] ++ lit " " ++ OUTPUT_CSV config ++ lit " (Main data)");;
    print (lit "   " ++ [8226] ++ lit " " ++ VALIDATION_LOG config ++ lit " (Validation log)");;
    print ([10] ++ [128161] ++ lit " Next steps:");;
    print (lit "   1. Review the validation log for data quality");;
    print (lit "   2. Cross-check event dates with official sources");;
    print (lit "   3. Verify organizer contact information");;
    print (lit "   4. Scale up by changing EVENTS_TO_SCRAPE")
  | [] =>
    print ([10] ++ [10060] ++ lit " SCRAPING FAILED!");;
    print ([127757] ++ lit " If you're in Pakistan, try:");;
    print (lit "   " ++ [8226] ++ lit " Use a VPN (US/Europe server)");;
    print (lit "   " ++ [8226] ++ lit " Increase REQUEST_DELAY");;
    print (lit "   " ++ [8226] ++ lit " Try at different times")
  end;;
  print ([10] ++ replicate 60 (ch "="));;
  print ([127937] ++ lit " SCRAPER FINISHED").

End Scraper.

(** * The vocabulary of the properties

    The definitions the statements below are written with: the requests
    and lines of the program by name, what a property asks of a link, a
    record or a run, and the pages, cards and worlds of the examples. *)

(** ** Reasoning backwards through a computation *)

(** [wp m s Q]: what [m] returns, leaves and emits from the state [s]
    satisfies [Q]. *)
Definition wp {S A} (m : M S A) (s : S) (Q : Result A -> S -> list event -> Prop) : Prop :=
  Q (m s).1.1 (m s).1.2 (m s).2.

(** ** What a computation emits *)

(** Every event [m] emits satisfies [P], whatever the state it starts in. *)
Definition emits {S A} (P : event -> Prop) (m : M S A) : Prop :=
  forall s, Forall P (m s).2.

(** ** The regular expressions *)

(** The character before the rest of the text, after [xs] was read. *)
Definition last_or (prev : option N) (xs : str) : option N :=
  match last xs with
  | Some x => Some x
  | None => prev
  end.

(** What it is for a pattern to match at the head of a text, in [k]
    characters: each atom takes what it may, in any way. *)
Inductive matches (uw : N -> bool) : list atom -> option N -> str -> nat -> Prop :=
| matches_nil prev s : matches uw [] prev s 0
| matches_bol re s k :
    matches uw re None s k -> matches uw (Bol :: re) None s k
| matches_eol re prev s k :
    at_eol s = true -> matches uw re prev s k -> matches uw (Eol :: re) prev s k
| matches_wordb re prev s k :
    xorb (word_at uw prev) (word_at uw (head s)) = true ->
    matches uw re prev s k -> matches uw (WordB :: re) prev s k
| matches_chr re prev c s k :
    matches uw re (Some (ch c)) s k -> matches uw (Chr c :: re) prev (ch c :: s) (S k)
| matches_oneof re prev cs x s k :
    set_mem cs x = true ->
    matches uw re (Some x) s k -> matches uw (OneOf cs :: re) prev (x :: s) (S k)
| matches_many re prev cs lo xs s k :
    Forall (fun x => set_mem cs x = true) xs -> (lo <= length xs)%nat ->
    matches uw re (last_or prev xs) s k ->
    matches uw (Many cs lo :: re) prev (xs ++ s) (length xs + k).

(** ** The shape of an accepted e-mail *)

Definition is_letter (c : N) : bool := is_lower c || is_upper c.
Definition is_digit (c : N) : bool := (48 <=? c) && (c <=? 57).

(** The characters of the local part: letters, digits and [._%+-]. *)
Definition local_char (c : N) : bool :=
  is_letter c || is_digit c || bool_decide (c ∈ lit "._%+-").

(** The characters of the domain: letters, digits and [.-]. *)
Definition domain_char (c : N) : bool :=
  is_letter c || is_digit c || bool_decide (c ∈ lit ".-").

(** [local@domain.tld]: a local part and a domain that are not empty, and
    two or more letters after the dot that ends the domain. *)
Definition email_shape (s : str) : Prop :=
  exists local domain tld,
    s = local ++ ch "@" :: domain ++ ch "." :: tld /\
    local <> [] /\ Forall (fun c => local_char c = true) local /\
    domain <> [] /\ Forall (fun c => domain_char c = true) domain /\
    (2 <= length tld)%nat /\ Forall (fun c => is_letter c = true) tld.

(** ** The e-mail format check *)

(** The text ends in a dot and two or more letters. *)
Definition ends_in_tld (s : str) : Prop :=
  exists before tld,
    s = before ++ ch "." :: tld /\ (2 <= length tld)%nat /\
    Forall (fun c => is_upper c = true \/ is_lower c = true) tld.

(** The text holds a dot followed by two or more letters. *)
Definition has_tld_segment (s : str) : Prop :=
  exists before tld after,
    s = before ++ ch "." :: tld ++ after /\ (2 <= length tld)%nat /\
    Forall (fun c => is_letter c = true) tld.

(** ** URL liveness *)

Definition head_request (u : str) : Request :=
  {| req_method := HEAD; req_url := u; req_headers := get_stealth_headers; req_timeout := 10 |}.

(** ** The link of a card *)

(** A quote of either kind. *)
Definition is_quote (c : N) : Prop := c = ch "'" \/ c = ch dquote.

(** The click handler holds [window.open(], a quote, the text [u], which
    is not empty and holds no quote, and a quote. *)
Definition opens_window (onclick_content u : str) : Prop :=
  exists before q1 q2 after,
    onclick_content = before ++ lit "window.open(" ++ q1 :: u ++ q2 :: after /\
    is_quote q1 /\ is_quote q2 /\ u <> [] /\ Forall (fun c => ~ is_quote c) u.

(** ** The fields of a card *)

(** The link the click handler of a card holds, if it holds one. *)
Definition card_link (lib : Library) (card : Card) : option str :=
  clickable_td card ≫= onclick_url lib.

(** ** The name of an event *)

(** A word of a link: lowercase letters, one at least. *)
Definition lower_word (w : str) : Prop := w <> [] /\ Forall (fun c => is_lower c = true) w.

(** Words with a run of hyphens before each one after the first; a run
    is given by the number of its hyphens after its first. *)
Definition hyphenated (w : str) (more : list (nat * str)) : str :=
  w ++ concat ((fun kw => replicate (S kw.1) (ch "-") ++ kw.2) <$> more).

Definition capitalized (w : str) : str :=
  match w with
  | c :: rest => to_upper c :: rest
  | [] => []
  end.

(** The words capitalized, with one space between them. *)
Definition spaced (w : str) (more : list (nat * str)) : str :=
  capitalized w ++ concat ((fun kw => ch " " :: capitalized kw.2) <$> more).

(** ** Method 1 in general *)

(** A link Method 1 accepts: it has a target, which is no mail link and
    contains "http". *)
Definition qualifies (link : Anchor) : bool :=
  truthy (a_href link)
  && negb (startswith (default [] (a_href link)) (lit "mailto:"))
  && contains (default [] (a_href link)) (lit "http").

(** The first link that qualifies among the links of the elements. *)
Fixpoint first_qualifying (els : list Element) : option Anchor :=
  match els with
  | [] => None
  | element :: rest =>
    match find_a element with
    | Some link => if qualifies link then Some link else first_qualifying rest
    | None => first_qualifying rest
    end
  end.

(** The name Method 1 takes from a link: its text, or the host of its
    target when the text is empty; [None] where the source's indexing
    raises. *)
Definition link_name (link : Anchor) : option str :=
  match a_text link with
  | _ :: _ => Some (a_text link)
  | [] =>
    after ← split (default [] (a_href link)) (lit "//") !! 1%nat;
    split after (lit "/") !! 0%nat
  end.

Definition record_link (organizer_info : dict) (link : Anchor) : dict :=
  <["verification_status" := lit "Website_Found"]>
    (<["organiser_name" := default [] (link_name link)]>
       (<["organiser_website" := default [] (a_href link)]> organizer_info)).

(** The sibling lists Method 1 scans, in the order it scans them: for each
    keyword, for each of the first two sections that have a parent with
    siblings, the first three of them. *)
Definition scanned (soup : Soup) : list (list Element) :=
  keyword ← organizer_keywords;
  section ← take 2 (find_all_text soup keyword);
  match parent_next_siblings section with
  | Some siblings => [take 3 siblings]
  | None => []
  end.

(** The links Method 1 accepts, one for each scan that has one. *)
Definition hits (soup : Soup) : list Anchor := omap first_qualifying (scanned soup).

(** The organizer fields after the scans [scans] of Method 1, none of
    which raised. *)
Definition after_scans (scans : list (list Element)) (organizer_info : dict) : dict :=
  foldl record_link organizer_info (omap first_qualifying scans).

(** ** Method 1 on a page with two mentions *)

Definition acme_link : Anchor :=
  {| a_href := Some (lit "https://www.acme-events.example"); a_text := lit "Acme Events" |}.

Definition hotel_link : Anchor :=
  {| a_href := Some (lit "https://www.grand-hotel.example"); a_text := lit "Grand Hotel" |}.

(** A page with, in this order among the children of one element: a
    paragraph "Organizer", a block holding the Acme link, a paragraph
    "Hosted by", a block holding the hotel link.  The text "Organizer" is
    the one match of the keyword "organizer", and the three tags after its
    paragraph are its siblings; the text "Hosted by" is the one match of
    "hosted by", and the block of the hotel link is its only sibling. *)
Definition two_mentions_page : Soup := {|
  event_cards := [];
  find_all_text := fun keyword =>
    if str_eqb keyword (lit "organizer")
    then [ {| parent_next_siblings :=
                Some [ {| find_a := Some acme_link |}; {| find_a := None |};
                       {| find_a := Some hotel_link |} ] |} ]
    else if str_eqb keyword (lit "hosted by")
    then [ {| parent_next_siblings := Some [ {| find_a := Some hotel_link |} ] |} ]
    else [];
  markup := [];
  contact_links := []
|}.

(** ** Method 2: the e-mail scan *)

(** The lowercased text of [e] contains one of the fragments. *)
Definition mentions_social (lib : Library) (e : str) : Prop :=
  exists x, x ∈ social_fragments /\ contains (lower lib e) x = true.

(** The characters of the last segment for the pattern of Method 2:
    letters and the bar. *)
Definition tld_char (c : N) : bool := is_letter c || (c =? ch "|").

(** A text the pattern of Method 2 matches: a local part, [@], a domain, a
    dot, and two or more characters of the last segment. *)
Definition found_shape (e : str) : Prop :=
  exists local domain tld,
    e = local ++ ch "@" :: domain ++ ch "." :: tld /\
    local <> [] /\ Forall (fun c => local_char c = true) local /\
    domain <> [] /\ Forall (fun c => domain_char c = true) domain /\
    (2 <= length tld)%nat /\ Forall (fun c => tld_char c = true) tld.

(** ** Method 3: contact links *)

(** A link the loop of Method 3 passes over: its [href] is absent, or starts
    with [mailto:]. *)
Definition passed_over (link : Anchor) : Prop :=
  a_href link = None \/
  exists href, a_href link = Some href /\ startswith href (lit "mailto:") = true.

(** ** A detail page that cannot be fetched *)

Definition get_request (u : str) (headers : list (str * str)) : Request :=
  {| req_method := GET; req_url := u; req_headers := headers; req_timeout := 15 |}.

(** The fetch of a page raises [e]: the request itself does, or the status
    of the answer makes [raise_for_status] do so. *)
Definition fetch_raises (world : World) (n : nat) (r : Request) (e : exn) : Prop :=
  http world n r = Raise e \/
  exists response, http world n r = Ok response /\ http_error response = Some e.

(** The record [extract_organizer_details] returns when its fetch raised. *)
Definition error_info (e : exn) : dict :=
  <["verification_status" := lit "Error: " ++ take 50 (exn_msg e)]> initial_organizer_info.

Definition extracting_line (u : str) : str :=
  lit "    " ++ [128269] ++ lit " Extracting organizer details from: " ++ take 60 u ++ lit "...".

Definition extract_error_line (e : exn) : str :=
  lit "      " ++ [10060] ++ lit " Error extracting organizer details: " ++ exn_msg e.

(** ** The methods one after another *)

(** The organizer fields as Method 2 leaves them. *)
Definition after_method_2 (lib : Library) (soup : Soup) (organizer_info : dict) : dict :=
  match List.filter (not_social lib)
                    (re_findall (unicode_word lib) email_pattern (markup soup)) with
  | e :: _ =>
    <["verification_status" := lit "Email_Found"]> (<["organiser_email" := e]> organizer_info)
  | [] => organizer_info
  end.

(** ** A method that raises *)

Definition index_error : exn := Exn OtherException (lit "list index out of range").

(** ** What the methods keep *)

(** The keys of the organizer fields the driver reads. *)
Definition organizer_keys : list string :=
  ["organiser_name"; "organiser_website"; "organiser_email"; "verification_status"].

(** ** The pause of the organizer extractor *)

(** An event that is no pause. *)
Definition quiet (e : event) : Prop :=
  match e with
  | Slept _ => False
  | _ => True
  end.

(** The three methods as the [try] block runs them, one after another. *)
Definition run_methods lib world (u : str) (soup : Soup) : Local dict unit :=
  method_1 soup;; method_2 lib soup;; method_3 lib world u soup.

(** The exception the [try] block of the extractor ends with, if it ends
    with one: that of the fetch, or else that of the methods on the page
    fetched. *)
Definition raised_in_try lib world (u : str) (headers : list (str * str)) (n : nat)
    : option exn :=
  match http world n (get_request u headers) with
  | Raise e => Some e
  | Ok response =>
    match http_error response with
    | Some e => Some e
    | None =>
      match (run_methods lib world u (content response) (initial_organizer_info, S n)).1.1 with
      | Ok _ => None
      | Raise e => Some e
      end
    end
  end.

(** ** Validation notes *)

(** The notes of a record whose website and e-mail are as given, [alive]
    being the answer of the liveness check when there is one. *)
Definition notes_for (lib : Library) (website email : str) (alive : bool) : list str :=
  (if str_eqb website NA then []
   else [if alive then lit "Website_Valid" else lit "Website_Invalid"])
  ++ (if str_eqb email NA then []
      else [if validate_email_format lib email
            then lit "Email_Format_Valid" else lit "Email_Format_Invalid"]).

(** A record that has a website and an e-mail, and whose validation notes
    are the notes for them, joined by ", ". *)
Definition well_noted (lib : Library) (record : dict) : Prop :=
  exists website email alive,
    record !! "organiser_website" = Some website /\
    record !! "organiser_email" = Some email /\
    record !! "validation_notes"
    = Some (join (lit ", ") (notes_for lib website email alive)).

(** ** A card whose detail page cannot be fetched *)

(** The record the driver appends for such a card. *)
Definition error_record (lib : Library) (card : Card) (e : exn) : dict :=
  <["validation_notes" := []]> (error_info e ∪ card_fields lib card).

(** The cards from number [first] on, each with its number, run through
    the body of the driver's loop. *)
Definition process_from lib world config headers (total first : nat) (cards : list Card)
    : Local (list dict * list str) unit :=
  for_each (zip (seq first (length cards)) cards)
           (fun ic => process_card lib world config headers total ic.1 ic.2).

(** ** A card without a link *)

Definition processing_line (i total : nat) : str :=
  [10] ++ [128203] ++ lit " Processing Event " ++ nat_str i ++ lit "/" ++ nat_str total.

Definition skipped_line : str :=
  lit "    " ++ [10060] ++ lit " Could not extract basic event data".

(** ** The records of the driver *)

Definition card_keys : list string :=
  ["event_name"; "event_date"; "city"; "state"; "event_link"].

(** The keys of a record, which are the keys the reporter reads. *)
Definition record_keys : list string :=
  [ "event_name"; "event_date"; "city"; "state"; "organiser_name"; "organiser_website";
    "organiser_email"; "event_link"; "verification_status"; "validation_notes" ].

Definition has_keys (keys : list string) (d : dict) : Prop :=
  forall k, k ∈ keys -> is_Some (d !! k).

Definition lacks_keys (keys : list string) (d : dict) : Prop :=
  forall k, k ∈ keys -> d !! k = None.

(** The organizer fields as the driver has them for a card: those of
    [no_details] when the link of the card is "N/A", and else what
    [extract_organizer_details] returned for the link. *)
Definition organizer_of lib world config headers (card : Card) (info : dict) : Prop :=
  exists link,
    card_fields lib card !! "event_link" = Some link /\
    if str_eqb link NA then info = no_details
    else exists n n' out,
        extract_organizer_details lib world config link headers n = (Ok info, n', out).

(** A record as the driver builds it for a card: the fields of the card,
    under the organizer fields, under the validation notes. *)
Definition built_record lib world config headers (card : Card) (record : dict) : Prop :=
  exists info website email alive,
    organizer_of lib world config headers card info /\
    info !! "organiser_website" = Some website /\
    info !! "organiser_email" = Some email /\
    record = <["validation_notes" := join (lit ", ") (notes_for lib website email alive)]>
               (info ∪ card_fields lib card).

(** The line of the validation log for the record of card number [i]. *)
Definition log_line (i : nat) (record : dict) : str :=
  lit "Event " ++ nat_str i ++ lit ": " ++ get_or_NA record "event_name"
  ++ lit " | Status: " ++ get_or_NA record "verification_status"
  ++ lit " | Notes: " ++ get_or_NA record "validation_notes".

(** What the body of the loop does to the two lists of the driver: it
    leaves them alone, or appends one record to the one and the line for
    that record to the other. *)
Definition appends_built lib world config headers (i : nat) (card : Card)
    (lists : list dict * list str) (s' : list dict * list str * nat) : Prop :=
  s'.1 = lists \/
  exists record,
    s'.1 = (lists.1 ++ [record], lists.2 ++ [log_line i record]) /\
    built_record lib world config headers card record.

(** A record the driver built for one of the cards, and its line of the
    log. *)
Definition built_from lib world config headers (cards : list Card)
    (record : dict) (entry : str) : Prop :=
  exists i card,
    (i, card) ∈ zip (seq 1 (length cards)) cards /\
    built_record lib world config headers card record /\
    entry = log_line i record.

(** ** A listing page that cannot be fetched *)

Definition listing_request : Request :=
  {| req_method := GET; req_url := listing_url;
     req_headers := get_stealth_headers; req_timeout := 30 |}.

(** The line that reports the failure of the listing fetch. *)
Definition report_line (e : exn) : str :=
  match exn_kind e with
  | RequestException => [10060] ++ lit " Network error: " ++ exn_msg e
  | OtherException => [10060] ++ lit " Unexpected error: " ++ exn_msg e
  end.

Definition failed_line : str := [10] ++ [10060] ++ lit " SCRAPING FAILED!".

(** ** Concrete runs *)

(** A library for text that is ASCII, and links that are absolute. *)
Definition ascii_library : Library := {|
  unicode_word := fun _ => false;
  unicode_lower := fun s => s;
  unicode_title := fun s => s;
  urljoin := fun _ href => Ok href;
  value_counts := fun _ => [];
  preview := fun _ => []
|}.

Definition empty_soup : Soup := {|
  event_cards := [];
  find_all_text := fun _ => [];
  markup := [];
  contact_links := []
|}.

(** A row of the listing: a date, a click handler with the link of the
    event, and a venue with a link. *)
Definition expo_card : Card := {|
  date_td := Some (lit "Mon, 02 Mar 2026");
  clickable_td := Some (lit "window.open('https://10times.com/pharma-expo')");
  venue_link := Some {| venue_a := Some (lit "Boston, MA"); venue_text := lit "Boston, MA" |}
|}.

Definition listing_soup : Soup := {|
  event_cards := [expo_card];
  find_all_text := fun _ => [];
  markup := [];
  contact_links := []
|}.

Definition timed_out : exn :=
  Exn RequestException
      (lit "HTTPSConnectionPool(host='10times.com', port=443): Read timed out. (read timeout=15)").

(** The listing page is answered with [status] and one card; every later
    request times out. *)
Definition one_card_world (status : Z) : World := {|
  http := fun n _ =>
    match n with
    | O => Ok {| status_code := status; reason := lit "-"; url := listing_url;
                 content := listing_soup |}
    | S _ => Raise timed_out
    end;
  clock := lit "2025-09-20 10:00:00.000000";
  open_w := fun _ => None
|}.

(** The record of the one card when its detail page timed out. *)
Definition expo_record : dict :=
  <["validation_notes" := []]> (
  <["verification_status" := lit "Error: HTTPSConnectionPool(host='10times.com', port=443):"]> (
  <["contact_person" := NA]> (
  <["organiser_email" := NA]> (
  <["organiser_website" := NA]> (
  <["organiser_name" := NA]> (
  <["state" := lit "MA"]> (
  <["city" := lit "Boston"]> (
  <["event_name" := lit "Pharma Expo"]> (
  <["event_link" := lit "https://10times.com/pharma-expo"]> (
  <["event_date" := lit "Mon, 02 Mar 2026"]> ∅)))))))))).

(** ** The run when the listing page fails *)

(** The listing fetch fails as the specification words it: the request
    raises, or its answer has a status outside 200..299. *)
Definition listing_fails (world : World) (n : nat) : Prop :=
  (exists e, http world n listing_request = Raise e) \/
  (exists response, http world n listing_request = Ok response /\
                    ~ (200 <= status_code response < 300)%Z).

(** ** Fields that were not resolved *)

(** Method 1 found the name [v] on the page: it is the name of a link it
    accepts near a mention of the organizer. *)
Definition name_found (soup : Soup) (v : str) : Prop :=
  exists link, link ∈ hits soup /\ link_name link = Some v.

(** A method found the website [v]: it is the target of a link Method 1
    accepts, or the address of one of the first two contact links, joined
    to the address of the page, that answered a HEAD request with 200, 301
    or 302. *)
Definition website_found lib world (u : str) (soup : Soup) (v : str) : Prop :=
  (exists link, link ∈ hits soup /\ a_href link = Some v) \/
  (exists link href n answer,
     link ∈ take 2 (contact_links soup) /\ a_href link = Some href /\
     urljoin lib u href = Ok v /\
     http world n (head_request v) = Ok answer /\
     status_code answer ∈ [200; 301; 302]%Z).

(** Method 2 found the e-mail [v]: it is the first address in the markup
    of the page that mentions no social fragment. *)
Definition email_found lib (soup : Soup) (v : str) : Prop :=
  head (List.filter (not_social lib)
          (re_findall (unicode_word lib) email_pattern (markup soup))) = Some v.

(** Each of the organizer's name, website and e-mail is "N/A" or what a
    method found on the page [soup] of the event at [u]. *)
Definition found_or_NA lib world (u : str) (soup : Soup) (d : dict) : Prop :=
  (forall v, d !! "organiser_name" = Some v -> v = NA \/ name_found soup v) /\
  (forall v, d !! "organiser_website" = Some v ->
             v = NA \/ website_found lib world u soup v) /\
  (forall v, d !! "organiser_email" = Some v -> v = NA \/ email_found lib soup v).

(** The organizer cells of a row for the link [link] of its card: all
    "N/A" (nothing was fetched for the link, or the fetch failed), or each
    of them "N/A" or found on the page that was fetched for the link. *)
Definition organizer_cells lib world (link name website email : str) : Prop :=
  (name = NA /\ website = NA /\ email = NA) \/
  (link <> NA /\
   exists n response,
     http world n (get_request link get_stealth_headers) = Ok response /\
     http_error response = None /\
     (name = NA \/ name_found (content response) name) /\
     (website = NA \/ website_found lib world link (content response) website) /\
     (email = NA \/ email_found lib (content response) email)).

(** A row of the CSV file for a card: a cell that could not be resolved
    holds "N/A".  The date is the date of the card, "N/A" when the card
    has no date cell; city and state are "N/A" when the card has no venue
    element, and the state also when the venue has no link or its text no
    comma; the link is the link of the card, and the name the name of that
    link, both "N/A" when the card has no link; and the organizer cells
    are "N/A" unless a method found them. *)
Definition unresolved_cells_are_NA lib world (card : Card) (row : list str) : Prop :=
  exists event_name date city state name website email link status notes,
    row = [event_name; date; city; state; name; website; email; link; status; notes] /\
    date = default NA (date_td card) /\
    (venue_link card = None -> city = NA /\ state = NA) /\
    (forall venue,
       venue_link card = Some venue ->
       venue_a venue = None \/
       (exists location, venue_a venue = Some location /\ ch "," ∉ location) ->
       state = NA) /\
    link = default NA (card_link lib card) /\
    event_name = from_option (name_of_link lib) NA (card_link lib card) /\
    organizer_cells lib world link name website email.

(** ** The reporter *)

(** The ten columns, as the specification lists them. *)
Definition ten_columns : list str :=
  [ lit "Event Name"; lit "Date"; lit "City"; lit "State"; lit "Organiser Name";
    lit "Organiser Website"; lit "Organiser Email"; lit "Event Link";
    lit "Verification Status"; lit "Validation Notes" ].

(** The row of a record: its value under the key of each column, "N/A"
    where the record has none. *)
Definition row_of (event : dict) : list str :=
  [ get_or_NA event "event_name"; get_or_NA event "event_date";
    get_or_NA event "city"; get_or_NA event "state";
    get_or_NA event "organiser_name"; get_or_NA event "organiser_website";
    get_or_NA event "organiser_email"; get_or_NA event "event_link";
    get_or_NA event "verification_status"; get_or_NA event "validation_notes" ].

(** ** What the program emits *)

(** The events of a run: lines on the console; the GET request for the
    listing page, GET requests for pages of events and HEAD requests, all
    with the headers of [get_stealth_headers] and their own timeouts;
    pauses of [REQUEST_DELAY] seconds; the validation log; and the CSV file
    with its ten columns. *)
Definition allowed (config : Config) (e : event) : Prop :=
  match e with
  | Printed _ => True
  | Sent r =>
    r = listing_request \/
    (exists u, r = get_request u get_stealth_headers) \/
    (exists u, r = head_request u)
  | Slept seconds => seconds = REQUEST_DELAY config
  | WroteText file _ => file = VALIDATION_LOG config
  | WroteCsv file header _ => file = OUTPUT_CSV config /\ header = ten_columns
  end.

(** ** How much a run does *)

(** The number of requests among the events. *)
Definition requests_in (out : list event) : nat :=
  length (List.filter (fun e => match e with Sent _ => true | _ => false end) out).

(** The number of pauses among the events. *)
Definition pauses_in (out : list event) : nat :=
  length (List.filter (fun e => match e with Slept _ => true | _ => false end) out).

(** An event that is neither a request nor a pause. *)
Definition uncounted (e : event) : Prop :=
  match e with
  | Sent _ | Slept _ => False
  | _ => True
  end.

(** ** How a run can end *)

(** An event that is no write to a file. *)
Definition no_file (e : event) : Prop :=
  match e with
  | WroteText _ _ | WroteCsv _ _ _ => False
  | _ => True
  end.

(** ** The stealth-mode toggle *)

Definition with_stealth (b : bool) (config : Config) : Config := {|
  EVENTS_TO_SCRAPE := EVENTS_TO_SCRAPE config;
  USE_STEALTH_MODE := b;
  REQUEST_DELAY := REQUEST_DELAY config;
  OUTPUT_CSV := OUTPUT_CSV config;
  VALIDATION_LOG := VALIDATION_LOG config
|}.

(** What a run emits besides console lines: its requests (with their
    headers), its pauses, and the files it writes. *)
Definition off_console (out : list event) : list event :=
  List.filter (fun e => match e with Printed _ => false | _ => true end) out.

(** ** Instances *)

Definition venue_card (text : str) : Card := {|
  date_td := None;
  clickable_td := None;
  venue_link := Some {| venue_a := Some text; venue_text := text |}
|}.

Definition no_venue_card : Card :=
  {| date_td := None; clickable_td := None; venue_link := None |}.

Definition press_page : Soup := {|
  event_cards := [];
  find_all_text := fun _ => [];
  markup := lit "<p>Follow us: <a href='mailto:info@facebook.com'>Facebook</a></p><p>Press office: press@acme-pharma.com</p>";
  contact_links := []
|}.

Definition mail_link : Anchor :=
  {| a_href := Some (lit "mailto:info@acme-events.example"); a_text := lit "Contact" |}.

Definition about_link : Anchor :=
  {| a_href := Some (lit "https://www.acme-events.example/about"); a_text := lit "About us" |}.

(** No request is answered. *)
Definition unreachable_world : World := {|
  http := fun _ _ => Raise timed_out;
  clock := lit "2025-09-20 10:00:00.000000";
  open_w := fun _ => None
|}.



(** The listing page has one card and every page answers, but no file
    can be opened for writing. *)
Definition read_only_world : World := {|
  http := http (one_card_world 200);
  clock := lit "2025-09-20 10:00:00.000000";
  open_w := fun _ => Some (Exn OtherException (lit "[Errno 30] Read-only file system"))
|}.

(** A link around an image: it has no text, and its target is a path of
    the site with the address of the organizer in its query. *)
Definition image_link : Anchor :=
  {| a_href := Some (lit "/redirect?to=http%3A%2F%2Fwww.acme-events.example");
     a_text := [] |}.

Definition image_link_page : Soup := {|
  event_cards := [];
  find_all_text := fun keyword =>
    if str_eqb keyword (lit "organizer")
    then [ {| parent_next_siblings := Some [ {| find_a := Some image_link |} ] |} ]
    else [];
  markup := lit "<p>Organizer</p><div><a href='/redirect?to=http%3A%2F%2Fwww.acme-events.example'><img src='logo.png'/></a></div><p>press@acme-pharma.com</p>";
  contact_links := []
|}.

(** Every request is answered with the page of the image link. *)
Definition image_link_world : World := {|
  http := fun _ _ => Ok {| status_code := 200; reason := lit "OK";
                           url := lit "https://10times.com/pharma-expo";
                           content := image_link_page |};
  clock := lit "2025-09-20 10:00:00.000000";
  open_w := fun _ => None
|}.



(** The listing page is answered, and it has no card. *)
Definition empty_listing_world : World := {|
  http := fun _ _ => Ok {| status_code := 200; reason := lit "OK"; url := listing_url;
                           content := empty_soup |};
  clock := lit "2025-09-20 10:00:00.000000";
  open_w := fun _ => None
|}.

(** A card whose click handler opens the text "N/A". *)
Definition literal_NA_card : Card := {|
  date_td := None;
  clickable_td := Some (lit "window.open('N/A')");
  venue_link := None
|}.

(** A card whose venue element holds the text "Boston, MA" and no link. *)
Definition bare_venue_card : Card := {|
  date_td := None;
  clickable_td := None;
  venue_link := Some {| venue_a := None; venue_text := lit "Boston, MA" |}
|}.

(** * Properties *)

(** ** The monad *)

Lemma bind_ok {S A B} (m : M S A) (f : A -> M S B) s a s1 out1 :
  m s = (Ok a, s1, out1) ->
  (m ≫= f) s = (let '(r, s2, out2) := f a s1 in (r, s2, out1 ++ out2)).
Proof. intros H. unfold mbind, M_bind. now rewrite H. Qed.

Lemma for_each_app {S A} (xs ys : list A) (body : A -> M S unit) s :
  for_each (xs ++ ys) body s = (for_each xs body;; for_each ys body) s.
Proof.
  revert s. induction xs as [|x xs IH]; intros s; cbn [app for_each].
  - unfold mbind, M_bind, mret, M_ret. now destruct (for_each ys body s) as [[r s'] out].
  - unfold mbind, M_bind in *. destruct (body x s) as [[[[]|e] s1] out1]; [|reflexivity].
    rewrite IH. destruct (for_each xs body s1) as [[[[]|e] s2] out2]; [|reflexivity].
    destruct (for_each ys body s2) as [[r s3] out3]. now rewrite app_assoc.
Qed.

(** One step of a computation: the combinators are opened and the tuples
    they pass on are read. *)
Ltac mstep :=
  unfold mbind, M_bind, mret, M_ret, raise, try_except, run_local, lift,
         modify_local, print, emit;
  cbn [fst snd from_option id app].

(** ** Reasoning backwards through a computation *)

Lemma wp_run {S A} (m : M S A) s Q r s' out :
  m s = (r, s', out) -> wp m s Q -> Q r s' out.
Proof. unfold wp. now intros ->. Qed.

Lemma wp_mono {S A} (m : M S A) s (Q Q' : Result A -> S -> list event -> Prop) :
  wp m s Q -> (forall r s' out, Q r s' out -> Q' r s' out) -> wp m s Q'.
Proof. unfold wp. auto. Qed.

Lemma wp_any {S A} (m : M S A) s (Q : Result A -> S -> list event -> Prop) :
  (forall r s' out, Q r s' out) -> wp m s Q.
Proof. unfold wp. auto. Qed.

Lemma wp_ret {S A} (a : A) (s : S) Q : Q (Ok a) s [] -> wp (mret a) s Q.
Proof. exact id. Qed.

Lemma wp_raise {S A} (e : exn) (s : S) (Q : Result A -> S -> list event -> Prop) :
  Q (Raise e) s [] -> wp (raise e) s Q.
Proof. exact id. Qed.

Lemma wp_bind {S A B} (m : M S A) (f : A -> M S B) s Q :
  wp m s (fun r s1 out1 =>
            match r with
            | Ok a => wp (f a) s1 (fun r2 s2 out2 => Q r2 s2 (out1 ++ out2))
            | Raise e => Q (Raise e) s1 out1
            end) ->
  wp (m ≫= f) s Q.
Proof.
  unfold wp, mbind, M_bind. destruct (m s) as [[[a|e] s1] out1]; cbn [fst snd]; [|auto].
  now destruct (f a s1) as [[r2 s2] out2].
Qed.

Lemma wp_try {S A} (m : M S A) (h : exn -> M S A) s Q :
  wp m s (fun r s1 out1 =>
            match r with
            | Ok a => Q (Ok a) s1 out1
            | Raise e => wp (h e) s1 (fun r2 s2 out2 => Q r2 s2 (out1 ++ out2))
            end) ->
  wp (try_except m h) s Q.
Proof.
  unfold wp, try_except. destruct (m s) as [[[a|e] s1] out1]; cbn [fst snd]; [auto|].
  now destruct (h e s1) as [[r2 s2] out2].
Qed.

Lemma wp_lift {V A} (m : IO A) (s : V * nat) Q :
  wp m s.2 (fun r n out => Q r (s.1, n) out) -> wp (lift m) s Q.
Proof. unfold wp, lift. now destruct (m s.2) as [[r n] out]. Qed.

Lemma wp_modify {V} (f : V -> V) (s : V * nat) Q :
  Q (Ok ()) (f s.1, s.2) [] -> wp (modify_local f) s Q.
Proof. exact id. Qed.

Lemma wp_print (line : str) (n : nat) Q :
  Q (Ok ()) n [Printed line] -> wp (print line) n Q.
Proof. exact id. Qed.

Lemma wp_item {S} (d : dict) (k : string) (s : S) Q :
  (forall v, d !! k = Some v -> Q (Ok v) s []) ->
  (forall e, d !! k = None -> Q (Raise e) s []) ->
  wp (item d k) s Q.
Proof.
  intros Hsome Hnone. unfold item. destruct (d !! k) as [v|]; [apply wp_ret | apply wp_raise]; auto.
Qed.

Lemma wp_for_each {S A} (xs : list A) (body : A -> M S unit) (I : S -> Prop) s :
  I s ->
  (forall x s, I s -> wp (body x) s (fun _ s' _ => I s')) ->
  wp (for_each xs body) s (fun _ s' _ => I s').
Proof.
  intros Hs Hbody. revert s Hs. induction xs as [|x xs IH]; intros s Hs; cbn [for_each].
  - now apply wp_ret.
  - apply wp_bind. eapply wp_mono; [apply Hbody, Hs|].
    intros [[]|e] s1 out1 H1; [now apply IH | exact H1].
Qed.

Lemma wp_case {S A} (m : M S A) s (Q : Result A -> S -> list event -> Prop) :
  (forall r s' out, m s = (r, s', out) -> Q r s' out) -> wp m s Q.
Proof. unfold wp. intros H. apply H. now destruct (m s) as [[r s'] out]. Qed.

#[global] Opaque wp.

(** The steps of a computation that need no thought. *)
Ltac wp_go :=
  repeat lazymatch goal with
  | |- wp (mbind _ _) _ _ => apply wp_bind
  | |- wp (lift _) _ _ => apply wp_lift
  | |- wp (print _) _ _ => apply wp_print
  | |- wp (mret _) _ _ => apply wp_ret
  | |- wp (raise _) _ _ => apply wp_raise
  | |- wp (modify_local _) _ _ => apply wp_modify
  | |- wp (try_except _ _) _ _ => apply wp_try
  | |- wp (item _ _) _ _ => apply wp_item; intros
  | |- _ => progress cbn [fst snd from_option id]
  end.

Lemma wp_run_local {V A} (init : V) (m : Local V A) (n : nat) Q :
  wp m (init, n) (fun r s out => Q (Ok (r, s.1)) s.2 out) -> wp (run_local init m) n Q.
Proof.
  intros H. apply wp_case. intros r n' out. unfold run_local.
  destruct (m (init, n)) as [[r0 s0] out0] eqn:Hm. intros [= <- <- <-].
  exact (wp_run _ _ _ _ _ _ Hm H).
Qed.

Lemma wp_index {S} (xs : list str) (i : nat) (s : S) Q :
  (forall v, xs !! i = Some v -> Q (Ok v) s []) ->
  (forall e, xs !! i = None -> Q (Raise e) s []) ->
  wp (index xs i) s Q.
Proof.
  intros Hsome Hnone. unfold index. destruct (xs !! i) as [v|]; [apply wp_ret | apply wp_raise]; auto.
Qed.

Lemma wp_emit (e : event) (n : nat) Q : Q (Ok ()) n [e] -> wp (emit e) n Q.
Proof. intros H. apply wp_case. now intros r s' out [= <- <- <-]. Qed.

Lemma wp_for_each_in {S A} (xs : list A) (body : A -> M S unit) (I : S -> Prop) s :
  I s ->
  (forall x s, x ∈ xs -> I s -> wp (body x) s (fun _ s' _ => I s')) ->
  wp (for_each xs body) s (fun _ s' _ => I s').
Proof.
  intros Hs Hbody. revert s Hs. induction xs as [|x xs IH]; intros s Hs; cbn [for_each].
  - now apply wp_ret.
  - apply wp_bind. eapply wp_mono; [apply Hbody; [apply list_elem_of_here | exact Hs]|].
    intros [[]|e] s1 out1 H1; [|exact H1].
    apply IH; [|exact H1]. intros y s2 Hy. apply Hbody. now apply list_elem_of_further.
Qed.

Lemma wp_send world (r : Request) (n : nat) Q :
  Q (http world n r) (S n) [Sent r] -> wp (send world r) n Q.
Proof. intros H. apply wp_case. now intros r' n' out [= <- <- <-]. Qed.

(** ** What a computation emits *)

Lemma emits_ret {S A} P (a : A) : emits (S := S) P (mret a).
Proof. intros s. constructor. Qed.

Lemma emits_raise {S A} P (e : exn) : emits (S := S) (A := A) P (raise e).
Proof. intros s. constructor. Qed.

Lemma emits_bind {S A B} P (m : M S A) (f : A -> M S B) :
  emits P m -> (forall a, emits P (f a)) -> emits P (m ≫= f).
Proof.
  intros Hm Hf s. specialize (Hm s). unfold mbind, M_bind.
  destruct (m s) as [[[a|e] s1] out1]; cbn [snd] in *; [|exact Hm].
  specialize (Hf a s1). destruct (f a s1) as [[r s2] out2]. cbn [snd] in *.
  apply Forall_app. auto.
Qed.

Lemma emits_try {S A} P (m : M S A) (h : exn -> M S A) :
  emits P m -> (forall e, emits P (h e)) -> emits P (try_except m h).
Proof.
  intros Hm Hh s. specialize (Hm s). unfold try_except.
  destruct (m s) as [[[a|e] s1] out1]; cbn [snd] in *; [exact Hm|].
  specialize (Hh e s1). destruct (h e s1) as [[r s2] out2]. cbn [snd] in *.
  apply Forall_app. auto.
Qed.

Lemma emits_lift {V A} P (m : IO A) : emits P m -> emits P (lift (V := V) m).
Proof.
  intros Hm s. specialize (Hm s.2). unfold lift. now destruct (m s.2) as [[r n] out].
Qed.

Lemma emits_run_local {V A} P (init : V) (m : Local V A) :
  emits P m -> emits P (run_local init m).
Proof.
  intros Hm n. specialize (Hm (init, n)). unfold run_local.
  now destruct (m (init, n)) as [[r s] out].
Qed.

Lemma emits_modify {V} P (f : V -> V) : emits P (modify_local f).
Proof. intros s. constructor. Qed.

Lemma emits_emit P (e : event) : P e -> emits P (emit e).
Proof. intros He s. now repeat constructor. Qed.

Lemma emits_item {S} P (d : dict) (k : string) : emits (S := S) P (item d k).
Proof. unfold item. destruct (d !! k); [apply emits_ret | apply emits_raise]. Qed.

Lemma emits_index {S} P (xs : list str) (i : nat) : emits (S := S) P (index xs i).
Proof. unfold index. destruct (xs !! i); [apply emits_ret | apply emits_raise]. Qed.

Lemma emits_for_each {S A} P (xs : list A) (body : A -> M S unit) :
  (forall x, emits P (body x)) -> emits P (for_each xs body).
Proof.
  intros Hbody. induction xs as [|x xs IH]; cbn [for_each].
  - apply emits_ret.
  - apply emits_bind; auto.
Qed.

(** The steps of a computation that emit nothing, or only lines. *)
Ltac emits_go :=
  repeat lazymatch goal with
  | |- emits _ (mbind _ _) => apply emits_bind; [|intros]
  | |- emits _ (lift _) => apply emits_lift
  | |- emits _ (print _) => apply emits_emit; first [exact I | assumption | auto]
  | |- emits _ (mret _) => apply emits_ret
  | |- emits _ (raise _) => apply emits_raise
  | |- emits _ (modify_local _) => apply emits_modify
  | |- emits _ (set_info _ _) => apply emits_modify
  | |- emits _ (try_except _ _) => apply emits_try; [|intros]
  | |- emits _ (run_local _ _) => apply emits_run_local
  | |- emits _ (item _ _) => apply emits_item
  | |- emits _ (index _ _) => apply emits_index
  | |- emits _ (for_each _ _) => apply emits_for_each; intros
  | |- emits _ (if ?c then _ else _) => destruct c
  | |- emits _ (match ?x with _ => _ end) => destruct x
  end.

Section Emits.

(** A property of events that every printed line and every HEAD request
    of [validate_url] has. *)
Variable P : event -> Prop.
Hypothesis P_printed : forall line, P (Printed line).
Hypothesis P_head : forall u, P (Sent (head_request u)).

Lemma send_emits world r : P (Sent r) -> emits P (send world r).
Proof. intros Hr n. unfold send. cbn [snd]. now repeat constructor. Qed.

Lemma raise_for_status_emits response : emits P (raise_for_status response).
Proof. unfold raise_for_status. emits_go. Qed.

Lemma validate_url_emits world u : emits P (validate_url world u).
Proof. unfold validate_url. emits_go. apply send_emits, P_head. Qed.

Lemma scan_elements_emits els : emits P (scan_elements els).
Proof. induction els as [|e els IH]; cbn [scan_elements]; emits_go; exact IH. Qed.

Lemma method_1_emits soup : emits P (method_1 soup).
Proof. unfold method_1. emits_go. apply scan_elements_emits. Qed.

Lemma method_2_emits lib soup : emits P (method_2 lib soup).
Proof. unfold method_2. emits_go. Qed.

Lemma probe_links_emits lib world u links : emits P (probe_links lib world u links).
Proof.
  induction links as [|l links IH]; cbn [probe_links]; emits_go;
    first [exact IH | apply validate_url_emits].
Qed.

Lemma method_3_emits lib world u soup : emits P (method_3 lib world u soup).
Proof. apply probe_links_emits. Qed.

End Emits.

(** ** The regular expressions *)

Lemma last_or_cons prev x xs : last_or prev (x :: xs) = last_or (Some x) xs.
Proof.
  unfold last_or. destruct xs as [|y xs]; [reflexivity|]. rewrite last_cons_cons.
  destruct (last (y :: xs)) eqn:Hlast; [reflexivity|]. now apply last_None in Hlast.
Qed.

Lemma many_sound cs lo rest n prev s m :
  many cs lo rest n prev s = Some m ->
  exists xs s' k,
    s = xs ++ s' /\ Forall (fun x => set_mem cs x = true) xs /\
    (lo <= n + length xs)%nat /\ rest (last_or prev xs) s' = Some k /\
    m = (length xs + k)%nat.
Proof.
  revert n prev m. induction s as [|x s IH]; intros n prev m; cbn [many].
  - destruct (lo <=? n)%nat eqn:Hlo; [|discriminate]. intros Hrest.
    exists [], [], m. apply Nat.leb_le in Hlo. repeat split; auto. simpl. lia.
  - assert (Hstop : (if (lo <=? n)%nat then rest prev (x :: s) else None) = Some m ->
                    exists xs s' k, x :: s = xs ++ s' /\
                      Forall (fun x => set_mem cs x = true) xs /\
                      (lo <= n + length xs)%nat /\ rest (last_or prev xs) s' = Some k /\
                      m = (length xs + k)%nat).
    { destruct (lo <=? n)%nat eqn:Hlo; [|discriminate]. intros Hrest.
      exists [], (x :: s), m. apply Nat.leb_le in Hlo. repeat split; auto. simpl. lia. }
    destruct (set_mem cs x) eqn:Hx; [|exact Hstop].
    destruct (many cs lo rest (S n) (Some x) s) as [k|] eqn:Hmany; [|exact Hstop].
    intros [= <-]. apply IH in Hmany as (xs & s' & j & -> & Hall & Hlo & Hrest & ->).
    exists (x :: xs), s', j. rewrite last_or_cons. repeat split; auto.
    simpl. lia.
Qed.

Lemma many_complete cs lo rest n prev xs s' :
  Forall (fun x => set_mem cs x = true) xs ->
  (lo <= n + length xs)%nat ->
  is_Some (rest (last_or prev xs) s') ->
  is_Some (many cs lo rest n prev (xs ++ s')).
Proof.
  intros Hall. revert n prev. induction Hall as [|x xs Hx Hall IH]; intros n prev Hlo Hrest.
  - simpl in *. rewrite Nat.add_0_r in Hlo. apply Nat.leb_le in Hlo.
    destruct s' as [|y s']; cbn [many]; rewrite Hlo; [exact Hrest|].
    destruct (set_mem cs y); [|exact Hrest].
    destruct (many cs lo rest (S n) (Some y) s'); [eauto | exact Hrest].
  - cbn [app many]. rewrite Hx. rewrite last_or_cons in Hrest.
    destruct (IH (S n) (Some x)) as [k Hk]; [simpl in Hlo; lia | exact Hrest |].
    now rewrite Hk.
Qed.

Lemma match_here_sound uw re prev s k :
  match_here uw re prev s = Some k -> matches uw re prev s k.
Proof.
  revert prev s k. induction re as [|a re IH]; intros prev s k; cbn [match_here].
  - intros [= <-]. constructor.
  - destruct a as [| | |c|cs|cs lo].
    + destruct prev; [discriminate|]. intros H. constructor. auto.
    + destruct (at_eol s) eqn:He; [|discriminate]. intros H. constructor; auto.
    + destruct (xorb _ _) eqn:Hb; [|discriminate]. intros H. constructor; auto.
    + destruct s as [|x s]; [discriminate|]. destruct (N.eqb_spec x (ch c)) as [->|]; [|discriminate].
      destruct (match_here uw re (Some (ch c)) s) as [j|] eqn:Hj; [|discriminate].
      intros [= <-]. constructor. auto.
    + destruct s as [|x s]; [discriminate|]. destruct (set_mem cs x) eqn:Hx; [|discriminate].
      destruct (match_here uw re (Some x) s) as [j|] eqn:Hj; [|discriminate].
      intros [= <-]. constructor; auto.
    + intros H. apply many_sound in H as (xs & s' & j & -> & Hall & Hlo & Hrest & ->).
      constructor; auto.
Qed.

Lemma match_here_complete uw re prev s k :
  matches uw re prev s k -> is_Some (match_here uw re prev s).
Proof.
  induction 1 as [prev s|re s k _ IH|re prev s k He _ IH|re prev s k Hb _ IH
                 |re prev c s k _ IH|re prev cs x s k Hx _ IH
                 |re prev cs lo xs s k Hall Hlo _ IH]; cbn [match_here].
  - eauto.
  - exact IH.
  - now rewrite He.
  - now rewrite Hb.
  - rewrite N.eqb_refl. destruct IH as [j ->]. eauto.
  - rewrite Hx. destruct IH as [j ->]. eauto.
  - apply many_complete; auto.
Qed.

(** ** The shape of an accepted e-mail *)

Lemma bool_decide_in_cons (c x : N) (l : list N) :
  bool_decide (c ∈ x :: l) = (c =? x) || bool_decide (c ∈ l).
Proof.
  destruct (N.eqb_spec c x) as [->|Hne]; cbn [orb].
  - apply bool_decide_eq_true. apply list_elem_of_here.
  - apply bool_decide_ext. rewrite elem_of_cons. tauto.
Qed.

Lemma bool_decide_in_nil (c : N) : bool_decide (c ∈ @nil N) = false.
Proof. apply bool_decide_eq_false. apply not_elem_of_nil. Qed.

Lemma set_mem_local c :
  set_mem (Charset false [Range "a" "z"; Range "A" "Z"; Range "0" "9";
                          Single "."; Single "_"; Single "%"; Single "+"; Single "-"]) c
  = local_char c.
Proof.
  unfold set_mem, local_char, is_letter, is_digit, is_lower, is_upper.
  cbn [negated items existsb item_mem xorb].
  change (lit "._%+-") with [ch "."; ch "_"; ch "%"; ch "+"; ch "-"].
  rewrite !bool_decide_in_cons, bool_decide_in_nil.
  change (ch "a") with 97; change (ch "z") with 122; change (ch "A") with 65;
  change (ch "Z") with 90; change (ch "0") with 48; change (ch "9") with 57.
  btauto.
Qed.

Lemma set_mem_domain c :
  set_mem (Charset false [Range "a" "z"; Range "A" "Z"; Range "0" "9";
                          Single "."; Single "-"]) c
  = domain_char c.
Proof.
  unfold set_mem, domain_char, is_letter, is_digit, is_lower, is_upper.
  cbn [negated items existsb item_mem xorb].
  change (lit ".-") with [ch "."; ch "-"].
  rewrite !bool_decide_in_cons, bool_decide_in_nil.
  change (ch "a") with 97; change (ch "z") with 122; change (ch "A") with 65;
  change (ch "Z") with 90; change (ch "0") with 48; change (ch "9") with 57.
  btauto.
Qed.

Lemma set_mem_letters c : set_mem letters c = is_letter c.
Proof.
  unfold set_mem, letters, is_letter, is_lower, is_upper.
  cbn [negated items existsb item_mem xorb].
  change (ch "a") with 97; change (ch "z") with 122; change (ch "A") with 65;
  change (ch "Z") with 90.
  btauto.
Qed.

Lemma at_eol_cases (s : str) : at_eol s = true <-> s = [] \/ s = [10].
Proof.
  destruct s as [|c [|d s]]; cbn [at_eol].
  - split; auto.
  - rewrite N.eqb_eq. split; [intros ->; auto | intros [H|[= ->]]; [discriminate | reflexivity]].
  - split; [discriminate | intros [H|H]; discriminate].
Qed.

Lemma matches_email_format uw s k :
  matches uw email_format_pattern None s k ->
  exists local domain tld rest,
    s = local ++ ch "@" :: domain ++ ch "." :: tld ++ rest /\
    (1 <= length local)%nat /\ Forall (fun c => local_char c = true) local /\
    (1 <= length domain)%nat /\ Forall (fun c => domain_char c = true) domain /\
    (2 <= length tld)%nat /\ Forall (fun c => is_letter c = true) tld /\
    at_eol rest = true.
Proof.
  unfold email_format_pattern. intros H.
  inversion H as [| ? ? ? H1 | | | | |]; subst; clear H.
  inversion H1 as [| | | | | | ? ? ? ? local s1 k1 Hlocal Hn1 H2]; subst; clear H1.
  inversion H2 as [| | | | ? ? ? s2 k2 H3 | |]; subst; clear H2.
  inversion H3 as [| | | | | | ? ? ? ? domain s3 k3 Hdomain Hn2 H4]; subst; clear H3.
  inversion H4 as [| | | | ? ? ? s4 k4 H5 | |]; subst; clear H4.
  inversion H5 as [| | | | | | ? ? ? ? tld s5 k5 Htld Hn3 H6]; subst; clear H5.
  inversion H6 as [| | ? ? ? ? Heol H7 | | | |]; subst; clear H6.
  exists local, domain, tld, s5. repeat split; auto.
  - eapply Forall_impl; [exact Hlocal|]. intros c Hc. now rewrite <- set_mem_local.
  - eapply Forall_impl; [exact Hdomain|]. intros c Hc. now rewrite <- set_mem_domain.
  - eapply Forall_impl; [exact Htld|]. intros c Hc. now rewrite <- set_mem_letters.
Qed.

Lemma email_format_matches uw local domain tld rest :
  (1 <= length local)%nat -> Forall (fun c => local_char c = true) local ->
  (1 <= length domain)%nat -> Forall (fun c => domain_char c = true) domain ->
  (2 <= length tld)%nat -> Forall (fun c => is_letter c = true) tld ->
  at_eol rest = true ->
  exists k, matches uw email_format_pattern None
                    (local ++ ch "@" :: domain ++ ch "." :: tld ++ rest) k.
Proof.
  intros Hn1 Hlocal Hn2 Hdomain Hn3 Htld Heol. eexists. unfold email_format_pattern.
  apply matches_bol, matches_many; [|exact Hn1|].
  { eapply Forall_impl; [exact Hlocal|]. intros c Hc. now rewrite set_mem_local. }
  apply matches_chr, matches_many; [|exact Hn2|].
  { eapply Forall_impl; [exact Hdomain|]. intros c Hc. now rewrite set_mem_domain. }
  apply matches_chr, matches_many; [|exact Hn3|].
  { eapply Forall_impl; [exact Htld|]. intros c Hc. now rewrite set_mem_letters. }
  apply matches_eol; [exact Heol | apply matches_nil].
Qed.

Lemma length_pos_nonempty {A} (l : list A) : (1 <= length l)%nat <-> l <> [].
Proof. destruct l; simpl; split; (done || lia). Qed.

Lemma validate_email_format_iff lib (s : str) :
  validate_email_format lib s = true <->
  email_shape s \/ exists s', s = s' ++ [10] /\ email_shape s'.
Proof.
  unfold validate_email_format, re_match. rewrite bool_decide_eq_true. split.
  - intros [k Hk]. apply match_here_sound, matches_email_format in Hk
      as (local & domain & tld & rest & -> & Hn1 & Hl & Hn2 & Hd & Hn3 & Ht & Heol).
    apply length_pos_nonempty in Hn1, Hn2.
    apply at_eol_cases in Heol as [-> | ->].
    + left. exists local, domain, tld. rewrite app_nil_r. auto 10.
    + right. exists (local ++ ch "@" :: domain ++ ch "." :: tld). split.
      * rewrite <- !app_assoc. cbn [app]. rewrite <- !app_assoc. reflexivity.
      * exists local, domain, tld. auto 10.
  - intros [(local & domain & tld & -> & Hn1 & Hl & Hn2 & Hd & Hn3 & Ht)
           | (s' & -> & local & domain & tld & -> & Hn1 & Hl & Hn2 & Hd & Hn3 & Ht)];
      apply length_pos_nonempty in Hn1, Hn2.
    + destruct (email_format_matches (unicode_word lib) local domain tld []
                  Hn1 Hl Hn2 Hd Hn3 Ht eq_refl) as [k Hk].
      rewrite app_nil_r in Hk. exact (match_here_complete _ _ _ _ _ Hk).
    + destruct (email_format_matches (unicode_word lib) local domain tld [10]
                  Hn1 Hl Hn2 Hd Hn3 Ht eq_refl) as [k Hk].
      rewrite <- !app_assoc. cbn [app]. rewrite <- !app_assoc.
      exact (match_here_complete _ _ _ _ _ Hk).
Qed.

(** ** The e-mail format check *)

Example format_accepts_subdomains lib :
  validate_email_format lib (lit "a.b@sub.example.co") = true.
Proof. reflexivity. Qed.

Example format_rejects_no_at lib : validate_email_format lib (lit "not-an-email") = false.
Proof. reflexivity. Qed.

Example format_rejects_no_tld lib : validate_email_format lib (lit "x@y") = false.
Proof. reflexivity. Qed.

Lemma newline_is_no_letter (before tld : str) :
  Forall (fun c => is_upper c = true \/ is_lower c = true) tld ->
  (2 <= length tld)%nat ->
  forall s, s ++ [10] = before ++ ch "." :: tld -> False.
Proof.
  intros Hletters Hlen s Heq.
  destruct (last tld) as [c|] eqn:Hlast.
  - apply last_Some in Hlast as [tld' ->].
    change (before ++ ch "." :: tld' ++ [c]) with (before ++ (ch "." :: tld') ++ [c]) in Heq.
    rewrite app_assoc in Heq. apply app_inj_tail in Heq as [_ <-].
    apply Forall_app in Hletters as [_ Hc]. inversion Hc as [|? ? [H|H] _]; discriminate.
  - apply last_None in Hlast as ->. simpl in Hlen. lia.
Qed.

Lemma email_shape_has_at (s : str) : email_shape s -> ch "@" ∈ s.
Proof.
  intros (local & domain & tld & -> & _). rewrite elem_of_app, elem_of_cons. auto.
Qed.

Lemma email_shape_ends_in_tld (s : str) : email_shape s -> ends_in_tld s.
Proof.
  intros (local & domain & tld & -> & _ & _ & _ & _ & Hlen & Hletters).
  exists (local ++ ch "@" :: domain), tld. split; [|split; [exact Hlen|]].
  - rewrite <- app_assoc. reflexivity.
  - eapply Forall_impl; [exact Hletters|]. intros c Hc. unfold is_letter in Hc.
    apply orb_true_iff in Hc. tauto.
Qed.

(** X1.  The format check accepts exactly the texts of the shape
    [local@domain.tld] and those texts followed by one newline.  So it
    rejects every text without an [@], and every text that does not end,
    the one newline apart, in a dot and two or more letters. *)
Theorem validate_email_format_accepts lib :
  (forall s, validate_email_format lib s = true <->
             email_shape s \/ exists s', s = s' ++ [10] /\ email_shape s') /\
  (forall s, ch "@" ∉ s -> validate_email_format lib s = false) /\
  (forall s, ~ ends_in_tld s -> (forall s', s = s' ++ [10] -> ~ ends_in_tld s') ->
             validate_email_format lib s = false).
Proof.
  split; [apply validate_email_format_iff|]. split.
  - intros s Hat. apply not_true_is_false. intros Hv.
    apply validate_email_format_iff in Hv as [Hs | (s' & -> & Hs)];
      apply email_shape_has_at in Hs; apply Hat; [exact Hs|].
    rewrite elem_of_app. auto.
  - intros s Hno Hno' . apply not_true_is_false. intros Hv.
    apply validate_email_format_iff in Hv as [Hs | (s' & -> & Hs)];
      apply email_shape_ends_in_tld in Hs; [exact (Hno Hs) | exact (Hno' s' eq_refl Hs)].
Qed.

(** X8.  The pattern of Method 2 and the pattern of the format check differ:
    the former writes the letters of the last segment as [[A-Z|a-z]], a
    class that holds the bar, so it finds [x@y.a|b] in a page, an address
    the format check then rejects. *)
Example email_pattern_admits_bar lib :
  re_findall (unicode_word lib) email_pattern (lit "mail x@y.a|b now") = [lit "x@y.a|b"] /\
  validate_email_format lib (lit "x@y.a|b") = false.
Proof. split; reflexivity. Qed.

(** The check at a text that ends in a newline: "a@b.co" followed by a
    newline does not end in a dot and two or more letters, and the check
    accepts it, since [$] also matches just before a newline that ends the
    text. *)
Example format_accepts_trailing_newline lib :
  validate_email_format lib (lit "a@b.co" ++ [10]) = true /\
  ~ ends_in_tld (lit "a@b.co" ++ [10]).
Proof.
  split; [reflexivity|].
  intros (before & tld & Heq & Hlen & Hletters).
  exact (newline_is_no_letter before tld Hletters Hlen _ Heq).
Qed.

Lemma email_shape_has_tld_segment (s after : str) :
  email_shape s -> has_tld_segment (s ++ after).
Proof.
  intros (local & domain & tld & -> & _ & _ & _ & _ & Hlen & Hletters).
  exists (local ++ ch "@" :: domain), tld, after. split; [|split; assumption].
  rewrite <- !app_assoc. cbn [app]. rewrite <- !app_assoc. reflexivity.
Qed.

Lemma accepted_has_at_and_tld lib (s : str) :
  validate_email_format lib s = true -> ch "@" ∈ s /\ has_tld_segment s.
Proof.
  intros Hv. apply validate_email_format_iff in Hv as [Hs | (s' & -> & Hs)].
  - split; [now apply email_shape_has_at|].
    rewrite <- (app_nil_r s). now apply email_shape_has_tld_segment.
  - split; [|now apply email_shape_has_tld_segment].
    rewrite elem_of_app. left. now apply email_shape_has_at.
Qed.

(** C1.  The format check returns true on every text of the shape
    [local@domain.tld] (a local part of letters, digits and [._%+-], an
    [@], a domain, a dot and two or more letters), and false on every text
    that has no [@] and on every text that has no dot followed by two or
    more letters.  So "a.b@sub.example.co" is accepted, and "not-an-email"
    (no [@]) and "x@y" (no dot) are rejected. *)
Theorem format_check_accepts_shape_rejects_rest lib :
  (forall s, email_shape s -> validate_email_format lib s = true) /\
  (forall s, (ch "@" ∉ s) \/ ~ has_tld_segment s -> validate_email_format lib s = false) /\
  (email_shape (lit "a.b@sub.example.co") /\
   validate_email_format lib (lit "a.b@sub.example.co") = true) /\
  ((ch "@" ∉ lit "not-an-email") /\ validate_email_format lib (lit "not-an-email") = false) /\
  (~ has_tld_segment (lit "x@y") /\ validate_email_format lib (lit "x@y") = false).
Proof.
  assert (Hrej : forall s, (ch "@" ∉ s) \/ ~ has_tld_segment s ->
                           validate_email_format lib s = false).
  { intros s Hs. apply not_true_is_false. intros Hv.
    apply accepted_has_at_and_tld in Hv as [Hat Htld]. tauto. }
  assert (Hno_at : ch "@" ∉ lit "not-an-email").
  { intros Hin. apply list_elem_of_In in Hin. vm_compute in Hin.
    repeat (destruct Hin as [Hin|Hin]; [discriminate|]). exact Hin. }
  assert (Hno_tld : ~ has_tld_segment (lit "x@y")).
  { intros (before & tld & after & Heq & _).
    assert (Hin : ch "." ∈ lit "x@y") by (rewrite Heq, elem_of_app, elem_of_cons; auto).
    apply list_elem_of_In in Hin. vm_compute in Hin.
    repeat (destruct Hin as [Hin|Hin]; [discriminate|]). exact Hin. }
  split; [|split; [exact Hrej|split; [|split]]].
  - intros s Hs. apply validate_email_format_iff. now left.
  - split; [|reflexivity].
    exists (lit "a.b"), (lit "sub.example"), (lit "co").
    split; [reflexivity|]. split; [discriminate|]. split; [repeat constructor|].
    split; [discriminate|]. split; [repeat constructor|].
    split; [change (2 <= 2)%nat; lia | repeat constructor].
  - split; [exact Hno_at | apply Hrej; now left].
  - split; [exact Hno_tld | apply Hrej; now right].
Qed.

(** ** URL liveness *)

Lemma validate_url_returns (world : World) (u : str) (n : nat) :
  exists b : bool, validate_url world u n = (Ok b, S n, [Sent (head_request u)]).
Proof.
  unfold validate_url, send. fold (head_request u). mstep.
  destruct (http world n (head_request u)) as [response|e]; eauto.
Qed.

(** C6.  [validate_url] always returns a boolean (no exception leaves it),
    after exactly one HEAD request; the boolean is true if and only if the
    request completed with status 200, 301 or 302, so it is false whenever
    the request raised.  [n] is the number of requests sent before. *)
Theorem validate_url_true_iff (world : World) (u : str) (n : nat) :
  exists b : bool,
    validate_url world u n = (Ok b, S n, [Sent (head_request u)]) /\
    (b = true <->
     exists response,
       http world n (head_request u) = Ok response /\
       (status_code response = 200 \/ status_code response = 301
        \/ status_code response = 302)%Z).
Proof.
  unfold validate_url, send. fold (head_request u). mstep.
  destruct (http world n (head_request u)) as [response|e] eqn:Hq.
  - eexists. split; [reflexivity|]. rewrite bool_decide_eq_true.
    split.
    + intros Hin. exists response. split; [reflexivity|].
      rewrite !elem_of_cons, elem_of_nil in Hin. tauto.
    + intros (r & [= <-] & H). rewrite !elem_of_cons, elem_of_nil. tauto.
  - exists false. split; [reflexivity|].
    split; [discriminate | intros (r & [=] & _)].
Qed.

(** ** The location step of the card parser *)

Lemma startswith_nil (s : str) : startswith s [] = true.
Proof. now destruct s. Qed.

Lemma startswith_single (x c : N) (s : str) : startswith (x :: s) [c] = (x =? c).
Proof. simpl. now rewrite startswith_nil, andb_true_r. Qed.

Lemma contains_single (s : str) (c : N) : contains s [c] = true <-> c ∈ s.
Proof.
  induction s as [|x s IH].
  - split; [discriminate | intros H; inversion H].
  - cbn [contains]. rewrite startswith_single, orb_true_iff, IH, elem_of_cons, N.eqb_eq.
    split; intros [H|H]; auto.
Qed.

Lemma split_from_none (c : N) (b cur : str) :
  c ∉ b -> split_from [c] b cur 0 = [reverse cur ++ b].
Proof.
  revert cur. induction b as [|x b IH]; intros cur Hb.
  - simpl. now rewrite app_nil_r.
  - rewrite not_elem_of_cons in Hb. destruct Hb as [Hx Hb].
    cbn [split_from]. rewrite startswith_single.
    destruct (N.eqb_spec x c) as [->|_]; [done|].
    rewrite (IH _ Hb), reverse_cons, <- app_assoc. reflexivity.
Qed.

Lemma split_from_first (c : N) (a b cur : str) :
  c ∉ a ->
  split_from [c] (a ++ c :: b) cur 0 = (reverse cur ++ a) :: split_from [c] b [] 0.
Proof.
  revert cur. induction a as [|x a IH]; intros cur Ha.
  - cbn [app split_from]. now rewrite startswith_single, N.eqb_refl, app_nil_r.
  - rewrite not_elem_of_cons in Ha. destruct Ha as [Hx Ha].
    cbn [app split_from]. rewrite startswith_single.
    destruct (N.eqb_spec x c) as [->|_]; [done|].
    rewrite (IH _ Ha), reverse_cons, <- app_assoc. reflexivity.
Qed.

Lemma split_from_nonempty (sep s cur : str) (skip : nat) : split_from sep s cur skip <> [].
Proof.
  revert cur skip. induction s as [|x s IH]; intros cur skip; [done|].
  cbn [split_from]. destruct skip; [destruct (startswith (x :: s) sep)|];
    [done | apply IH | apply IH].
Qed.

Lemma last_cons_nonempty {A} (x : A) (l : list A) : l <> [] -> last (x :: l) = last l.
Proof. now destruct l. Qed.

Lemma split_from_last (c : N) (a b cur : str) :
  c ∉ b -> last (split_from [c] (a ++ c :: b) cur 0) = Some b.
Proof.
  intros Hb. revert cur. induction a as [|x a IH]; intros cur.
  - cbn [app split_from]. rewrite startswith_single, N.eqb_refl.
    cbn [length Nat.pred]. now rewrite (split_from_none _ _ _ Hb).
  - cbn [app split_from]. rewrite startswith_single. destruct (x =? c).
    + rewrite last_cons_nonempty by apply split_from_nonempty. apply IH.
    + apply IH.
Qed.

(** C5, as stated, fails: the venue text "Boston, MA" has a comma, yet for
    a venue element that holds it without a link the city is the whole
    text, not "Boston", and the state is "N/A", not "MA". *)
Lemma venue_without_link_is_not_split :
  venue_link bare_venue_card = Some {| venue_a := None; venue_text := lit "Boston, MA" |} /\
  contains (lit "Boston, MA") (lit ",") = true /\
  card_location bare_venue_card ∅ !! "city" = Some (lit "Boston, MA") /\
  card_location bare_venue_card ∅ !! "state" = Some NA /\
  lit "Boston, MA" <> lit "Boston" /\
  NA <> lit "MA".
Proof. repeat split; try reflexivity; discriminate. Qed.

(** C5, amended.  The location step splits the text of the link of the
    venue element.  When that text has a comma, the city is the segment
    before the first comma, stripped, and the state is the segment after
    the last comma, stripped; when it has none, the city is the whole text
    and the state is "N/A".  A venue element without a link gives its own
    text as the city, not split even when it has a comma, and "N/A" as the
    state.  When the card has no venue element, both are "N/A". *)
Theorem card_location_city_state (card : Card) (event_data : dict) :
  match venue_link card with
  | None =>
    card_location card event_data !! "city" = Some NA /\
    card_location card event_data !! "state" = Some NA
  | Some venue =>
    match venue_a venue with
    | Some location =>
      (forall a b, location = a ++ ch "," :: b -> ch "," ∉ a ->
                   card_location card event_data !! "city" = Some (strip a)) /\
      (forall a b, location = a ++ ch "," :: b -> ch "," ∉ b ->
                   card_location card event_data !! "state" = Some (strip b)) /\
      (ch "," ∉ location ->
       card_location card event_data !! "city" = Some location /\
       card_location card event_data !! "state" = Some NA)
    | None =>
      card_location card event_data !! "city" = Some (venue_text venue) /\
      card_location card event_data !! "state" = Some NA
    end
  end.
Proof.
  unfold card_location.
  destruct (venue_link card) as [venue|]; [destruct (venue_a venue) as [location|]|].
  - assert (Hcomma : forall a b, location = a ++ ch "," :: b ->
                                 contains location (lit ",") = true).
    { intros a b ->. apply contains_single. rewrite elem_of_app, elem_of_cons. auto. }
    split; [|split].
    + intros a b Hloc Ha. rewrite (Hcomma _ _ Hloc). subst location.
      rewrite lookup_insert_ne by done. rewrite lookup_insert_eq.
      unfold split. change (lit ",") with [ch ","]. now rewrite split_from_first.
    + intros a b Hloc Hb. rewrite (Hcomma _ _ Hloc). subst location.
      rewrite lookup_insert_eq. unfold split. change (lit ",") with [ch ","].
      rewrite split_from_last by done. simpl.
      destruct (list_elem_of_split_l (a ++ ch "," :: b) (ch ",")) as (a' & b' & Heq & Ha').
      { rewrite elem_of_app, elem_of_cons. auto. }
      rewrite Heq, split_from_first by done. simpl.
      pose proof (split_from_nonempty [ch ","] b' [] 0) as Hne.
      destruct (split_from [ch ","] b' [] 0); [done|].
      rewrite bool_decide_eq_true_2; [reflexivity | simpl; lia].
    + intros Hno. destruct (contains location (lit ",")) eqn:Hc.
      * apply contains_single in Hc. done.
      * rewrite lookup_insert_ne by done. rewrite !lookup_insert_eq. done.
  - rewrite lookup_insert_ne by done. rewrite !lookup_insert_eq. done.
  - rewrite lookup_insert_ne by done. rewrite !lookup_insert_eq. done.
Qed.

(** ** The fields of a card *)

Lemma card_fields_link lib card :
  card_fields lib card !! "event_link" = Some (default NA (card_link lib card)).
Proof.
  unfold card_fields, card_location, card_link_and_name, card_link.
  destruct (venue_link card) as [venue|]; [destruct (venue_a venue) as [location|];
    [destruct (contains location (lit ","))|]|];
  (destruct (clickable_td card) as [oc|]; [cbn; destruct (onclick_url lib oc)|]);
  cbn; now simplify_map_eq.
Qed.

Lemma card_fields_name lib card :
  card_fields lib card !! "event_name"
  = Some (match card_link lib card with
          | Some event_link => name_of_link lib event_link
          | None => NA
          end).
Proof.
  unfold card_fields, card_location, card_link_and_name, card_link.
  destruct (venue_link card) as [venue|]; [destruct (venue_a venue) as [location|];
    [destruct (contains location (lit ","))|]|];
  (destruct (clickable_td card) as [oc|]; [cbn; destruct (onclick_url lib oc)|]);
  cbn; now simplify_map_eq.
Qed.

Lemma card_fields_city lib card : is_Some (card_fields lib card !! "city").
Proof.
  unfold card_fields, card_location.
  destruct (venue_link card) as [venue|]; [destruct (venue_a venue) as [location|];
    [destruct (contains location (lit ","))|]|];
  simplify_map_eq; eauto.
Qed.

Lemma card_fields_state lib card : is_Some (card_fields lib card !! "state").
Proof.
  unfold card_fields, card_location.
  destruct (venue_link card) as [venue|]; [destruct (venue_a venue) as [location|];
    [destruct (contains location (lit ","))|]|];
  simplify_map_eq; eauto.
Qed.

Lemma card_fields_nonempty lib card : card_fields lib card <> ∅.
Proof.
  intros Hempty. pose proof (card_fields_city lib card) as [city Hcity].
  rewrite Hempty in Hcity. now rewrite lookup_empty in Hcity.
Qed.

(** ** The link of a card *)

Lemma search_from_sound uw re prev s i j k :
  search_from uw re prev s i = Some (j, k) ->
  exists before rest,
    s = before ++ rest /\ j = (i + length before)%nat /\
    match_here uw re (last_or prev before) rest = Some k.
Proof.
  revert prev i. induction s as [|x s IH]; intros prev i; cbn [search_from].
  - destruct (match_here uw re prev []) as [k0|] eqn:Hm; [|discriminate].
    intros [= <- <-]. exists [], []. repeat split; [cbn; lia | exact Hm].
  - destruct (match_here uw re prev (x :: s)) as [k0|] eqn:Hm.
    + intros [= <- <-]. exists [], (x :: s). repeat split; [cbn; lia | exact Hm].
    + intros Hs. apply IH in Hs as (before & rest & -> & -> & Hrest).
      exists (x :: before), rest. rewrite last_or_cons. repeat split; [cbn; lia | exact Hrest].
Qed.

Lemma search_from_complete uw re prev before rest i :
  is_Some (match_here uw re (last_or prev before) rest) ->
  is_Some (search_from uw re prev (before ++ rest) i).
Proof.
  revert prev i. induction before as [|x before IH]; intros prev i Hm.
  - cbn [app]. change (last_or prev []) with prev in Hm. destruct Hm as [k Hk].
    destruct rest; cbn [search_from]; rewrite Hk; eauto.
  - cbn [app search_from]. destruct (match_here uw re prev (x :: before ++ rest)); [eauto|].
    apply IH. now rewrite last_or_cons in Hm.
Qed.

Lemma set_mem_quote c : set_mem (Charset false quotes) c = true <-> is_quote c.
Proof.
  unfold set_mem, quotes, is_quote. cbn [negated items existsb item_mem xorb].
  rewrite !orb_true_iff, !N.eqb_eq. intuition discriminate.
Qed.

Lemma set_mem_no_quote c : set_mem (Charset true quotes) c = true <-> ~ is_quote c.
Proof.
  unfold set_mem, quotes, is_quote. cbn [negated items existsb item_mem].
  destruct (N.eqb_spec c (ch "'")), (N.eqb_spec c (ch dquote)); cbn;
    intuition discriminate.
Qed.

Lemma matches_window_open uw prev s k :
  matches uw window_open_pattern prev s k ->
  exists q1 u q2 after,
    s = lit "window.open(" ++ q1 :: u ++ q2 :: after /\ k = (14 + length u)%nat /\
    is_quote q1 /\ is_quote q2 /\ u <> [] /\ Forall (fun c => ~ is_quote c) u.
Proof.
  unfold window_open_pattern. intros H.
  repeat match goal with
  | H : matches _ (Chr _ :: _) _ _ _ |- _ => inversion H; subst; clear H
  end.
  match goal with H : matches _ (OneOf _ :: _) _ _ _ |- _ =>
    inversion H as [| | | | |? ? ? q1 ? ? Hq1 H1|]; subst; clear H end.
  inversion H1 as [| | | | | |? ? ? ? u ? ? Hu Hlen H2]; subst; clear H1.
  inversion H2 as [| | | | |? ? ? q2 after ? Hq2 H3|]; subst; clear H2.
  inversion H3; subst; clear H3.
  exists q1, u, q2, after. repeat split.
  - lia.
  - now apply set_mem_quote.
  - now apply set_mem_quote.
  - intros ->. cbn in Hlen. lia.
  - eapply Forall_impl; [exact Hu|]. intros c Hc. now apply set_mem_no_quote.
Qed.

Lemma window_open_matches uw prev q1 u q2 after :
  is_quote q1 -> is_quote q2 -> u <> [] -> Forall (fun c => ~ is_quote c) u ->
  exists k, matches uw window_open_pattern prev
                    (lit "window.open(" ++ q1 :: u ++ q2 :: after) k.
Proof.
  intros Hq1 Hq2 Hne Hu. eexists. unfold window_open_pattern.
  change (lit "window.open(") with
    [ch "w"; ch "i"; ch "n"; ch "d"; ch "o"; ch "w"; ch "."; ch "o"; ch "p"; ch "e";
     ch "n"; ch "("].
  cbn [app]. do 12 apply matches_chr.
  apply matches_oneof; [now apply set_mem_quote|].
  apply matches_many.
  - eapply Forall_impl; [exact Hu|]. intros c Hc. now apply set_mem_no_quote.
  - destruct u; [done | cbn; lia].
  - apply matches_oneof; [now apply set_mem_quote | apply matches_nil].
Qed.

Lemma onclick_url_sound lib oc u : onclick_url lib oc = Some u -> opens_window oc u.
Proof.
  unfold onclick_url, re_search.
  destruct (search_from (unicode_word lib) window_open_pattern None oc 0)
    as [[start len]|] eqn:Hs; [|discriminate].
  intros [= <-]. apply search_from_sound in Hs as (before & rest & -> & -> & Hm).
  apply match_here_sound, matches_window_open in Hm
    as (q1 & link & q2 & after & -> & -> & Hq1 & Hq2 & Hne & Hlink).
  replace (before ++ lit "window.open(" ++ q1 :: link ++ q2 :: after)
    with ((before ++ lit "window.open(" ++ [q1]) ++ link ++ q2 :: after)
    by (now rewrite <- !app_assoc).
  rewrite drop_app_length'
    by (rewrite length_app; change (length (lit "window.open(" ++ [q1])) with 13%nat; lia).
  replace (14 + length link - 14)%nat with (length link) by lia. rewrite take_app_length.
  exists before, q1, q2, after. rewrite <- !app_assoc. auto.
Qed.

Lemma onclick_url_complete lib oc u : opens_window oc u -> is_Some (onclick_url lib oc).
Proof.
  intros (before & q1 & q2 & after & -> & Hq1 & Hq2 & Hne & Hu).
  destruct (window_open_matches (unicode_word lib) (last_or None before) q1 u q2 after
              Hq1 Hq2 Hne Hu) as [k Hk].
  apply match_here_complete in Hk.
  apply (search_from_complete _ _ None before _ 0%nat) in Hk as [[start len] Hs].
  unfold onclick_url, re_search. rewrite Hs. eauto.
Qed.

(** X13.  The link the card parser reads from a click handler is the text
    between the quotes of a [window.open(] in it: it is not empty and holds
    no quote.  The parser finds a link if and only if the handler holds
    such a [window.open(]; the link field of the card is the link found,
    and "N/A" when none is found.  So the link field is "N/A" exactly when
    the card has no click handler, the handler has no such call, or the
    text found between the quotes is itself "N/A". *)
Theorem onclick_url_is_the_quoted_link lib (card : Card) :
  (forall onclick_content u,
     onclick_url lib onclick_content = Some u -> opens_window onclick_content u) /\
  (forall onclick_content u,
     opens_window onclick_content u -> is_Some (onclick_url lib onclick_content)) /\
  (card_link lib card = None <->
   forall onclick_content u,
     clickable_td card = Some onclick_content -> ~ opens_window onclick_content u) /\
  card_fields lib card !! "event_link" = Some (default NA (card_link lib card)) /\
  (card_fields lib card !! "event_link" = Some NA <->
   clickable_td card = None \/
   (exists onclick_content,
      clickable_td card = Some onclick_content /\
      forall u, ~ opens_window onclick_content u) \/
   card_link lib card = Some NA).
Proof.
  assert (Hnone : card_link lib card = None <->
                  forall onclick_content u,
                    clickable_td card = Some onclick_content ->
                    ~ opens_window onclick_content u).
  { unfold card_link.
    destruct (clickable_td card) as [oc|]; cbn; [|split; [intros; done | done]].
    split.
    - intros Hnone oc' u [= <-] Hopens.
      apply onclick_url_complete with (lib := lib) in Hopens as [u' Hu']. congruence.
    - intros Hno. destruct (onclick_url lib oc) as [u|] eqn:Hu; [|reflexivity].
      destruct (Hno oc u eq_refl). now apply onclick_url_sound with (lib := lib). }
  split; [apply onclick_url_sound|]. split; [apply onclick_url_complete|].
  split; [exact Hnone|]. split; [apply card_fields_link|].
  rewrite card_fields_link. split.
  - destruct (card_link lib card) as [link|] eqn:Hlink; cbn [default from_option id].
    + intros [= ->]. right. now right.
    + intros _. destruct (clickable_td card) as [oc|] eqn:Hoc; [right; left | now left].
      exists oc. split; [reflexivity|]. intros u. apply Hnone; [reflexivity|]. reflexivity.
  - intros [Hno | [(oc & Hoc & Hno) | ->]]; [| |reflexivity].
    + unfold card_link. now rewrite Hno.
    + replace (card_link lib card) with (@None str); [reflexivity|].
      symmetry. apply Hnone. intros oc' u. rewrite Hoc. intros [= <-]. apply Hno.
Qed.

(** ** The name of an event *)

Lemma hyphens_here_none uw prev x s :
  x <> ch "-" -> match_here uw hyphens_pattern prev (x :: s) = None.
Proof.
  intros Hx. cbn [hyphens_pattern match_here many].
  unfold set_mem. cbn [negated items existsb item_mem xorb].
  destruct (N.eqb_spec x (ch "-")); [done|]. reflexivity.
Qed.

Lemma many_hyphens uw n prev j t :
  (1 <= n + j)%nat -> head t <> Some (ch "-") ->
  many (Charset false [Single "-"]) 1 (match_here uw []) n prev (replicate j (ch "-") ++ t)
  = Some j.
Proof.
  revert n prev. induction j as [|j IH]; intros n prev Hn Ht.
  - cbn [replicate app]. assert (Hlo : (1 <=? n)%nat = true) by (apply Nat.leb_le; lia).
    destruct t as [|x t]; cbn [many match_here]; rewrite Hlo; [reflexivity|].
    unfold set_mem. cbn [negated items existsb item_mem xorb].
    destruct (N.eqb_spec x (ch "-")) as [->|]; [done|]. reflexivity.
  - cbn [replicate app many]. unfold set_mem at 1. cbn [negated items existsb item_mem xorb].
    rewrite N.eqb_refl. cbn [orb]. rewrite IH by (done || lia). reflexivity.
Qed.

Lemma sub_from_skip uw re repl prev xs t :
  exists prev', sub_from uw re repl prev (xs ++ t) (length xs) = sub_from uw re repl prev' t 0.
Proof.
  revert prev. induction xs as [|x xs IH]; intros prev; [eauto|].
  cbn [app length sub_from]. apply IH.
Qed.

Lemma many_prev cs lo (rest : option N -> str -> option nat) n p q s :
  (forall p q s, rest p s = rest q s) ->
  many cs lo rest n p s = many cs lo rest n q s.
Proof.
  intros Hrest. revert n p q. induction s as [|x s IH]; intros n p q; cbn [many].
  - now rewrite (Hrest p q).
  - now rewrite (Hrest p q).
Qed.

Lemma hyphens_here_prev uw prev prev' s :
  match_here uw hyphens_pattern prev s = match_here uw hyphens_pattern prev' s.
Proof. cbn [hyphens_pattern match_here]. now apply many_prev. Qed.

Lemma sub_hyphens_prev uw repl prev prev' s skip :
  sub_from uw hyphens_pattern repl prev s skip = sub_from uw hyphens_pattern repl prev' s skip.
Proof.
  revert prev prev' skip. induction s as [|x s IH]; intros prev prev' skip; [reflexivity|].
  cbn [sub_from]. destruct skip; [|apply IH].
  rewrite (hyphens_here_prev uw prev prev').
  destruct (match_here uw hyphens_pattern prev' (x :: s)) as [[|k]|];
    [f_equal; apply IH | f_equal; apply IH | f_equal; apply IH].
Qed.

Lemma sub_hyphens_skip uw repl prev xs t :
  sub_from uw hyphens_pattern repl prev (xs ++ t) (length xs)
  = sub_from uw hyphens_pattern repl None t 0.
Proof.
  destruct (sub_from_skip uw hyphens_pattern repl prev xs t) as [prev' ->].
  apply sub_hyphens_prev.
Qed.

(** A text without hyphens stays as it is. *)
Lemma sub_hyphens_word uw repl (w t : str) :
  ch "-" ∉ w ->
  sub_from uw hyphens_pattern repl None (w ++ t) 0
  = w ++ sub_from uw hyphens_pattern repl None t 0.
Proof.
  induction w as [|x w IH]; intros Hw; [reflexivity|].
  rewrite not_elem_of_cons in Hw. destruct Hw as [Hx Hw].
  cbn [app sub_from]. rewrite hyphens_here_none by auto.
  rewrite (sub_hyphens_prev uw repl (Some x) None). now rewrite IH.
Qed.

(** A run of hyphens becomes the replacement. *)
Lemma sub_hyphens_run uw repl (k : nat) (t : str) :
  head t <> Some (ch "-") ->
  sub_from uw hyphens_pattern repl None (replicate (S k) (ch "-") ++ t) 0
  = repl ++ sub_from uw hyphens_pattern repl None t 0.
Proof.
  intros Ht.
  assert (Hm : match_here uw hyphens_pattern None (replicate (S k) (ch "-") ++ t)
               = Some (S k)).
  { cbn [hyphens_pattern match_here]. apply (many_hyphens uw); [lia | exact Ht]. }
  cbn [replicate app] in *. cbn [sub_from]. rewrite Hm. f_equal.
  rewrite <- (length_replicate k (ch "-")) at 2. apply sub_hyphens_skip.
Qed.

Lemma lower_bounds c : is_lower c = true <-> 97 <= c <= 122.
Proof. unfold is_lower. rewrite andb_true_iff, !N.leb_le. tauto. Qed.

Lemma lower_not_space c : is_lower c = true -> is_space c = false.
Proof.
  rewrite lower_bounds. intros Hc. apply not_true_is_false. unfold is_space.
  rewrite !orb_true_iff, !andb_true_iff, !N.leb_le, !N.eqb_eq. lia.
Qed.

Lemma upper_not_space c : is_lower c = true -> is_space (to_upper c) = false.
Proof.
  intros Hl. unfold to_upper. rewrite Hl. apply lower_bounds in Hl.
  apply not_true_is_false. unfold is_space.
  rewrite !orb_true_iff, !andb_true_iff, !N.leb_le, !N.eqb_eq. lia.
Qed.

Lemma lower_not_upper c : is_lower c = true -> is_upper c = false.
Proof.
  rewrite lower_bounds. intros Hc. apply not_true_is_false. unfold is_upper.
  rewrite andb_true_iff, !N.leb_le. lia.
Qed.

Lemma lower_is_ascii c : is_lower c = true -> is_ascii c = true.
Proof. rewrite lower_bounds. intros Hc. unfold is_ascii. apply N.ltb_lt. lia. Qed.

Lemma upper_is_ascii c : is_lower c = true -> is_ascii (to_upper c) = true.
Proof.
  intros Hl. unfold to_upper. rewrite Hl. apply lower_bounds in Hl.
  unfold is_ascii. apply N.ltb_lt. lia.
Qed.

Lemma lower_no_char (x : N) (w : str) :
  is_lower x = false -> Forall (fun c => is_lower c = true) w -> x ∉ w.
Proof.
  intros Hx Hw Hin. rewrite Forall_forall in Hw. specialize (Hw x Hin). congruence.
Qed.

Lemma lower_word_head w t : lower_word w -> head (w ++ t) <> Some (ch "-").
Proof.
  intros [Hne Hw]. destruct w as [|c w]; [done|]. cbn [app head].
  intros [= ->]. now apply Forall_cons_1 in Hw as [Hc _].
Qed.

(** [re.sub(r'-+', ' ', s)] on hyphenated words. *)
Lemma sub_hyphenated uw w more :
  lower_word w -> Forall (fun kw => lower_word kw.2) more ->
  re_sub uw hyphens_pattern (lit " ") (hyphenated w more)
  = w ++ concat ((fun kw => ch " " :: kw.2) <$> more).
Proof.
  intros [_ Hw] Hmore. unfold re_sub, hyphenated.
  rewrite sub_hyphens_word by (now apply lower_no_char). f_equal.
  clear w Hw. induction Hmore as [|[k w] more Hw Hmore IH]; [reflexivity|].
  cbn [fmap list_fmap concat fst snd] in *. rewrite <- app_assoc.
  rewrite sub_hyphens_run by (now apply lower_word_head).
  rewrite sub_hyphens_word by (apply lower_no_char; [reflexivity | apply Hw]).
  change (lit " " ++ ?x) with (ch " " :: x). cbn [app]. f_equal. f_equal.
  exact IH.
Qed.

Lemma title_from_lower (w t : str) :
  Forall (fun c => is_lower c = true) w ->
  title_from true (w ++ t) = w ++ title_from true t.
Proof.
  induction 1 as [|c w Hc Hw IH]; [reflexivity|].
  cbn [app title_from]. rewrite Hc, orb_true_r. unfold to_lower.
  rewrite (lower_not_upper c Hc). now rewrite IH.
Qed.

Lemma title_from_word (w t : str) :
  lower_word w -> title_from false (w ++ t) = capitalized w ++ title_from true t.
Proof.
  intros [Hne Hw]. destruct w as [|c w]; [done|]. apply Forall_cons_1 in Hw as [Hc Hw].
  cbn [app title_from capitalized]. rewrite Hc, orb_true_r. f_equal.
  now apply title_from_lower.
Qed.

(** [.title()] on lowercase words with single spaces. *)
Lemma title_from_words w more :
  lower_word w -> Forall (fun kw => lower_word kw.2) more ->
  title_from false (w ++ concat ((fun kw => ch " " :: kw.2) <$> more)) = spaced w more.
Proof.
  intros Hw Hmore. unfold spaced. rewrite title_from_word by done. f_equal.
  clear w Hw. induction Hmore as [|[k w] more Hw Hmore IH]; [reflexivity|].
  cbn [fmap list_fmap concat fst snd app] in *.
  change (title_from true (ch " " :: ?x)) with (ch " " :: title_from false x).
  rewrite title_from_word by done. now rewrite IH.
Qed.

Lemma lower_all_ascii (w : str) :
  Forall (fun c => is_lower c = true) w -> forallb is_ascii w = true.
Proof.
  induction 1 as [|c w Hc Hw IH]; [reflexivity|].
  cbn [forallb]. now rewrite (lower_is_ascii c Hc).
Qed.

Lemma words_are_ascii w (more : list (nat * str)) :
  lower_word w -> Forall (fun kw => lower_word kw.2) more ->
  forallb is_ascii (w ++ concat ((fun kw => ch " " :: kw.2) <$> more)) = true.
Proof.
  intros [_ Hw] Hmore. rewrite forallb_app, (lower_all_ascii w Hw).
  induction Hmore as [|[k v] more [_ Hv] Hmore IH]; [reflexivity|].
  cbn [fmap list_fmap concat fst snd app forallb] in *.
  rewrite forallb_app, (lower_all_ascii v Hv). exact IH.
Qed.

Lemma lstrip_id s : (forall c, head s = Some c -> is_space c = false) -> lstrip s = s.
Proof. destruct s as [|c s]; [done|]. intros H. cbn [lstrip]. now rewrite (H c). Qed.

Lemma strip_id s :
  (forall c, head s = Some c -> is_space c = false) ->
  (forall c, last s = Some c -> is_space c = false) -> strip s = s.
Proof.
  intros Hh Hl. unfold strip. rewrite (lstrip_id s Hh).
  rewrite lstrip_id; [apply reverse_involutive|].
  intros c Hc. apply Hl. now rewrite <- head_reverse.
Qed.

Lemma last_capitalized w c :
  lower_word w -> last (capitalized w) = Some c -> is_space c = false.
Proof.
  intros [Hne Hw]. destruct w as [|x w]; [done|]. apply Forall_cons_1 in Hw as [Hx Hw].
  cbn [capitalized]. destruct w as [|y w].
  - intros [= <-]. now apply upper_not_space.
  - rewrite last_cons_nonempty by done. intros Hc. apply lower_not_space.
    rewrite Forall_forall in Hw. apply Hw. now apply last_Some_elem_of.
Qed.

Lemma spaced_ends w more c :
  lower_word w -> Forall (fun kw => lower_word kw.2) more ->
  last (spaced w more) = Some c -> is_space c = false.
Proof.
  intros Hw Hmore. revert w Hw. unfold spaced.
  induction Hmore as [|[k v] more Hv Hmore IH]; intros w Hw.
  - cbn [fmap list_fmap concat]. rewrite app_nil_r. now apply last_capitalized.
  - cbn [fmap list_fmap concat fst snd app] in *.
    rewrite last_app_cons, last_cons_nonempty.
    + now apply IH.
    + destruct Hv as [Hne _]. destruct v; [done|]. discriminate.
Qed.

Lemma spaced_begins w more c :
  lower_word w -> head (spaced w more) = Some c -> is_space c = false.
Proof.
  intros [Hne Hw]. destruct w as [|x w]; [done|]. apply Forall_cons_1 in Hw as [Hx _].
  cbn. intros [= <-]. now apply upper_not_space.
Qed.

Lemma slash_not_hyphenated w more :
  lower_word w -> Forall (fun kw => lower_word kw.2) more -> ch "/" ∉ hyphenated w more.
Proof.
  intros [_ Hw] Hmore. unfold hyphenated. rewrite not_elem_of_app. split.
  - now apply lower_no_char.
  - induction Hmore as [|[k v] more [_ Hv] Hmore IH]; [apply not_elem_of_nil|].
    cbn [fmap list_fmap concat fst snd]. rewrite !not_elem_of_app. repeat split.
    + intros Hin. apply elem_of_replicate in Hin as [Hin _]. discriminate.
    + now apply lower_no_char.
    + exact IH.
Qed.

(** X18.  The event name is read off the link: the text after the last
    slash, each run of hyphens turned into one space, each word
    capitalized.  For a link whose last segment is words of lowercase
    letters joined by runs of hyphens, the name is the words capitalized
    with single spaces between them; a link that ends in a slash gives
    the empty name. *)
Theorem event_name_is_the_last_segment (lib : Library) (before w : str) (more : list (nat * str)) :
  lower_word w -> Forall (fun kw => lower_word kw.2) more ->
  name_of_link lib (before ++ lit "/" ++ hyphenated w more) = spaced w more /\
  name_of_link lib (before ++ lit "/") = [].
Proof.
  intros Hw Hmore. unfold name_of_link, split. split.
  - change (lit "/" ++ ?x) with (ch "/" :: x). change (lit "/") with [ch "/"].
    rewrite split_from_last by (now apply slash_not_hyphenated). cbn [default id].
    rewrite sub_hyphenated by done. unfold title.
    rewrite words_are_ascii by done. rewrite title_from_words by done.
    apply strip_id; intros c Hc.
    + exact (spaced_begins _ _ _ Hw Hc).
    + exact (spaced_ends _ _ _ Hw Hmore Hc).
  - change (lit "/") with [ch "/"].
    rewrite (split_from_last (ch "/") before [] []) by apply not_elem_of_nil.
    reflexivity.
Qed.

(** ** Method 1 in general *)

Lemma scan_elements_first els d n :
  (forall link, first_qualifying els = Some link -> is_Some (link_name link)) ->
  scan_elements els (d, n)
  = (Ok (), (from_option (record_link d) d (first_qualifying els), n), []).
Proof.
  induction els as [|element rest IH]; intros Hname; [reflexivity|].
  cbn [scan_elements first_qualifying] in *.
  destruct (find_a element) as [link|]; [|now apply IH].
  unfold qualifies in *.
  destruct (truthy (a_href link)); cbn [andb] in *; [|now apply IH].
  destruct (negb _ && contains _ _); [|now apply IH].
  destruct (Hname link eq_refl) as [name Hn].
  unfold record_link. cbn [from_option]. rewrite Hn. cbn [default from_option id].
  unfold link_name in Hn.
  destruct (a_text link) as [|c t] eqn:Ht.
  - destruct (split (default [] (a_href link)) (lit "//") !! 1%nat) as [after|] eqn:Ha;
      [|discriminate].
    cbn in Hn.
    unfold set_info, modify_local, index, mbind, M_bind, mret, M_ret.
    rewrite Ha. cbn. rewrite Hn. reflexivity.
  - injection Hn as <-. reflexivity.
Qed.

Lemma for_each_pure {V A} (xs : list A) (body : A -> Local V unit) (step : V -> A -> V) v n :
  (forall x, x ∈ xs -> forall v n, body x (v, n) = (Ok (), (step v x, n), [])) ->
  for_each xs body (v, n) = (Ok (), (foldl step v xs, n), []).
Proof.
  revert v. induction xs as [|x xs IH]; intros v Hbody; [reflexivity|].
  cbn [for_each foldl]. unfold mbind, M_bind.
  rewrite (Hbody x (list_elem_of_here _ _)).
  rewrite IH by (intros y Hy; apply Hbody; now apply list_elem_of_further).
  reflexivity.
Qed.

Lemma foldl_bind {A B C} (step : C -> B -> C) (f : A -> list B) (xs : list A) (c : C) :
  foldl step c (xs ≫= f) = foldl (fun c x => foldl step c (f x)) c xs.
Proof.
  revert c. induction xs as [|x xs IH]; intros c; [reflexivity|].
  cbn [mbind list_bind foldl]. change (list_bind _ _ f xs) with (xs ≫= f).
  now rewrite foldl_app, IH.
Qed.

Lemma foldl_omap {A B C} (step : C -> B -> C) (f : A -> option B) (xs : list A) (c : C) :
  foldl step c (omap f xs) = foldl (fun c x => from_option (step c) c (f x)) c xs.
Proof.
  revert c. induction xs as [|x xs IH]; intros c; [reflexivity|].
  cbn [omap list_omap foldl].
  destruct (f x); cbn [foldl from_option]; apply IH.
Qed.

(** Method 1 records every hit, in the order of the scans: each one
    overwrites what the one before it set. *)
Lemma method_1_folds_hits soup d n :
  (forall link, link ∈ hits soup -> is_Some (link_name link)) ->
  method_1 soup (d, n) = (Ok (), (foldl record_link d (hits soup), n), []).
Proof.
  intros Hname. unfold hits in *. rewrite foldl_omap. unfold scanned in *.
  rewrite foldl_bind. unfold method_1.
  apply (for_each_pure (V := dict)). intros keyword Hk v m.
  rewrite foldl_bind.
  apply (for_each_pure (V := dict)). intros section Hs v' m'.
  assert (Hin : forall els, parent_next_siblings section = Some els ->
                forall link, first_qualifying (take 3 els) = Some link ->
                is_Some (link_name link)).
  { intros els Hels link Hl. apply Hname.
    apply list_elem_of_omap. exists (take 3 els). split; [|exact Hl].
    apply list_elem_of_bind. exists keyword. split; [|exact Hk].
    apply list_elem_of_bind. exists section. split; [|exact Hs].
    rewrite Hels. apply list_elem_of_here. }
  destruct (parent_next_siblings section) as [els|]; [|reflexivity].
  cbn [foldl]. apply scan_elements_first. intros link. now apply Hin.
Qed.

(** X2.  Method 1 goes on after a link qualified: every later keyword and
    section is still scanned, and the website, the name and the status
    that remain are those of the last scan that found a link.  (It is
    assumed that no link found has an empty text and a target without
    [//], for which the source raises.) *)
Theorem method_1_last_hit_remains soup d n before link :
  hits soup = before ++ [link] ->
  (forall l, l ∈ hits soup -> is_Some (link_name l)) ->
  exists d',
    method_1 soup (d, n) = (Ok (), (d', n), [])
    /\ d' !! "organiser_website" = Some (default [] (a_href link))
    /\ d' !! "organiser_name" = link_name link
    /\ d' !! "verification_status" = Some (lit "Website_Found").
Proof.
  intros Hhits Hname. eexists. split; [now apply method_1_folds_hits|].
  destruct (Hname link) as [name Hn]; [rewrite Hhits; apply elem_of_app; right; apply list_elem_of_here|].
  rewrite Hhits, foldl_app. cbn [foldl]. unfold record_link. rewrite Hn.
  now simplify_map_eq.
Qed.

Lemma for_each_bind {S A B} (xs : list A) (f : A -> list B) (body : B -> M S unit) s :
  for_each (xs ≫= f) body s = for_each xs (fun x => for_each (f x) body) s.
Proof.
  revert s. induction xs as [|x xs IH]; intros s; [reflexivity|].
  cbn [mbind list_bind for_each]. change (list_bind _ _ f xs) with (xs ≫= f).
  rewrite for_each_app. unfold mbind at 1 3. unfold M_bind.
  destruct (for_each (f x) body s) as [[[[]|e] s1] out1]; [|reflexivity].
  now rewrite IH.
Qed.

Lemma for_each_ext {S A} (xs : list A) (body body' : A -> M S unit) s :
  (forall x s, body x s = body' x s) -> for_each xs body s = for_each xs body' s.
Proof.
  intros Hext. revert s. induction xs as [|x xs IH]; intros s; [reflexivity|].
  cbn [for_each]. unfold mbind, M_bind. rewrite Hext.
  destruct (body' x s) as [[[[]|e] s1] out1]; [|reflexivity]. now rewrite IH.
Qed.

(** Method 1 is one loop over the sibling lists it scans. *)
Lemma method_1_scans soup s : method_1 soup s = for_each (scanned soup) scan_elements s.
Proof.
  unfold method_1, scanned. rewrite for_each_bind. apply for_each_ext. intros keyword s1.
  rewrite for_each_bind. apply for_each_ext. intros section s2.
  destruct (parent_next_siblings section) as [siblings|]; cbn [for_each]; [|reflexivity].
  unfold mbind, M_bind, mret, M_ret.
  destruct (scan_elements (take 3 siblings) s2) as [[[[]|e] s3] out3]; [|reflexivity].
  now rewrite app_nil_r.
Qed.

Lemma split_first_is_some (s sep : str) : is_Some (split s sep !! 0%nat).
Proof.
  unfold split. pose proof (split_from_nonempty sep s [] 0) as Hne.
  destruct (split_from sep s [] 0); [done | eauto].
Qed.

(** The link has no text and its target no [//]: the name expression of
    Method 1 raises on it. *)
Lemma link_name_none link :
  link_name link = None ->
  a_text link = [] /\ split (default [] (a_href link)) (lit "//") !! 1%nat = None.
Proof.
  unfold link_name. destruct (a_text link); [|discriminate].
  destruct (split _ (lit "//") !! 1%nat) as [after|]; [|auto].
  cbn. destruct (split_first_is_some after (lit "/")) as [host ->]. discriminate.
Qed.

Lemma scan_elements_raises els d n link :
  first_qualifying els = Some link -> link_name link = None ->
  scan_elements els (d, n)
  = (Raise (Exn OtherException (lit "list index out of range")),
     (<["organiser_website" := default [] (a_href link)]> d, n), []).
Proof.
  intros Hfirst Hname. apply link_name_none in Hname as [Htext Hsplit].
  induction els as [|element rest IH]; [discriminate|].
  cbn [scan_elements first_qualifying] in *.
  destruct (find_a element) as [link'|]; [|now apply IH].
  unfold qualifies in *.
  destruct (truthy (a_href link')); cbn [andb] in *; [|now apply IH].
  destruct (negb _ && contains _ _); [|now apply IH].
  injection Hfirst as ->. rewrite Htext.
  unfold set_info, modify_local, index, mbind, M_bind, mret, M_ret, raise.
  cbn [fst snd]. rewrite Hsplit. reflexivity.
Qed.

Lemma method_1_raises soup d n before els later link :
  scanned soup = before ++ els :: later ->
  (forall l, l ∈ omap first_qualifying before -> is_Some (link_name l)) ->
  first_qualifying els = Some link -> link_name link = None ->
  method_1 soup (d, n)
  = (Raise (Exn OtherException (lit "list index out of range")),
     (<["organiser_website" := default [] (a_href link)]> (after_scans before d), n), []).
Proof.
  intros Hscanned Hnames Hfirst Hname.
  rewrite method_1_scans, Hscanned, for_each_app. unfold after_scans. rewrite foldl_omap.
  unfold mbind at 1. unfold M_bind.
  rewrite (for_each_pure before scan_elements
             (fun d els => from_option (record_link d) d (first_qualifying els))).
  - cbn [for_each]. unfold mbind, M_bind.
    now rewrite (scan_elements_raises els _ n link Hfirst Hname).
  - intros els' Hin v m. apply scan_elements_first. intros l Hl. apply Hnames.
    apply list_elem_of_omap. eauto.
Qed.

(** ** Method 1 on a page with two mentions *)

(** C2, where the code departs from it.  On this page the first link that
    qualifies is the Acme link, found for the first keyword; the loops go
    on after it, the keyword "hosted by" finds the hotel link, and the
    website and the name that remain are the hotel's: [break] leaves only
    the loop over the siblings. *)
Theorem method_1_keeps_the_last_link (n : nat) :
  exists organizer_info,
    method_1 two_mentions_page (initial_organizer_info, n)
    = (Ok (), (organizer_info, n), []) /\
    organizer_info !! "organiser_website" = Some (lit "https://www.grand-hotel.example") /\
    organizer_info !! "organiser_name" = Some (lit "Grand Hotel") /\
    organizer_info !! "verification_status" = Some (lit "Website_Found") /\
    exists after_first,
      scan_elements [ {| find_a := Some acme_link |}; {| find_a := None |};
                      {| find_a := Some hotel_link |} ] (initial_organizer_info, n)
      = (Ok (), (after_first, n), []) /\
      after_first !! "organiser_website" = Some (lit "https://www.acme-events.example") /\
      after_first !! "organiser_name" = Some (lit "Acme Events").
Proof.
  exists (method_1 two_mentions_page (initial_organizer_info, n)).1.2.1.
  repeat split; try (vm_compute; reflexivity).
  exists (scan_elements [ {| find_a := Some acme_link |}; {| find_a := None |};
                          {| find_a := Some hotel_link |} ]
                        (initial_organizer_info, n)).1.2.1.
  repeat split; vm_compute; reflexivity.
Qed.

(** ** Method 2: the e-mail scan *)

Lemma not_social_false lib e : mentions_social lib e -> not_social lib e = false.
Proof.
  intros (x & Hin & Hc). unfold not_social. apply negb_false_iff.
  apply existsb_exists. exists x. split; [now apply list_elem_of_In | exact Hc].
Qed.

Lemma not_social_true lib e : ~ mentions_social lib e -> not_social lib e = true.
Proof.
  intros Hno. unfold not_social. apply negb_true_iff.
  destruct (existsb _ _) eqn:Hex; [|reflexivity].
  apply existsb_exists in Hex as (x & Hin & Hc).
  destruct Hno. exists x. split; [now apply list_elem_of_In | exact Hc].
Qed.

Lemma filter_first_survivor lib (blocked rest : list str) (e : str) :
  Forall (mentions_social lib) blocked -> ~ mentions_social lib e ->
  List.filter (not_social lib) (blocked ++ e :: rest)
  = e :: List.filter (not_social lib) rest.
Proof.
  intros Hb He. induction Hb as [|b blocked Hb _ IH]; simpl.
  - now rewrite (not_social_true _ _ He).
  - now rewrite (not_social_false _ _ Hb).
Qed.

(** C3.  Method 2 runs the e-mail pattern over the whole markup
    ([str(soup)]).  When the matches, in the order found, are [blocked]
    followed by [e], where every match of [blocked] mentions a social
    fragment in its lowercased text and [e] does not, the organizer e-mail
    becomes [e] and the status becomes "Email_Found", whatever the fields
    held before (a status Method 1 set included); nothing else changes and
    nothing is emitted. *)
Theorem method_2_first_surviving_email
    lib (soup : Soup) (organizer_info : dict) (n : nat)
    (blocked rest : list str) (e : str) :
  re_findall (unicode_word lib) email_pattern (markup soup) = blocked ++ e :: rest ->
  Forall (mentions_social lib) blocked ->
  ~ mentions_social lib e ->
  method_2 lib soup (organizer_info, n)
  = (Ok (),
     (<["verification_status" := lit "Email_Found"]>
        (<["organiser_email" := e]> organizer_info), n),
     []).
Proof.
  intros Hfound Hblocked He. unfold method_2. rewrite Hfound.
  rewrite (filter_first_survivor _ _ _ _ Hblocked He).
  destruct (blocked ++ e :: rest) eqn:Hne; [now destruct blocked|].
  reflexivity.
Qed.

Lemma findall_from_sound uw re prev s skip e :
  e ∈ findall_from uw re prev s skip ->
  exists before rest k,
    s = before ++ rest /\ match_here uw re (last_or prev before) rest = Some k /\
    e = take k rest.
Proof.
  revert prev skip. induction s as [|x s IH]; intros prev skip.
  - destruct skip; cbn [findall_from]; [|intros H; inversion H].
    destruct (match_here uw re prev []) as [k|] eqn:Hm; [|intros H; inversion H].
    rewrite list_elem_of_singleton. intros ->. exists [], [], k. auto.
  - assert (Hlater : forall skip', e ∈ findall_from uw re (Some x) s skip' ->
              exists before rest k,
                x :: s = before ++ rest /\
                match_here uw re (last_or prev before) rest = Some k /\ e = take k rest).
    { intros skip' Hin. apply IH in Hin as (before & rest & k & -> & Hm & ->).
      exists (x :: before), rest, k. rewrite last_or_cons. auto. }
    destruct skip; cbn [findall_from]; [|apply Hlater].
    destruct (match_here uw re prev (x :: s)) as [k|] eqn:Hm; [|apply Hlater].
    rewrite elem_of_cons. intros [-> | Hin]; [|now apply Hlater in Hin].
    exists [], (x :: s), k. auto.
Qed.

Lemma set_mem_found_local c :
  set_mem (Charset false [Range "A" "Z"; Range "a" "z"; Range "0" "9";
                          Single "."; Single "_"; Single "%"; Single "+"; Single "-"]) c
  = local_char c.
Proof.
  unfold set_mem, local_char, is_letter, is_digit, is_lower, is_upper.
  cbn [negated items existsb item_mem xorb].
  change (lit "._%+-") with [ch "."; ch "_"; ch "%"; ch "+"; ch "-"].
  rewrite !bool_decide_in_cons, bool_decide_in_nil.
  change (ch "a") with 97; change (ch "z") with 122; change (ch "A") with 65;
  change (ch "Z") with 90; change (ch "0") with 48; change (ch "9") with 57.
  btauto.
Qed.

Lemma set_mem_found_domain c :
  set_mem (Charset false [Range "A" "Z"; Range "a" "z"; Range "0" "9";
                          Single "."; Single "-"]) c
  = domain_char c.
Proof.
  unfold set_mem, domain_char, is_letter, is_digit, is_lower, is_upper.
  cbn [negated items existsb item_mem xorb].
  change (lit ".-") with [ch "."; ch "-"].
  rewrite !bool_decide_in_cons, bool_decide_in_nil.
  change (ch "a") with 97; change (ch "z") with 122; change (ch "A") with 65;
  change (ch "Z") with 90; change (ch "0") with 48; change (ch "9") with 57.
  btauto.
Qed.

Lemma set_mem_found_tld c :
  set_mem (Charset false [Range "A" "Z"; Single "|"; Range "a" "z"]) c = tld_char c.
Proof.
  unfold set_mem, tld_char, is_letter, is_lower, is_upper.
  cbn [negated items existsb item_mem xorb].
  change (ch "a") with 97; change (ch "z") with 122; change (ch "A") with 65;
  change (ch "Z") with 90.
  btauto.
Qed.

Lemma matches_email_pattern uw prev s k :
  matches uw email_pattern prev s k -> found_shape (take k s).
Proof.
  unfold email_pattern. intros H.
  inversion H as [| | |? ? ? ? _ H1| | |]; subst; clear H.
  inversion H1 as [| | | | | |? ? ? ? local ? ? Hlocal Hn1 H2]; subst; clear H1.
  inversion H2 as [| | | |? ? ? ? ? H3| |]; subst; clear H2.
  inversion H3 as [| | | | | |? ? ? ? domain ? ? Hdomain Hn2 H4]; subst; clear H3.
  inversion H4 as [| | | |? ? ? ? ? H5| |]; subst; clear H4.
  inversion H5 as [| | | | | |? ? ? ? tld rest ? Htld Hn3 H6]; subst; clear H5.
  inversion H6 as [| | |? ? ? ? _ H7| | |]; subst; clear H6.
  inversion H7; subst; clear H7.
  match goal with |- found_shape (take ?n ?l) =>
    replace l with ((local ++ ch "@" :: domain ++ ch "." :: tld) ++ rest)
      by (rewrite <- !app_assoc; cbn [app]; now rewrite <- !app_assoc);
    replace n with (length (local ++ ch "@" :: domain ++ ch "." :: tld))
      by (rewrite !length_app; cbn [length]; rewrite !length_app; cbn [length]; lia)
  end.
  rewrite take_app_length. exists local, domain, tld. repeat split; auto.
  - intros ->. cbn in Hn1. lia.
  - eapply Forall_impl; [exact Hlocal|]. intros c Hc. now rewrite <- set_mem_found_local.
  - intros ->. cbn in Hn2. lia.
  - eapply Forall_impl; [exact Hdomain|]. intros c Hc. now rewrite <- set_mem_found_domain.
  - eapply Forall_impl; [exact Htld|]. intros c Hc. now rewrite <- set_mem_found_tld.
Qed.

Lemma found_emails_sound lib (text e : str) :
  e ∈ re_findall (unicode_word lib) email_pattern text ->
  found_shape e /\ exists before after, text = before ++ e ++ after.
Proof.
  intros Hin. apply findall_from_sound in Hin as (before & rest & k & -> & Hm & ->).
  split.
  - eapply matches_email_pattern, match_here_sound, Hm.
  - exists before, (drop k rest). now rewrite take_drop.
Qed.

(** X14.  Method 2 never raises and sends nothing.  It either leaves the
    organizer fields as they are, or sets the e-mail and the status
    "Email_Found" and nothing else; the e-mail it sets is a piece of the
    markup of the page, of the shape [local@domain.tld] (with letters or
    bars as the last segment), and its lowercased text holds none of the
    social fragments. *)
Theorem method_2_sets_a_found_email lib (soup : Soup) (organizer_info : dict) (n : nat) :
  method_2 lib soup (organizer_info, n) = (Ok (), (organizer_info, n), []) \/
  exists e,
    method_2 lib soup (organizer_info, n)
    = (Ok (),
       (<["verification_status" := lit "Email_Found"]>
          (<["organiser_email" := e]> organizer_info), n),
       []) /\
    found_shape e /\
    (exists before after, markup soup = before ++ e ++ after) /\
    ~ mentions_social lib e.
Proof.
  unfold method_2.
  destruct (re_findall (unicode_word lib) email_pattern (markup soup)) as [|e0 rest] eqn:Hfound;
    [now left|].
  destruct (List.filter (not_social lib) (e0 :: rest)) as [|e survivors] eqn:Hfilter;
    [now left|].
  right. exists e. split; [reflexivity|].
  assert (Hin : e ∈ List.filter (not_social lib) (e0 :: rest))
    by (rewrite Hfilter; apply list_elem_of_here).
  apply list_elem_of_In, List.filter_In in Hin as [Hin Hsocial].
  apply list_elem_of_In in Hin. rewrite <- Hfound in Hin.
  apply found_emails_sound in Hin as [Hshape Hpiece].
  split; [exact Hshape|]. split; [exact Hpiece|].
  intros Hm. apply not_social_false in Hm. congruence.
Qed.

(** ** Method 3: contact links *)

Lemma probe_links_pass lib world event_url link rest s :
  passed_over link ->
  probe_links lib world event_url (link :: rest) s = probe_links lib world event_url rest s.
Proof.
  intros [Hnone | (href & Hsome & Hmail)]; simpl.
  - now rewrite Hnone.
  - rewrite Hsome. simpl. rewrite Hmail. simpl. now rewrite andb_false_r.
Qed.

(** C10.  A contact link whose [href] is absent or starts with [mailto:]
    adds nothing to Method 3, wherever it stands among the links examined:
    the loop ends as it does without the link, with the same organizer
    fields and the same requests sent, so the link is never resolved, never
    probed, and sets neither the website nor the status. *)
Theorem probe_links_skips_mail_and_missing_href
    lib world event_url (before after : list Anchor) (link : Anchor) s :
  passed_over link ->
  probe_links lib world event_url (before ++ link :: after) s =
  probe_links lib world event_url (before ++ after) s.
Proof.
  intros Hpass. revert s. induction before as [|l before IH]; intros s.
  - apply probe_links_pass, Hpass.
  - simpl. destruct (truthy (a_href l) && negb (startswith (default [] (a_href l)) (lit "mailto:"))).
    + unfold mbind, M_bind.
      destruct (match urljoin lib event_url (default [] (a_href l)) with
                | Ok u => mret u | Raise e => raise e end s) as [[[full_url|e] s1] out1];
        [|reflexivity].
      destruct (lift (validate_url world full_url) s1) as [[[[]|e] s2] out2]; try reflexivity.
      now rewrite IH.
    + apply IH.
Qed.




(** ** A detail page that cannot be fetched *)

Lemma extract_fetch_error lib world config u headers n e :
  fetch_raises world n (get_request u headers) e ->
  extract_organizer_details lib world config u headers n
  = (Ok (error_info e), S n,
     [Printed (extracting_line u); Sent (get_request u headers);
      Printed (extract_error_line e)]).
Proof.
  intros Hfetch. unfold extract_organizer_details.
  fold (get_request u headers). fold (extracting_line u).
  unfold send, raise_for_status. mstep.
  destruct Hfetch as [Hq | (response & Hq & Herr)]; rewrite Hq; [|rewrite Herr];
    reflexivity.
Qed.

Lemma error_info_fields e :
  error_info e !! "organiser_name" = Some NA /\
  error_info e !! "organiser_website" = Some NA /\
  error_info e !! "organiser_email" = Some NA /\
  error_info e !! "contact_person" = Some NA /\
  error_info e !! "verification_status" = Some (lit "Error: " ++ take 50 (exn_msg e)).
Proof. unfold error_info, initial_organizer_info. repeat split; now simplify_map_eq. Qed.

(** ** The methods one after another *)

Lemma method_2_run lib soup d n :
  method_2 lib soup (d, n) = (Ok (), (after_method_2 lib soup d, n), []).
Proof.
  unfold method_2, after_method_2.
  destruct (re_findall (unicode_word lib) email_pattern (markup soup)); [reflexivity|].
  now destruct (List.filter _ _).
Qed.



(** ** A method that raises *)

(** X16.  The organizer fields are assigned in place, so what a method
    set before it raised stays.  When the page was fetched and the first
    link Method 1 finds without a text and without [//] in its target is
    [link], the name expression raises [IndexError] after the website was
    set: the function returns the status "Error: list index out of
    range" with [link]'s target as the website (and the name of an earlier
    scan, if there was one), Methods 2 and 3 are not run, and there is no
    pause. *)
Theorem method_1_error_keeps_the_website
    lib world config u headers n (response : Response)
    (before later : list (list Element)) (els : list Element) (link : Anchor) :
  http world n (get_request u headers) = Ok response ->
  http_error response = None ->
  scanned (content response) = before ++ els :: later ->
  (forall l, l ∈ omap first_qualifying before -> is_Some (link_name l)) ->
  first_qualifying els = Some link -> link_name link = None ->
  extract_organizer_details lib world config u headers n
  = (Ok (<["verification_status" := lit "Error: list index out of range"]>
           (<["organiser_website" := default [] (a_href link)]>
              (after_scans before initial_organizer_info))),
     S n,
     [Printed (extracting_line u); Sent (get_request u headers);
      Printed (extract_error_line index_error)]).
Proof.
  intros Hfetch Hstatus Hscanned Hnames Hfirst Hname.
  unfold extract_organizer_details. fold (get_request u headers). fold (extracting_line u).
  unfold send, raise_for_status. mstep. rewrite Hfetch. cbn [fst snd]. rewrite Hstatus.
  cbn [fst snd].
  rewrite (method_1_raises _ _ _ _ _ _ _ Hscanned Hnames Hfirst Hname).
  reflexivity.
Qed.

(** ** What the methods keep *)

Section Keeps.

(** A property of the organizer fields that setting one of them keeps. *)
Variable I : dict -> Prop.
Hypothesis I_insert : forall k v d, k ∈ organizer_keys -> I d -> I (<[k := v]> d).

Ltac keeps_go :=
  repeat lazymatch goal with
  | |- I (insert _ _ _) =>
    apply I_insert; [unfold organizer_keys; rewrite !elem_of_cons; tauto|]
  end;
  auto.

Lemma scan_elements_keeps els s :
  I s.1 -> wp (scan_elements els) s (fun _ s' _ => I s'.1).
Proof.
  intros Hs. induction els as [|element rest IH]; cbn [scan_elements].
  - now apply wp_ret.
  - destruct (find_a element) as [link|]; [|exact IH].
    destruct (truthy (a_href link)); [|exact IH].
    destruct (negb _ && contains _ _); [|exact IH].
    unfold set_info. wp_go.
    destruct (a_text link); wp_go; [|keeps_go].
    apply wp_index; intros; wp_go; [|keeps_go].
    apply wp_index; intros; wp_go; keeps_go.
Qed.

Lemma method_1_keeps soup s : I s.1 -> wp (method_1 soup) s (fun _ s' _ => I s'.1).
Proof.
  intros Hs. unfold method_1.
  apply (wp_for_each _ _ (fun s => I s.1)); [exact Hs|]. intros keyword s1 H1.
  apply (wp_for_each _ _ (fun s => I s.1)); [exact H1|]. intros section s2 H2.
  destruct (parent_next_siblings section); [now apply scan_elements_keeps | now apply wp_ret].
Qed.

Lemma method_2_keeps lib soup s : I s.1 -> wp (method_2 lib soup) s (fun _ s' _ => I s'.1).
Proof.
  intros Hs. unfold method_2, set_info.
  destruct (re_findall _ _ _); [now apply wp_ret|].
  destruct (List.filter _ _); wp_go; keeps_go.
Qed.

Lemma probe_links_keeps lib world u links s :
  I s.1 -> wp (probe_links lib world u links) s (fun _ s' _ => I s'.1).
Proof.
  revert s. induction links as [|link rest IH]; intros s Hs; cbn [probe_links].
  - now apply wp_ret.
  - destruct (truthy (a_href link) && _); [|now apply IH].
    unfold set_info. wp_go.
    destruct (urljoin lib u _) as [full_url|e]; wp_go; [|exact Hs].
    apply wp_any. intros [[]|e] n1 out1; wp_go; keeps_go.
Qed.

(** [extract_organizer_details] returns, and what it returns has every
    property the initial fields have and its assignments keep. *)
Lemma extract_keeps lib world config u headers n :
  I initial_organizer_info ->
  wp (extract_organizer_details lib world config u headers) n
     (fun r _ _ => exists info, r = Ok info /\ I info).
Proof.
  intros Hinit. unfold extract_organizer_details. wp_go.
  apply wp_run_local. wp_go.
  apply wp_any. intros [response|e] n1 out1; wp_go; [|eexists; split; [reflexivity | keeps_go]].
  apply wp_any. intros [[]|e] n2 out2; wp_go; [|eexists; split; [reflexivity | keeps_go]].
  eapply wp_mono; [apply method_1_keeps, Hinit|].
  intros [[]|e] s1 _ H1; wp_go; [|eexists; split; [reflexivity | keeps_go]].
  eapply wp_mono; [apply method_2_keeps, H1|].
  intros [[]|e] s2 _ H2; wp_go; [|eexists; split; [reflexivity | keeps_go]].
  eapply wp_mono; [apply probe_links_keeps, H2|].
  intros [[]|e] s3 _ H3; wp_go; [|eexists; split; [reflexivity | keeps_go]].
  apply wp_emit. wp_go. eauto.
Qed.

End Keeps.

(** ** The pause of the organizer extractor *)

Lemma run_methods_quiet lib world u soup : emits quiet (run_methods lib world u soup).
Proof.
  unfold run_methods.
  apply emits_bind; [apply method_1_emits; intros; exact I | intros _].
  apply emits_bind; [apply method_2_emits; intros; exact I | intros _].
  apply method_3_emits; intros; exact I.
Qed.

(** The extractor on a page that was fetched: the methods, then the pause
    when they returned, or the handler when one of them raised. *)
Lemma extract_after_fetch lib world config u headers n response :
  http world n (get_request u headers) = Ok response ->
  http_error response = None ->
  extract_organizer_details lib world config u headers n
  = match run_methods lib world u (content response) (initial_organizer_info, S n) with
    | (Ok _, (info, n'), out) =>
      (Ok info, n',
       [Printed (extracting_line u); Sent (get_request u headers)] ++ out
       ++ [Slept (REQUEST_DELAY config)])
    | (Raise e, (info, n'), out) =>
      (Ok (<["verification_status" := lit "Error: " ++ take 50 (exn_msg e)]> info), n',
       [Printed (extracting_line u); Sent (get_request u headers)] ++ out
       ++ [Printed (extract_error_line e)])
    end.
Proof.
  intros Hfetch Hstatus.
  unfold extract_organizer_details. fold (get_request u headers). fold (extracting_line u).
  unfold send, raise_for_status, run_methods. mstep. rewrite Hfetch. cbn [fst snd].
  rewrite Hstatus. cbn [fst snd].
  destruct (method_1 (content response) (initial_organizer_info, S n))
    as [[[[]|e1] [d1 n1]] out1]; cbn [fst snd];
    [destruct (method_2 lib (content response) (d1, n1))
       as [[[[]|e2] [d2 n2]] out2]; cbn [fst snd];
     [destruct (method_3 lib world u (content response) (d2, n2))
        as [[[[]|e3] [d3 n3]] out3]; cbn [fst snd app]|]|];
    cbn [fst snd app]; rewrite ?app_nil_r, <- ?app_assoc; reflexivity.
Qed.

(** X4.  The organizer extractor never raises, and its pause is inside the
    [try] block, after the methods.  When nothing raised in the block (the
    fetch, the status check and the three methods went through), the pause
    of [REQUEST_DELAY] seconds is the last thing the function does, and
    its only pause.  When the block raised [e], the function does not
    pause at all: the last thing it does is print the error line of [e],
    and the status it returns is "Error: " and the first 50 characters of
    the message of [e]. *)
Theorem extract_pauses_only_after_success lib world config u headers n :
  exists info n' out,
    extract_organizer_details lib world config u headers n = (Ok info, n', out) /\
    match raised_in_try lib world u headers n with
    | None =>
      exists before, out = before ++ [Slept (REQUEST_DELAY config)] /\ Forall quiet before
    | Some e =>
      (exists before, out = before ++ [Printed (extract_error_line e)] /\ Forall quiet before) /\
      info !! "verification_status" = Some (lit "Error: " ++ take 50 (exn_msg e))
    end.
Proof.
  unfold raised_in_try.
  destruct (http world n (get_request u headers)) as [response|e] eqn:Hfetch.
  - destruct (http_error response) as [e|] eqn:Hstatus.
    + eexists _, _, _. split.
      * apply (extract_fetch_error _ _ _ _ _ _ e). right. eauto.
      * split; [|apply error_info_fields].
        eexists [_; _]. split; [reflexivity | repeat constructor].
    + rewrite (extract_after_fetch _ _ _ _ _ _ _ Hfetch Hstatus).
      pose proof (run_methods_quiet lib world u (content response)
                    (initial_organizer_info, S n)) as Hquiet.
      destruct (run_methods lib world u (content response) (initial_organizer_info, S n))
        as [[[[]|e] [info n']] out]; cbn [fst snd] in *.
      * eexists _, _, _. split; [reflexivity|].
        eexists (_ :: _ :: out). split; [reflexivity | repeat constructor; exact Hquiet].
      * eexists _, _, _. split; [reflexivity|]. split; [|now rewrite lookup_insert_eq].
        eexists (_ :: _ :: out). split; [reflexivity | repeat constructor; exact Hquiet].
  - eexists _, _, _. split.
    + apply (extract_fetch_error _ _ _ _ _ _ e). left. exact Hfetch.
    + split; [|apply error_info_fields].
      eexists [_; _]. split; [reflexivity | repeat constructor].
Qed.

(** ** Validation notes *)

Lemma validate_gives_notes lib world (organizer_info : dict) s r s' out :
  validate lib world organizer_info s = (r, s', out) ->
  s'.1 = s.1 /\
  ((exists e, r = Raise e) \/
   exists website email alive,
     organizer_info !! "organiser_website" = Some website /\
     organizer_info !! "organiser_email" = Some email /\
     r = Ok (notes_for lib website email alive)).
Proof.
  unfold validate, item, notes_for. mstep.
  destruct (organizer_info !! "organiser_website") as [website|]; cbn [fst snd];
    [|intros [= <- <- <-]; eauto].
  destruct (str_eqb website NA) eqn:Hw; cbn [negb fst snd].
  - destruct (organizer_info !! "organiser_email") as [email|]; cbn [fst snd];
      intros [= <- <- <-]; (split; [reflexivity|]); [right | eauto].
    exists website, email, true. rewrite Hw. now destruct (str_eqb email NA).
  - destruct (validate_url_returns world website s.2) as (alive & ->); cbn [fst snd].
    destruct (organizer_info !! "organiser_email") as [email|]; cbn [fst snd];
      intros [= <- <- <-]; (split; [reflexivity|]); [right | eauto].
    exists website, email, alive. rewrite Hw. now destruct (str_eqb email NA).
Qed.

(** [validate] leaves the lists of the driver alone, and what it returns
    are the notes for the website and the e-mail of the record. *)
Lemma validate_wp lib world (organizer_info : dict) s :
  wp (validate lib world organizer_info) s (fun r s' _ =>
    s'.1 = s.1 /\
    forall notes, r = Ok notes ->
      exists website email alive,
        organizer_info !! "organiser_website" = Some website /\
        organizer_info !! "organiser_email" = Some email /\
        notes = notes_for lib website email alive).
Proof.
  apply wp_case. intros r s' out Hv.
  apply validate_gives_notes in Hv as [Hsame [[e ->] | (website & email & alive & Hw & Hm & ->)]];
    (split; [exact Hsame|]); [discriminate|].
  intros notes [= <-]. eauto 10.
Qed.

(** ** A card whose detail page cannot be fetched *)

Lemma str_eqb_false (a b : str) : a <> b -> str_eqb a b = false.
Proof. intros H. unfold str_eqb. now apply bool_decide_eq_false. Qed.

Lemma str_eqb_refl (a : str) : str_eqb a a = true.
Proof. unfold str_eqb. now apply bool_decide_eq_true. Qed.

Lemma process_card_fetch_error lib world config headers total i card link e scraped log n :
  card_link lib card = Some link ->
  link <> NA ->
  name_of_link lib link <> NA ->
  fetch_raises world n (get_request link headers) e ->
  exists entry before after,
    process_card lib world config headers total i card ((scraped, log), n)
    = (Ok (),
       ((scraped ++ [error_record lib card e], log ++ [entry]), S n),
       (Printed <$> before) ++ [Sent (get_request link headers)] ++ (Printed <$> after)).
Proof.
  intros Hlink Hna Hname Hfetch.
  unfold process_card, extract_event_data_from_card, validate, item.
  mstep.
  rewrite bool_decide_eq_false_2 by apply card_fields_nonempty.
  rewrite card_fields_name, card_fields_link, Hlink. cbn [from_option id fst snd app].
  rewrite (str_eqb_false _ _ Hname).
  destruct (card_fields_city lib card) as [city Hcity].
  destruct (card_fields_state lib card) as [state Hstate].
  rewrite Hcity, Hstate. cbn [fst snd app].
  rewrite (str_eqb_false _ _ Hna). cbn [negb fst snd].
  rewrite (extract_fetch_error _ _ _ _ _ _ e) by done.
  destruct (error_info_fields e) as (_ & Hweb & Hmail & _ & Hstatus).
  rewrite Hweb, Hmail, Hstatus. cbn [fst snd]. rewrite str_eqb_refl. cbn [negb fst snd app join].
  rewrite lookup_insert_eq. cbn [fst snd app].
  eexists _, [_; _; _; _; _], [_; _].
  reflexivity.
Qed.

Lemma process_card_returns lib world config headers total i card s :
  exists s' out, process_card lib world config headers total i card s = (Ok (), s', out).
Proof.
  unfold process_card, try_except.
  match goal with |- context [match ?body s with _ => _ end] =>
    destruct (body s) as [[[[]|e] s'] out] end.
  - eauto.
  - mstep. eauto.
Qed.

Lemma for_each_returns {S A} (xs : list A) (body : A -> M S unit) :
  (forall x s, exists s' out, body x s = (Ok (), s', out)) ->
  forall s, exists s' out, for_each xs body s = (Ok (), s', out).
Proof.
  intros Hbody. induction xs as [|x xs IH]; intros s; cbn [for_each].
  - eexists _, _. reflexivity.
  - destruct (Hbody x s) as (s1 & out1 & H1). rewrite (bind_ok _ _ _ _ _ _ H1).
    destruct (IH s1) as (s2 & out2 & H2). rewrite H2. eauto.
Qed.

Lemma process_cards_returns lib world config headers cards s :
  exists s' out, process_cards lib world config headers cards s = (Ok (), s', out).
Proof.
  apply for_each_returns. intros ic s0. apply process_card_returns.
Qed.

Lemma zip_seq_app {A} (xs ys : list A) (a : nat) :
  zip (seq a (length (xs ++ ys))) (xs ++ ys)
  = zip (seq a (length xs)) xs ++ zip (seq (a + length xs) (length ys)) ys.
Proof.
  revert a. induction xs as [|x xs IH]; intros a; simpl.
  - now rewrite Nat.add_0_r.
  - rewrite IH. replace (a + S (length xs))%nat with (S a + length xs)%nat by lia.
    reflexivity.
Qed.

Lemma process_cards_split lib world config headers (before after : list Card) card s :
  process_cards lib world config headers (before ++ card :: after) s
  = (process_from lib world config headers (length (before ++ card :: after)) 1 before;;
     process_card lib world config headers (length (before ++ card :: after))
                  (S (length before)) card;;
     process_from lib world config headers (length (before ++ card :: after))
                  (2 + length before) after) s.
Proof.
  unfold process_cards, process_from. rewrite zip_seq_app, for_each_app.
  cbn [length seq zip zip_with for_each fst snd].
  replace (S (1 + length before)) with (2 + length before)%nat by lia.
  reflexivity.
Qed.

(** C4.  When the fetch of a detail page raises [e] (the request raises, a
    timeout for one, or [raise_for_status] does), [extract_organizer_details]
    catches it and returns a record whose organizer fields are all "N/A" and
    whose status is "Error: " followed by the first 50 characters of the
    message.  In the driver, no card makes the loop raise; and when the
    cards before [card] have been processed and the fetch for [card] raises,
    the loop goes on with the cards after it, from the state in which one
    record for [card] has been appended: its organizer fields are "N/A" and
    its status is the error tag. *)
Theorem fetch_error_degrades_one_record lib world config headers :
  (forall u n e,
     fetch_raises world n (get_request u headers) e ->
     exists n' out info,
       extract_organizer_details lib world config u headers n = (Ok info, n', out) /\
       info !! "organiser_name" = Some NA /\
       info !! "organiser_website" = Some NA /\
       info !! "organiser_email" = Some NA /\
       info !! "contact_person" = Some NA /\
       info !! "verification_status" = Some (lit "Error: " ++ take 50 (exn_msg e))) /\
  (forall cards s,
     exists s' out, process_cards lib world config headers cards s = (Ok (), s', out)) /\
  (forall before card after s0,
     exists scraped log n out0,
       process_from lib world config headers (length (before ++ card :: after)) 1 before s0
       = (Ok (), ((scraped, log), n), out0) /\
       forall link e,
         card_link lib card = Some link -> link <> NA -> name_of_link lib link <> NA ->
         fetch_raises world n (get_request link headers) e ->
         exists record entry printed_before printed_after,
           process_cards lib world config headers (before ++ card :: after) s0
           = (let '(r, s, out2) :=
                process_from lib world config headers (length (before ++ card :: after))
                             (2 + length before) after
                             ((scraped ++ [record], log ++ [entry]), S n) in
              (r, s,
               out0 ++ ((Printed <$> printed_before) ++ [Sent (get_request link headers)]
                        ++ (Printed <$> printed_after)) ++ out2)) /\
           record !! "organiser_name" = Some NA /\
           record !! "organiser_website" = Some NA /\
           record !! "organiser_email" = Some NA /\
           record !! "verification_status" = Some (lit "Error: " ++ take 50 (exn_msg e))).
Proof.
  split; [|split].
  - intros u n e Hfetch. eexists _, _, _.
    split; [exact (extract_fetch_error lib _ config _ _ _ _ Hfetch) | apply error_info_fields].
  - intros cards s. apply process_cards_returns.
  - intros before card after s0.
    destruct (for_each_returns (zip (seq 1 (length before)) before)
                (fun ic => process_card lib world config headers
                             (length (before ++ card :: after)) ic.1 ic.2)
                (fun ic s => process_card_returns _ _ _ _ _ _ _ s) s0)
      as ([[scraped log] n] & out0 & Hbefore).
    exists scraped, log, n, out0. split; [exact Hbefore|].
    intros link e Hlink Hna Hname Hfetch.
    destruct (process_card_fetch_error lib world config headers
                (length (before ++ card :: after)) (S (length before)) card link e
                scraped log n Hlink Hna Hname Hfetch) as (entry & evs1 & evs2 & Hcard).
    exists (error_record lib card e), entry, evs1, evs2. split.
    + rewrite process_cards_split.
      unfold process_from. rewrite (bind_ok _ _ _ _ _ _ Hbefore).
      rewrite (bind_ok _ _ _ _ _ _ Hcard).
      destruct (for_each (zip (seq (2 + length before) (length after)) after) _ _)
        as [[r s] out2].
      reflexivity.
    + destruct (error_info_fields e) as (Hn & Hw & Hm & _ & Hs).
      unfold error_record.
      repeat split; rewrite lookup_insert_ne by done;
        (erewrite lookup_union_Some_l; [reflexivity | eassumption]).
Qed.

(** ** A card without a link *)

(** X3.  A card whose click handler is missing, or holds no [window.open] with
    a quoted link, gets "N/A" as link and as name; the driver then passes
    it over: it prints that the card could not be read, appends no record
    and no log entry, and sends no request. *)
Theorem card_without_link_is_skipped lib world config headers total i card v n :
  card_link lib card = None ->
  card_fields lib card !! "event_link" = Some NA /\
  card_fields lib card !! "event_name" = Some NA /\
  process_card lib world config headers total i card (v, n)
  = (Ok (), (v, n), [Printed (processing_line i total); Printed skipped_line]).
Proof.
  intros Hlink. pose proof (card_fields_link lib card) as Hl.
  pose proof (card_fields_name lib card) as Hn. rewrite Hlink in Hl, Hn.
  cbn [from_option id default] in Hl.
  split; [exact Hl|]. split; [exact Hn|].
  unfold process_card, extract_event_data_from_card, item. mstep.
  rewrite bool_decide_eq_false_2 by apply card_fields_nonempty.
  rewrite Hn. cbn [fst snd app]. rewrite str_eqb_refl. cbn [fst snd app].
  now destruct v.
Qed.

(** ** The records of the driver *)

Lemma has_keys_insert keys k v d : has_keys keys d -> has_keys keys (<[k := v]> d).
Proof.
  intros Hd j Hj. apply lookup_insert_is_Some'. right. now apply Hd.
Qed.

Lemma lacks_card_keys_insert k v d :
  k ∈ organizer_keys -> lacks_keys card_keys d -> lacks_keys card_keys (<[k := v]> d).
Proof.
  intros Hk Hd j Hj. rewrite lookup_insert_ne; [now apply Hd|].
  intros ->. unfold organizer_keys in Hk. unfold card_keys in Hj.
  rewrite !elem_of_cons, elem_of_nil in Hk. rewrite !elem_of_cons, elem_of_nil in Hj.
  destruct Hk as [->|[->|[->|[->|[]]]]]; destruct Hj as [?|[?|[?|[?|[?|[]]]]]]; discriminate.
Qed.

Lemma initial_organizer_keys : has_keys organizer_keys initial_organizer_info.
Proof.
  intros k Hk. unfold organizer_keys in Hk. rewrite !elem_of_cons, elem_of_nil in Hk.
  destruct Hk as [->|[->|[->|[->|[]]]]]; unfold initial_organizer_info; simplify_map_eq; eauto.
Qed.

Lemma initial_organizer_lacks : lacks_keys card_keys initial_organizer_info.
Proof.
  intros k Hk. unfold card_keys in Hk. rewrite !elem_of_cons, elem_of_nil in Hk.
  destruct Hk as [->|[->|[->|[->|[->|[]]]]]]; reflexivity.
Qed.

Lemma no_details_keys : has_keys organizer_keys no_details.
Proof.
  intros k Hk. unfold organizer_keys in Hk. rewrite !elem_of_cons, elem_of_nil in Hk.
  destruct Hk as [->|[->|[->|[->|[]]]]]; unfold no_details; simplify_map_eq; eauto.
Qed.

Lemma no_details_lacks : lacks_keys card_keys no_details.
Proof.
  intros k Hk. unfold card_keys in Hk. rewrite !elem_of_cons, elem_of_nil in Hk.
  destruct Hk as [->|[->|[->|[->|[->|[]]]]]]; reflexivity.
Qed.

(** The organizer fields of a card have the four keys the driver reads,
    and none of the keys of the card's own fields. *)
Lemma organizer_of_keys lib world config headers card info :
  organizer_of lib world config headers card info ->
  has_keys organizer_keys info /\ lacks_keys card_keys info.
Proof.
  intros (link & _ & Hinfo). destruct (str_eqb link NA).
  - subst info. split; [apply no_details_keys | apply no_details_lacks].
  - destruct Hinfo as (n & n' & out & Hrun). split.
    + pose proof (wp_run _ _ _ _ _ _ Hrun
                    (extract_keeps (has_keys organizer_keys)
                       (fun k v d _ => has_keys_insert organizer_keys k v d)
                       lib world config link headers n initial_organizer_keys))
        as (info' & [= <-] & Hkeys).
      exact Hkeys.
    + pose proof (wp_run _ _ _ _ _ _ Hrun
                    (extract_keeps (lacks_keys card_keys) lacks_card_keys_insert
                       lib world config link headers n initial_organizer_lacks))
        as (info' & [= <-] & Hlacks).
      exact Hlacks.
Qed.

Lemma process_card_appends_built lib world config headers total i card s :
  wp (process_card lib world config headers total i card) s
     (fun _ s' _ => appends_built lib world config headers i card s.1 s').
Proof.
  unfold process_card, extract_event_data_from_card, appends_built.
  destruct s as [[scraped log] n]. cbn [fst snd].
  wp_go; try (now left).
  rewrite bool_decide_eq_false_2 by apply card_fields_nonempty.
  wp_go; try (now left).
  match goal with |- context [if str_eqb ?x NA then _ else _] => destruct (str_eqb x NA) end;
    wp_go; try (now left).
  match goal with H : card_fields lib card !! "event_link" = Some ?l |- _ =>
    rename H into Hlink; set (link := l) in * end.
  match goal with H : card_fields lib card !! "event_name" = Some ?l |- _ =>
    rename H into Hname; set (name := l) in * end.
  assert (Hrest : forall (organizer_info : dict) m,
    organizer_of lib world config headers card organizer_info ->
    wp (validate lib world organizer_info) (scraped, log, m)
       (fun r s1 _ =>
          match r with
          | Ok notes =>
            s1.1 = (scraped, log) /\
            built_record lib world config headers card
              (<["validation_notes" := join (lit ", ") notes]>
                 (organizer_info ∪ card_fields lib card))
          | Raise _ => s1.1 = (scraped, log)
          end)).
  { intros organizer_info m Hof. eapply wp_mono; [apply validate_wp|].
    intros [notes|e] s1 _ [Hsame Hnotes]; [|exact Hsame]. split; [exact Hsame|].
    destruct (Hnotes notes eq_refl) as (website & email & alive & Hw & Hm & ->).
    exists organizer_info, website, email, alive. auto. }
  assert (Hlast : forall (organizer_info : dict) m,
    organizer_of lib world config headers card organizer_info ->
    wp (validation_notes ← validate lib world organizer_info;
        let combined_data := <["validation_notes" := join (lit ", ") validation_notes]>
                               (organizer_info ∪ card_fields lib card) in
        modify_local (fun v => (v.1 ++ [combined_data], v.2));;
        status ← item organizer_info "verification_status";
        notes ← item combined_data "validation_notes";
        let log_entry := lit "Event " ++ nat_str i ++ lit ": " ++ name ++ lit " | Status: "
                         ++ status ++ lit " | Notes: " ++ notes in
        modify_local (fun v => (v.1, v.2 ++ [log_entry]));;
        lift (print (lit "    " ++ [9989] ++ lit " Status: " ++ status)))
       (scraped, log, m)
       (fun _ s' _ =>
          s'.1 = (scraped, log) \/
          exists record,
            s'.1 = (scraped ++ [record], log ++ [log_line i record]) /\
            built_record lib world config headers card record)).
  { intros organizer_info m Hof. pose proof (organizer_of_keys _ _ _ _ _ _ Hof) as [Hkeys Hlacks].
    apply wp_bind. eapply wp_mono; [now apply Hrest|].
    intros [notes|e] [[sc lg] m'] _ Hs; cbn [fst snd] in Hs;
      [destruct Hs as [[= -> ->] Hrec] | injection Hs as -> ->; now left].
    cbn zeta. wp_go;
      try (match goal with H : organizer_info !! "verification_status" = None |- _ =>
             destruct (Hkeys "verification_status") as [? ?];
               [unfold organizer_keys; rewrite !elem_of_cons; tauto | congruence]
           end);
      try (match goal with H : _ !! "validation_notes" = None |- _ =>
             now rewrite lookup_insert_eq in H
           end).
    match goal with H : _ !! "validation_notes" = Some _ |- _ =>
      rewrite lookup_insert_eq in H; injection H as <-
    end.
    match goal with H : organizer_info !! "verification_status" = Some _ |- _ =>
      rename H into Hstatus
    end.
    right. eexists. split; [|exact Hrec]. f_equal. f_equal.
    unfold log_line, get_or_NA.
    rewrite lookup_insert_eq. rewrite !lookup_insert_ne by done.
    rewrite (lookup_union_Some_l _ _ _ _ Hstatus).
    rewrite lookup_union_r by (apply Hlacks; unfold card_keys; rewrite !elem_of_cons; tauto).
    rewrite Hname. reflexivity. }
  destruct (str_eqb link NA) eqn:Hna; cbn [negb].
  - apply wp_ret. cbv beta iota. eapply wp_mono; [apply Hlast|].
    { exists link. split; [exact Hlink|]. now rewrite Hna. }
    intros [[]|e] s1 _ Hs; wp_go; exact Hs.
  - apply wp_lift, wp_case. intros [organizer_info|e] n1 out1 Hextract; [|wp_go; now left].
    cbn [fst snd]. eapply wp_mono; [apply Hlast|].
    { exists link. split; [exact Hlink|]. rewrite Hna. eauto. }
    intros [[]|e] s1 _ Hs; wp_go; exact Hs.
Qed.

Lemma process_cards_built lib world config headers cards s :
  Forall2 (built_from lib world config headers cards) s.1.1 s.1.2 ->
  wp (process_cards lib world config headers cards) s
     (fun _ s' _ => Forall2 (built_from lib world config headers cards) s'.1.1 s'.1.2).
Proof.
  intros Hs. unfold process_cards.
  apply (wp_for_each_in _ _
           (fun s => Forall2 (built_from lib world config headers cards) s.1.1 s.1.2));
    [exact Hs|].
  intros [i card] s0 Hin H0.
  eapply wp_mono; [apply process_card_appends_built|].
  intros _ s1 _ [-> | (record & -> & Hrec)]; [exact H0|]. cbn [fst snd].
  apply Forall2_app; [exact H0|]. constructor; [|constructor].
  exists i, card. auto.
Qed.

(** What the scrape function returns and writes: every record was built
    by the driver for a card of the listing page, and when there is a
    record, the validation log was written, with one line for each
    record, in the order of the records. *)
Lemma scrape_built lib world config n :
  wp (scrape_10times_medical_pharma lib world config) n
     (fun r _ out => forall records, r = Ok records ->
        Forall (fun record => exists card,
                  built_record lib world config get_stealth_headers card record) records /\
        (records <> [] ->
         exists cards log,
           Forall2 (built_from lib world config get_stealth_headers cards) records log /\
           WroteText (VALIDATION_LOG config) (log_text world records log) ∈ out)).
Proof.
  unfold scrape_10times_medical_pharma. wp_go.
  apply wp_any. intros [response|e] n1 out1; wp_go.
  - apply wp_any. intros [[]|e] n2 out2; wp_go.
    + apply wp_run_local. eapply wp_mono; [apply process_cards_built; constructor|].
      intros r [[scraped log] n3] out3 Hall. wp_go. cbn [fst snd] in Hall.
      unfold write_text. destruct (open_w world (VALIDATION_LOG config)) as [e|]; wp_go.
      * destruct (exn_kind e); wp_go; [destruct (contains _ _); wp_go|];
          intros records [= <-]; (split; [constructor | done]).
      * apply wp_emit. wp_go. intros records [= <-]. split.
        -- clear -Hall. induction Hall as [|record entry scraped log (i & card & _ & H & _) _ IH];
             constructor; eauto.
        -- intros _. eexists _, log. split; [exact Hall|].
           rewrite !elem_of_app, !elem_of_cons. tauto.
    + destruct (exn_kind e); wp_go; [destruct (contains _ _); wp_go|];
        intros records [= <-]; (split; [constructor | done]).
  - destruct (exn_kind e); wp_go; [destruct (contains _ _); wp_go|];
      intros records [= <-]; (split; [constructor | done]).
Qed.

Lemma built_record_well_noted lib world config headers card record :
  built_record lib world config headers card record -> well_noted lib record.
Proof.
  intros (info & website & email & alive & _ & Hw & Hm & ->).
  exists website, email, alive.
  rewrite !lookup_insert_ne by done. rewrite lookup_insert_eq.
  now rewrite (lookup_union_Some_l _ _ _ _ Hw), (lookup_union_Some_l _ _ _ _ Hm).
Qed.

(** ** No field of a record is unset *)

Lemma card_fields_date lib card : is_Some (card_fields lib card !! "event_date").
Proof.
  unfold card_fields, card_location, card_link_and_name, card_date.
  destruct (venue_link card) as [venue|]; [destruct (venue_a venue) as [location|];
    [destruct (contains location (lit ","))|]|];
  (destruct (clickable_td card) as [oc|]; [cbn; destruct (onclick_url lib oc)|]);
  destruct (date_td card); cbn; simplify_map_eq; eauto.
Qed.

Lemma card_fields_keys lib card : has_keys card_keys (card_fields lib card).
Proof.
  intros k Hk. unfold card_keys in Hk. rewrite !elem_of_cons, elem_of_nil in Hk.
  destruct Hk as [->|[->|[->|[->|[->|[]]]]]].
  - rewrite card_fields_name. eauto.
  - apply card_fields_date.
  - apply card_fields_city.
  - apply card_fields_state.
  - rewrite card_fields_link. eauto.
Qed.

Lemma built_record_keys lib world config headers card record :
  built_record lib world config headers card record -> has_keys record_keys record.
Proof.
  intros (info & website & email & alive & Hof & _ & _ & ->).
  apply organizer_of_keys in Hof as [Hof _]. pose proof (card_fields_keys lib card) as Hcard.
  intros k Hk. apply lookup_insert_is_Some'.
  destruct (decide (k = "validation_notes")) as [->|Hne]; [now left | right].
  apply lookup_union_is_Some.
  unfold record_keys in Hk. rewrite !elem_of_cons, elem_of_nil in Hk.
  destruct Hk as [->|[->|[->|[->|[->|[->|[->|[->|[->|[->|[]]]]]]]]]]];
    first [ left; apply Hof; unfold organizer_keys; rewrite !elem_of_cons; tauto
          | right; apply Hcard; unfold card_keys; rewrite !elem_of_cons; tauto
          | done ].
Qed.

(** X5.  Every record the scrape function returns has a value under each of
    the ten keys the reporter reads, so no cell of its row is the
    reporter's own "N/A": each cell is the value the record holds. *)
Theorem scraped_records_have_every_field lib world config n records n' out :
  scrape_10times_medical_pharma lib world config n = (Ok records, n', out) ->
  forall record, record ∈ records ->
    (forall k, k ∈ record_keys -> is_Some (record !! k)) /\
    Some <$> row_of record = (fun k => record !! k) <$> record_keys.
Proof.
  intros Hrun record Hin.
  pose proof (wp_run _ _ _ _ _ _ Hrun (scrape_built lib world config n)) as Hall.
  destruct (Hall records eq_refl) as [Hall' _]. rewrite Forall_forall in Hall'.
  destruct (Hall' record Hin) as (card & Hrec). apply built_record_keys in Hrec.
  split; [exact Hrec|].
  unfold row_of, record_keys, get_or_NA. cbn [fmap list_fmap].
  repeat match goal with |- context [default NA (record !! ?k)] =>
    let v := fresh "v" in let Hv := fresh "Hv" in
    destruct (Hrec k) as [v Hv];
      [unfold record_keys; rewrite !elem_of_cons; tauto | rewrite Hv; cbn [default from_option id]]
  end.
  reflexivity.
Qed.

(** ** The validation log *)

(** X7.  When the scrape function returns records, it has written the
    validation log: the banner with the time and the number of records,
    and then one line for each record, in the order of the records, of
    the form [Event i: name | Status: status | Notes: notes] with the
    name, the status and the notes of the record. *)
Theorem log_has_one_line_per_record lib world config n records n' out :
  scrape_10times_medical_pharma lib world config n = (Ok records, n', out) ->
  records <> [] ->
  exists log,
    WroteText (VALIDATION_LOG config) (log_text world records log) ∈ out /\
    Forall2 (fun record entry => exists i, entry = log_line i record) records log.
Proof.
  intros Hrun Hne.
  pose proof (wp_run _ _ _ _ _ _ Hrun (scrape_built lib world config n)) as Hall.
  destruct (Hall records eq_refl) as [_ Hlog].
  destruct (Hlog Hne) as (cards & log & Hbuilt & Hwrote).
  exists log. split; [exact Hwrote|].
  eapply Forall2_impl; [exact Hbuilt|].
  intros record entry (i & card & _ & _ & ->). eauto.
Qed.

(** ** A listing page that cannot be fetched *)

Lemma scrape_listing_error lib world config n e :
  fetch_raises world n listing_request e ->
  exists printed_before printed_after,
    scrape_10times_medical_pharma lib world config n
    = (Ok [], S n,
       (Printed <$> printed_before) ++ [Sent listing_request] ++ (Printed <$> printed_after))
    /\ report_line e ∈ printed_after.
Proof.
  intros Hfetch. unfold scrape_10times_medical_pharma, report_line.
  fold listing_request. unfold send, raise_for_status. mstep.
  destruct Hfetch as [Hq | (response & Hq & Herr)]; rewrite Hq; [|rewrite Herr];
    cbn [fst snd app];
    (destruct (exn_kind e); [destruct (contains (exn_msg e) (lit "403"))|]);
    cbn [fst snd app].
  all: try (eexists [_; _; _; _; _; _], [_; _];
            split; [reflexivity | rewrite ?elem_of_cons; auto]).
  all: eexists [_; _; _; _; _; _], [_];
       split; [reflexivity | rewrite ?elem_of_cons; auto].
Qed.

Lemma main_listing_error lib world config n e :
  fetch_raises world n listing_request e ->
  exists printed_before printed_after,
    main lib world config n
    = (Ok (), S n,
       (Printed <$> printed_before) ++ [Sent listing_request] ++ (Printed <$> printed_after))
    /\ report_line e ∈ printed_after /\ failed_line ∈ printed_after.
Proof.
  intros Hfetch.
  destruct (scrape_listing_error lib world config n e Hfetch) as (before & after & Hs & Hin).
  unfold main. mstep. rewrite Hs. cbn [fst snd app].
  eexists ([_; _; _; _; _; _; _; _] ++ before),
          (after ++ [failed_line; _; _; _; _; _; _]).
  split; [|split].
  - rewrite !fmap_app. cbn [fmap list_fmap app]. rewrite <- !app_assoc. reflexivity.
  - rewrite elem_of_app. auto.
  - rewrite elem_of_app, elem_of_cons. auto.
Qed.

(** ** Concrete runs *)

Example one_card_run :
  (scrape_10times_medical_pharma ascii_library (one_card_world 200) source_config 0%nat).1
  = (Ok [expo_record], 2%nat).
Proof. vm_compute. reflexivity. Qed.

(** ** The run when the listing page fails *)

(** C9, as stated, fails: a listing page answered with status 300 is a
    fetch that failed in the words of the claim, yet [raise_for_status]
    lets it pass, its card is processed, and the run returns a record. *)
Lemma listing_status_300_is_processed :
  listing_fails (one_card_world 300) 0 /\
  (scrape_10times_medical_pharma ascii_library (one_card_world 300) source_config 0%nat).1.1
  = Ok [expo_record].
Proof.
  split.
  - right. eexists. split; [reflexivity|]. cbn. lia.
  - vm_compute. reflexivity.
Qed.

(** C9, amended.  When the fetch of the listing page raises (the request
    raises, or the answer has a status from 400 to 599 and
    [raise_for_status] raises): the scrape function returns the empty list
    after that one request, having printed the report; the whole program
    then ends normally, having sent that one request, printed the report
    and "SCRAPING FAILED!", and written no file; and the reporter, given
    an empty list, writes nothing.  By contrast a card whose detail page
    cannot be fetched adds one record and the loop body returns. *)
Theorem listing_failure_aborts_run lib world config n e :
  fetch_raises world n listing_request e ->
  (exists printed_before printed_after,
     scrape_10times_medical_pharma lib world config n
     = (Ok [], S n,
        (Printed <$> printed_before) ++ [Sent listing_request] ++ (Printed <$> printed_after))
     /\ report_line e ∈ printed_after) /\
  (exists printed_before printed_after,
     main lib world config n
     = (Ok (), S n,
        (Printed <$> printed_before) ++ [Sent listing_request] ++ (Printed <$> printed_after))
     /\ report_line e ∈ printed_after /\ failed_line ∈ printed_after) /\
  (forall m, save_to_csv_with_validation lib world config [] m
             = (Ok None, m, [Printed ([10060] ++ lit " No data to save!")])) /\
  (forall headers total i card link e' scraped log m,
     card_link lib card = Some link -> link <> NA -> name_of_link lib link <> NA ->
     fetch_raises world m (get_request link headers) e' ->
     exists entry printed_before printed_after,
       process_card lib world config headers total i card ((scraped, log), m)
       = (Ok (),
          ((scraped ++ [error_record lib card e'], log ++ [entry]), S m),
          (Printed <$> printed_before) ++ [Sent (get_request link headers)]
            ++ (Printed <$> printed_after))).
Proof.
  intros Hfetch. split; [|split; [|split]].
  - now apply scrape_listing_error.
  - now apply main_listing_error.
  - reflexivity.
  - intros. now apply process_card_fetch_error.
Qed.

(** ** Fields that were not resolved *)

Lemma found_or_NA_initial lib world u soup :
  found_or_NA lib world u soup initial_organizer_info.
Proof.
  unfold found_or_NA, initial_organizer_info.
  repeat split; intros v Hv; simplify_map_eq; now left.
Qed.

Lemma found_or_NA_status lib world u soup d v :
  found_or_NA lib world u soup d ->
  found_or_NA lib world u soup (<["verification_status" := v]> d).
Proof.
  intros (Hn & Hw & He). unfold found_or_NA. rewrite !lookup_insert_ne by done. auto.
Qed.

Lemma found_or_NA_name lib world u soup d v :
  name_found soup v -> found_or_NA lib world u soup d ->
  found_or_NA lib world u soup (<["organiser_name" := v]> d).
Proof.
  intros Hv (Hn & Hw & He). unfold found_or_NA.
  rewrite lookup_insert_eq, !lookup_insert_ne by done.
  repeat split; auto. intros ? [= <-]. now right.
Qed.

Lemma found_or_NA_website lib world u soup d v :
  website_found lib world u soup v -> found_or_NA lib world u soup d ->
  found_or_NA lib world u soup (<["organiser_website" := v]> d).
Proof.
  intros Hv (Hn & Hw & He). unfold found_or_NA.
  rewrite lookup_insert_eq, !lookup_insert_ne by done.
  repeat split; auto. intros ? [= <-]. now right.
Qed.

Lemma found_or_NA_email lib world u soup d v :
  email_found lib soup v -> found_or_NA lib world u soup d ->
  found_or_NA lib world u soup (<["organiser_email" := v]> d).
Proof.
  intros Hv (Hn & Hw & He). unfold found_or_NA.
  rewrite lookup_insert_eq, !lookup_insert_ne by done.
  repeat split; auto. intros ? [= <-]. now right.
Qed.

Lemma first_qualifying_qualifies els link :
  first_qualifying els = Some link -> qualifies link = true.
Proof.
  induction els as [|element rest IH]; cbn [first_qualifying]; [done|].
  destruct (find_a element) as [l|]; [|exact IH].
  destruct (qualifies l) eqn:Hq; [|exact IH]. now intros [= <-].
Qed.

Lemma qualifies_href link :
  qualifies link = true -> a_href link = Some (default [] (a_href link)).
Proof.
  unfold qualifies. destruct (a_href link) as [href|]; [reflexivity | discriminate].
Qed.

(** One scan of Method 1 keeps the fields "N/A" or found. *)
Lemma scan_elements_found lib world u soup els s :
  els ∈ scanned soup -> found_or_NA lib world u soup s.1 ->
  wp (scan_elements els) s (fun _ s' _ => found_or_NA lib world u soup s'.1).
Proof.
  intros Hels Hs. destruct s as [d n]. apply wp_case. intros r s' out.
  destruct (first_qualifying els) as [link|] eqn:Hfirst.
  - assert (Hhit : link ∈ hits soup).
    { apply list_elem_of_omap. eauto. }
    assert (Hweb : website_found lib world u soup (default [] (a_href link))).
    { left. exists link. split; [exact Hhit|].
      now apply qualifies_href, first_qualifying_qualifies with els. }
    destruct (link_name link) as [name|] eqn:Hname.
    + rewrite scan_elements_first
        by (intros l Hl; rewrite Hl in Hfirst; injection Hfirst as ->; rewrite Hname; eauto).
      rewrite Hfirst. intros [= <- <- <-]. cbn [fst from_option]. unfold record_link.
      apply found_or_NA_status, found_or_NA_name, found_or_NA_website; try done.
      exists link. rewrite Hname. auto.
    + rewrite (scan_elements_raises els d n link Hfirst Hname).
      intros [= <- <- <-]. cbn [fst]. now apply found_or_NA_website.
  - rewrite scan_elements_first by (intros l Hl; congruence).
    rewrite Hfirst. now intros [= <- <- <-].
Qed.

Lemma method_1_found lib world u soup s :
  found_or_NA lib world u soup s.1 ->
  wp (method_1 soup) s (fun _ s' _ => found_or_NA lib world u soup s'.1).
Proof.
  intros Hs. apply wp_case. intros r s' out. rewrite method_1_scans. intros Hrun.
  apply (wp_run _ _ (fun _ s' _ => found_or_NA lib world u soup s'.1) _ _ _ Hrun).
  apply (wp_for_each_in _ _ (fun s => found_or_NA lib world u soup s.1)); [exact Hs|].
  intros els s1 Hels H1. now apply scan_elements_found.
Qed.

Lemma method_2_found lib world u soup s :
  found_or_NA lib world u soup s.1 ->
  wp (method_2 lib soup) s (fun _ s' _ => found_or_NA lib world u soup s'.1).
Proof.
  intros Hs. destruct s as [d n]. apply wp_case. intros r s' out.
  rewrite method_2_run. intros [= <- <- <-]. cbn [fst] in *. unfold after_method_2.
  destruct (List.filter _ _) as [|e rest] eqn:Hfilter; [exact Hs|].
  apply found_or_NA_status, found_or_NA_email; [|exact Hs].
  unfold email_found. now rewrite Hfilter.
Qed.

Lemma validate_url_true world (u : str) (n n' : nat) out :
  validate_url world u n = (Ok true, n', out) ->
  exists answer,
    http world n (head_request u) = Ok answer /\ status_code answer ∈ [200; 301; 302]%Z.
Proof.
  unfold validate_url, send. fold (head_request u). mstep.
  destruct (http world n (head_request u)) as [answer|e]; cbn [fst snd]; [|discriminate].
  intros [= Hb _ _]. apply bool_decide_eq_true in Hb. eauto.
Qed.

Lemma probe_links_found lib world u soup links s :
  links ⊆ take 2 (contact_links soup) -> found_or_NA lib world u soup s.1 ->
  wp (probe_links lib world u links) s (fun _ s' _ => found_or_NA lib world u soup s'.1).
Proof.
  revert s. induction links as [|link rest IH]; intros s Hsub Hs; cbn [probe_links].
  - now apply wp_ret.
  - assert (Hrest : rest ⊆ take 2 (contact_links soup)).
    { intros l Hl. apply Hsub. now right. }
    assert (Hlink : link ∈ take 2 (contact_links soup)).
    { apply Hsub. now left. }
    destruct (truthy (a_href link) && _) eqn:Hok; [|now apply IH].
    destruct (a_href link) as [href|] eqn:Hhref; [|discriminate].
    cbn [default from_option id].
    destruct (urljoin lib u href) as [full_url|e] eqn:Hjoin; wp_go; [|exact Hs].
    apply wp_case. intros [[]|e] n1 out1 Hv; wp_go.
    + unfold set_info. wp_go.
      apply found_or_NA_status, found_or_NA_website; [|exact Hs].
      right. apply validate_url_true in Hv as (answer & Hanswer & Hlive).
      exists link, href, s.2, answer. auto.
    + now apply IH.
    + exact Hs.
Qed.

Lemma run_methods_found lib world u soup n :
  wp (run_methods lib world u soup) (initial_organizer_info, n)
     (fun _ s' _ => found_or_NA lib world u soup s'.1).
Proof.
  unfold run_methods. wp_go.
  eapply wp_mono; [apply (method_1_found lib world u), found_or_NA_initial|].
  intros [[]|e] s1 _ H1; wp_go; [|exact H1].
  eapply wp_mono; [apply (method_2_found lib world u), H1|].
  intros [[]|e] s2 _ H2; wp_go; [|exact H2].
  eapply wp_mono; [apply (probe_links_found lib world u soup); [done | exact H2]|].
  intros r s3 out3 H3. exact H3.
Qed.

(** What the extractor returns has "N/A" for the three fields, or it
    fetched the page and each field is "N/A" or found on it. *)
Lemma extract_found_or_NA lib world config u headers n info n' out :
  extract_organizer_details lib world config u headers n = (Ok info, n', out) ->
  (info !! "organiser_name" = Some NA /\ info !! "organiser_website" = Some NA /\
   info !! "organiser_email" = Some NA) \/
  exists response,
    http world n (get_request u headers) = Ok response /\
    http_error response = None /\
    found_or_NA lib world u (content response) info.
Proof.
  destruct (http world n (get_request u headers)) as [response|e] eqn:Hfetch.
  - destruct (http_error response) as [e|] eqn:Hstatus.
    + rewrite (extract_fetch_error _ _ _ _ _ _ e) by (right; eauto).
      intros [= <- _ _]. left. pose proof (error_info_fields e). tauto.
    + rewrite (extract_after_fetch _ _ _ _ _ _ _ Hfetch Hstatus).
      pose proof (run_methods_found lib world u (content response) (S n)) as Hfound.
      destruct (run_methods lib world u (content response) (initial_organizer_info, S n))
        as [[r [d n1]] out1] eqn:Hrun.
      pose proof (wp_run _ _ _ _ _ _ Hrun Hfound) as Hd. cbn [fst] in Hd.
      destruct r as [[]|e]; intros [= <- _ _]; right;
        exists response; (split; [first [reflexivity | assumption]|]);
        (split; [first [reflexivity | assumption]|]);
        [exact Hd | now apply found_or_NA_status].
  - rewrite (extract_fetch_error _ _ _ _ _ _ e) by (now left).
    intros [= <- _ _]. left. pose proof (error_info_fields e). tauto.
Qed.

Lemma card_fields_date_value lib card :
  card_fields lib card !! "event_date" = Some (default NA (date_td card)).
Proof.
  unfold card_fields, card_location, card_link_and_name, card_date.
  destruct (venue_link card) as [venue|]; [destruct (venue_a venue) as [location|];
    [destruct (contains location (lit ","))|]|];
  (destruct (clickable_td card) as [oc|]; [cbn; destruct (onclick_url lib oc)|]);
  destruct (date_td card); cbn; now simplify_map_eq.
Qed.

Lemma card_fields_no_venue lib card :
  venue_link card = None ->
  card_fields lib card !! "city" = Some NA /\ card_fields lib card !! "state" = Some NA.
Proof.
  intros Hvenue. unfold card_fields, card_location. rewrite Hvenue.
  now simplify_map_eq.
Qed.

Lemma card_fields_state_NA lib card venue :
  venue_link card = Some venue ->
  venue_a venue = None \/ (exists location, venue_a venue = Some location /\ ch "," ∉ location) ->
  card_fields lib card !! "state" = Some NA.
Proof.
  intros Hvenue Htext. unfold card_fields, card_location. rewrite Hvenue.
  destruct Htext as [-> | (location & -> & Hno)]; [now simplify_map_eq|].
  destruct (contains location (lit ",")) eqn:Hc; [|now simplify_map_eq].
  apply contains_single in Hc. done.
Qed.

(** A record as the driver builds it has the card's own fields under
    their keys, and the organizer's under theirs. *)
Lemma built_record_fields lib world config headers card record :
  built_record lib world config headers card record ->
  exists info,
    organizer_of lib world config headers card info /\
    (forall k, k ∈ card_keys -> record !! k = card_fields lib card !! k) /\
    (forall k, k ∈ organizer_keys -> record !! k = info !! k).
Proof.
  intros (info & website & email & alive & Hof & _ & _ & ->). exists info.
  split; [exact Hof|]. apply organizer_of_keys in Hof as [Hhas Hlacks]. split.
  - intros k Hk. rewrite lookup_insert_ne.
    + now rewrite lookup_union_r by (now apply Hlacks).
    + intros <-. unfold card_keys in Hk. rewrite !elem_of_cons, elem_of_nil in Hk.
      destruct Hk as [?|[?|[?|[?|[?|[]]]]]]; discriminate.
  - intros k Hk. rewrite lookup_insert_ne.
    + destruct (Hhas k Hk) as [v Hv]. rewrite Hv. now apply lookup_union_Some_l.
    + intros <-. unfold organizer_keys in Hk. rewrite !elem_of_cons, elem_of_nil in Hk.
      destruct Hk as [?|[?|[?|[?|[]]]]]; discriminate.
Qed.

Lemma organizer_of_cells lib world config card info :
  organizer_of lib world config get_stealth_headers card info ->
  organizer_cells lib world (default NA (card_link lib card))
    (get_or_NA info "organiser_name") (get_or_NA info "organiser_website")
    (get_or_NA info "organiser_email").
Proof.
  intros Hof. pose proof (organizer_of_keys _ _ _ _ _ _ Hof) as [Hhas _].
  destruct Hof as (link & Hlink & Hinfo).
  rewrite card_fields_link in Hlink. injection Hlink as <-.
  destruct (str_eqb (default NA (card_link lib card)) NA) eqn:Hna.
  - subst info. left. now split.
  - destruct Hinfo as (n & n' & out & Hrun).
    apply extract_found_or_NA in Hrun as [(Hn & Hw & He) | (response & Hf & Hs & Hfound)].
    + left. unfold get_or_NA. now rewrite Hn, Hw, He.
    + right. split; [intros Heq; rewrite Heq, str_eqb_refl in Hna; discriminate|].
      exists n, response. split; [exact Hf|]. split; [exact Hs|].
      destruct Hfound as (Hname & Hweb & Hmail). unfold get_or_NA.
      destruct (Hhas "organiser_name") as [name Hn];
        [unfold organizer_keys; rewrite !elem_of_cons; tauto|].
      destruct (Hhas "organiser_website") as [website Hw];
        [unfold organizer_keys; rewrite !elem_of_cons; tauto|].
      destruct (Hhas "organiser_email") as [email He];
        [unfold organizer_keys; rewrite !elem_of_cons; tauto|].
      rewrite Hn, Hw, He. cbn [default from_option id]. auto.
Qed.

(** The row of a record the driver built for a card. *)
Lemma built_record_cells lib world config card record :
  built_record lib world config get_stealth_headers card record ->
  unresolved_cells_are_NA lib world card (row_of record).
Proof.
  intros Hrec. apply built_record_fields in Hrec as (info & Hof & Hcard & Horg).
  assert (Hc : forall k, k ∈ card_keys ->
                         get_or_NA record k = default NA (card_fields lib card !! k)).
  { intros k Hk. unfold get_or_NA. now rewrite (Hcard k Hk). }
  assert (Ho : forall k, k ∈ organizer_keys -> get_or_NA record k = get_or_NA info k).
  { intros k Hk. unfold get_or_NA. now rewrite (Horg k Hk). }
  unfold row_of. eexists _, _, _, _, _, _, _, _, _, _. split; [reflexivity|].
  split; [|split; [|split; [|split; [|split]]]].
  - rewrite Hc by (unfold card_keys; rewrite !elem_of_cons; tauto).
    now rewrite card_fields_date_value.
  - intros Hvenue. apply (card_fields_no_venue lib) in Hvenue as [Hcity Hstate].
    rewrite !Hc by (unfold card_keys; rewrite !elem_of_cons; tauto).
    now rewrite Hcity, Hstate.
  - intros venue Hvenue Htext.
    rewrite Hc by (unfold card_keys; rewrite !elem_of_cons; tauto).
    now rewrite (card_fields_state_NA lib card venue Hvenue Htext).
  - rewrite Hc by (unfold card_keys; rewrite !elem_of_cons; tauto).
    now rewrite card_fields_link.
  - rewrite Hc by (unfold card_keys; rewrite !elem_of_cons; tauto).
    rewrite card_fields_name. now destruct (card_link lib card).
  - rewrite Hc by (unfold card_keys; rewrite !elem_of_cons; tauto).
    rewrite card_fields_link. cbn [default from_option id].
    rewrite !Ho by (unfold organizer_keys; rewrite !elem_of_cons; tauto).
    now apply organizer_of_cells with config.
Qed.

(** Every record the scrape function returns was built for one of the
    cards it took from the listing page it fetched. *)
Lemma scrape_built_from_listing lib world config n :
  wp (scrape_10times_medical_pharma lib world config) n
     (fun r _ _ => forall records record, r = Ok records -> record ∈ records ->
        exists response card,
          http world n listing_request = Ok response /\
          card ∈ take (EVENTS_TO_SCRAPE config) (event_cards (content response)) /\
          built_record lib world config get_stealth_headers card record).
Proof.
  unfold scrape_10times_medical_pharma. fold listing_request. wp_go.
  apply wp_send. destruct (http world n listing_request) as [response|e] eqn:Hfetch; wp_go.
  - apply wp_any. intros [[]|e] n2 out2; wp_go.
    + apply wp_run_local. eapply wp_mono; [apply process_cards_built; constructor|].
      intros r [[scraped log] n3] out3 Hall. wp_go. cbn [fst snd] in Hall.
      unfold write_text. destruct (open_w world (VALIDATION_LOG config)) as [e|]; wp_go.
      * destruct (exn_kind e); wp_go; [destruct (contains _ _); wp_go|];
          intros records record [= <-] Hin; now apply elem_of_nil in Hin.
      * apply wp_emit. wp_go. intros records record [= <-] Hin.
        exists response. clear -Hall Hin.
        induction Hall as [|r entry scraped log (i & card & Hcard & H & _) _ IH];
          [now apply elem_of_nil in Hin|].
        apply elem_of_cons in Hin as [->|Hin]; [|now apply IH].
        exists card. split; [reflexivity|]. split; [|exact H].
        apply elem_of_zip_r in Hcard. exact Hcard.
    + destruct (exn_kind e); wp_go; [destruct (contains _ _); wp_go|];
        intros records record [= <-] Hin; now apply elem_of_nil in Hin.
  - destruct (exn_kind e); wp_go; [destruct (contains _ _); wp_go|];
      intros records record [= <-] Hin; now apply elem_of_nil in Hin.
Qed.

(** ** The reporter *)

Lemma cells_csv_row (event : dict) : cells csv_headers (csv_row event) = row_of event.
Proof. reflexivity. Qed.

Lemma for_each_print {A} (xs : list A) (line : A -> str) (n : nat) :
  for_each xs (fun x => print (line x)) n = (Ok (), n, Printed <$> (line <$> xs)).
Proof.
  induction xs as [|x xs IH]; cbn [for_each fmap list_fmap]; [reflexivity|].
  erewrite bind_ok by reflexivity. now rewrite IH.
Qed.

Lemma for_each_printed {A} (xs : list A) (line : A -> str) (n : nat) :
  for_each xs (fun x m => (Ok (), m, [Printed (line x)])) n
  = (Ok (), n, Printed <$> (line <$> xs)).
Proof. apply (for_each_print xs line n). Qed.

Lemma save_writes_rows lib world config (data : list dict) (n : nat) :
  data <> [] ->
  open_w world (OUTPUT_CSV config) = None ->
  exists printed,
    save_to_csv_with_validation lib world config data n
    = (Ok (Some (csv_row <$> data)), n,
       WroteCsv (OUTPUT_CSV config) ten_columns (row_of <$> data) :: (Printed <$> printed)).
Proof.
  intros Hdata Hopen. destruct data as [|event data]; [done|].
  unfold save_to_csv_with_validation, write_csv. rewrite Hopen.
  set (rows := csv_row <$> event :: data).
  mstep. rewrite for_each_printed. cbn [fst snd app].
  assert (Hcells : cells csv_headers <$> rows = row_of <$> event :: data).
  { unfold rows. generalize (event :: data). intros events.
    induction events as [|ev events IH]; cbn [fmap list_fmap]; [reflexivity|].
    now rewrite IH, cells_csv_row. }
  rewrite Hcells.
  eexists ([_; _; _; _; _; _; _; _] ++ (_ <$> value_counts lib _) ++ [_; _; _; _]).
  rewrite 2 fmap_app. cbn [fmap list_fmap app]. reflexivity.
Qed.

Lemma notes_for_unchecked lib alive : notes_for lib NA NA alive = [].
Proof. unfold notes_for. now rewrite str_eqb_refl. Qed.

(** C7, as stated, fails: the record of a card whose organizer has neither
    website nor e-mail went through no validation check, and its Validation
    Notes cell is the empty string, not "N/A". *)
Lemma unchecked_record_has_empty_notes :
  WroteCsv (OUTPUT_CSV source_config) ten_columns [row_of expo_record]
    ∈ (main ascii_library (one_card_world 200) source_config 0%nat).2 /\
  row_of expo_record !! 5%nat = Some NA /\
  row_of expo_record !! 6%nat = Some NA /\
  row_of expo_record !! 9%nat = Some [] /\
  [] <> NA.
Proof.
  split; [|repeat split; [reflexivity .. | discriminate]].
  apply list_elem_of_In. vm_compute. do 29 right. left. reflexivity.
Qed.

(** C7, amended.  Given a non-empty list of records and an output file that
    opens, the reporter writes the header row with exactly the ten columns,
    in order, and one row per record; a cell holds the record's value under
    the key of its column, and the literal "N/A" when the record has no
    such key.  Every record the scrape function returns is that of a card
    of the listing page, and in its row a cell that could not be resolved
    holds "N/A": the date when the card has no date cell, city and state
    when it has no venue element (the state also when the venue has no
    link, or its text no comma), the link and the name when the card holds
    no link, and the organizer's name, website and e-mail unless a method
    found them on the page fetched for the link.  The exception is the
    Validation Notes cell: it holds the validation tags joined by ", ", so
    it is the empty string, not "N/A", when website and e-mail are both
    "N/A" and no check was performed. *)
Theorem csv_columns_and_sentinels lib world config :
  (forall data n,
     data <> [] -> open_w world (OUTPUT_CSV config) = None ->
     exists printed,
       save_to_csv_with_validation lib world config data n
       = (Ok (Some (csv_row <$> data)), n,
          WroteCsv (OUTPUT_CSV config) ten_columns (row_of <$> data)
            :: (Printed <$> printed))) /\
  (forall (event : dict) k,
     get_or_NA event k = match event !! k with Some v => v | None => NA end) /\
  (forall n records n' out,
     scrape_10times_medical_pharma lib world config n = (Ok records, n', out) ->
     forall record, record ∈ records ->
       exists response card,
         http world n listing_request = Ok response /\
         card ∈ take (EVENTS_TO_SCRAPE config) (event_cards (content response)) /\
         unresolved_cells_are_NA lib world card (row_of record)) /\
  (forall n records n' out,
     scrape_10times_medical_pharma lib world config n = (Ok records, n', out) ->
     forall record, record ∈ records ->
       exists website email alive,
         record !! "organiser_website" = Some website /\
         record !! "organiser_email" = Some email /\
         get_or_NA record "validation_notes"
         = join (lit ", ") (notes_for lib website email alive) /\
         (website = NA -> email = NA -> get_or_NA record "validation_notes" = [])).
Proof.
  split; [|split; [|split]].
  - intros data n. apply save_writes_rows.
  - intros event k. unfold get_or_NA. now destruct (event !! k).
  - intros n records n' out Hrun record Hin.
    pose proof (wp_run _ _ _ _ _ _ Hrun (scrape_built_from_listing lib world config n)) as Hall.
    destruct (Hall records record eq_refl Hin) as (response & card & Hfetch & Hcard & Hrec).
    exists response, card. split; [exact Hfetch|]. split; [exact Hcard|].
    now apply built_record_cells with config.
  - intros n records n' out Hrun record Hin.
    pose proof (wp_run _ _ _ _ _ _ Hrun (scrape_built lib world config n)) as Hall.
    destruct (Hall records eq_refl) as [Hall' _]. rewrite Forall_forall in Hall'.
    destruct (Hall' record Hin) as (card & Hrec).
    apply built_record_well_noted in Hrec as (website & email & alive & Hw & Hm & Hn).
    exists website, email, alive. unfold get_or_NA. rewrite Hn. cbn [from_option id].
    repeat split; try done. intros -> ->. now rewrite notes_for_unchecked.
Qed.

(** ** What the program emits *)

Section Program_emits.

Variable lib : Library.
Variable world : World.
Variable config : Config.

(** A property of events that the events of the program have: its lines,
    its three kinds of requests, its pause, and its two files where they
    can be opened. *)
Variable P : event -> Prop.
Hypothesis P_printed : forall line, P (Printed line).
Hypothesis P_head : forall u, P (Sent (head_request u)).
Hypothesis P_get : forall u, P (Sent (get_request u get_stealth_headers)).
Hypothesis P_listing : P (Sent listing_request).
Hypothesis P_slept : P (Slept (REQUEST_DELAY config)).
Hypothesis P_log : forall text,
  open_w world (VALIDATION_LOG config) = None -> P (WroteText (VALIDATION_LOG config) text).
Hypothesis P_csv : forall rows,
  open_w world (OUTPUT_CSV config) = None -> P (WroteCsv (OUTPUT_CSV config) ten_columns rows).

Lemma extract_emits u :
  emits P (extract_organizer_details lib world config u get_stealth_headers).
Proof.
  unfold extract_organizer_details. emits_go;
    first [ apply method_1_emits | apply method_2_emits | apply method_3_emits
          | apply raise_for_status_emits | apply send_emits | apply emits_emit ];
    first [ exact P_printed | exact P_head | exact P_slept | apply P_get ].
Qed.

Lemma extract_event_data_emits card headers :
  emits P (extract_event_data_from_card lib card headers).
Proof. unfold extract_event_data_from_card. emits_go. Qed.

Lemma validate_emits info : emits P (validate lib world info).
Proof. unfold validate. emits_go; apply validate_url_emits; assumption. Qed.

Lemma process_card_emits total i card :
  emits P (process_card lib world config get_stealth_headers total i card).
Proof.
  unfold process_card. emits_go;
    first [apply extract_event_data_emits | apply extract_emits | apply validate_emits].
Qed.

Lemma scrape_emits : emits P (scrape_10times_medical_pharma lib world config).
Proof.
  unfold scrape_10times_medical_pharma, process_cards, write_text.
  destruct (open_w world (VALIDATION_LOG config)) eqn:Hopen; emits_go;
    first [ apply send_emits, P_listing | apply raise_for_status_emits; exact P_printed
          | apply process_card_emits | apply emits_emit; now apply P_log ].
Qed.

Lemma save_emits data : emits P (save_to_csv_with_validation lib world config data).
Proof.
  unfold save_to_csv_with_validation, write_csv.
  destruct (open_w world (OUTPUT_CSV config)) eqn:Hopen; emits_go.
  apply emits_emit. now apply P_csv.
Qed.

Lemma main_emits : emits P (main lib world config).
Proof.
  unfold main. emits_go; first [apply scrape_emits | apply save_emits].
Qed.

End Program_emits.

Ltac allow :=
  intros;
  first [ exact I | reflexivity | left; reflexivity
        | right; left; eexists; reflexivity
        | right; right; eexists; reflexivity
        | split; reflexivity ].

Lemma main_allowed lib world config : emits (allowed config) (main lib world config).
Proof. apply main_emits; allow. Qed.

(** X9.  Whatever the pages and the answers, a run of the program sends
    no request but the GET for the listing page (timeout 30), GETs for
    pages of events (timeout 15) and HEAD requests (timeout 10), each
    with the headers of [get_stealth_headers]; it pauses for no time but
    [REQUEST_DELAY] seconds; and it writes no file but the validation log
    and the CSV file, the latter with the ten columns as its header. *)
Theorem main_emits_only_allowed lib world config n :
  Forall (allowed config) (main lib world config n).2 /\
  (forall r, Sent r ∈ (main lib world config n).2 ->
     req_headers r = get_stealth_headers /\
     match req_method r with
     | HEAD => req_timeout r = 10%nat
     | GET => req_timeout r = 30%nat \/ req_timeout r = 15%nat
     end).
Proof.
  pose proof (main_allowed lib world config n) as Hall. split; [exact Hall|].
  intros r Hin. rewrite Forall_forall in Hall.
  destruct (Hall _ Hin) as [->|[[u ->]|[u ->]]]; cbn; auto.
Qed.

Lemma allowed_request_headers config r :
  allowed config (Sent r) -> req_headers r = get_stealth_headers.
Proof. intros [->|[[u ->]|[u ->]]]; reflexivity. Qed.

Lemma main_requests_carry_stealth_headers lib world config n r :
  Sent r ∈ (main lib world config n).2 -> req_headers r = get_stealth_headers.
Proof.
  intros Hin. apply (allowed_request_headers config).
  pose proof (main_allowed lib world config n) as Hall.
  rewrite Forall_forall in Hall. exact (Hall _ Hin).
Qed.

(** ** How much a run does *)

Lemma requests_in_app out1 out2 :
  requests_in (out1 ++ out2) = (requests_in out1 + requests_in out2)%nat.
Proof. unfold requests_in. now rewrite List.filter_app, length_app. Qed.

Lemma pauses_in_app out1 out2 :
  pauses_in (out1 ++ out2) = (pauses_in out1 + pauses_in out2)%nat.
Proof. unfold pauses_in. now rewrite List.filter_app, length_app. Qed.

Lemma requests_in_cons e out :
  requests_in (e :: out)
  = ((match e with Sent _ => 1 | _ => 0 end) + requests_in out)%nat.
Proof. now destruct e. Qed.

Lemma pauses_in_cons e out :
  pauses_in (e :: out)
  = ((match e with Slept _ => 1 | _ => 0 end) + pauses_in out)%nat.
Proof. now destruct e. Qed.

(** Counting to the end of a proof by [wp]: the events are split where
    they were joined, the known ones are counted, the rest is arithmetic. *)
Ltac count :=
  intros; cbn [fst snd app] in *;
  first [ reflexivity
        | repeat (progress (rewrite ?requests_in_app, ?pauses_in_app, ?requests_in_cons,
                              ?pauses_in_cons, ?length_app in *));
          cbn [requests_in pauses_in List.filter length] in *; lia ].

Lemma emits_count {S A} (m : M S A) s :
  emits uncounted m -> requests_in (m s).2 = 0%nat /\ pauses_in (m s).2 = 0%nat.
Proof.
  intros Hm. specialize (Hm s). induction Hm as [|e out He _ [IH1 IH2]]; [done|].
  destruct e; try done; cbn; auto.
Qed.

Lemma validate_url_count world u n :
  wp (validate_url world u) n
     (fun _ _ out => requests_in out = 1%nat /\ pauses_in out = 0%nat).
Proof.
  apply wp_case. intros r n' out Hrun.
  destruct (validate_url_returns world u n) as [b Hb]. rewrite Hb in Hrun.
  injection Hrun as <- <- <-. split; reflexivity.
Qed.

Lemma probe_links_count lib world u links s :
  wp (probe_links lib world u links) s
     (fun _ _ out => (requests_in out <= length links)%nat /\ pauses_in out = 0%nat).
Proof.
  revert s. induction links as [|link rest IH]; intros s; cbn [probe_links].
  - apply wp_ret. split; cbn; lia.
  - destruct (truthy (a_href link) && _).
    + unfold set_info. wp_go.
      destruct (urljoin lib u _) as [full_url|e]; wp_go; [|split; cbn; lia].
      eapply wp_mono; [apply validate_url_count|].
      intros [[]|e] n1 out1 [Hr Hp]; wp_go; try (split; count).
      eapply wp_mono; [apply IH|]. intros r s' out2 [Hr2 Hp2]. split; count.
    + eapply wp_mono; [apply IH|]. intros r s' out2 [Hr2 Hp2]. split; count.
Qed.

Lemma wp_emits_count {S A} (m : M S A) s :
  emits uncounted m ->
  wp m s (fun _ _ out => requests_in out = 0%nat /\ pauses_in out = 0%nat).
Proof.
  intros Hm. apply wp_case. intros r s' out Hrun.
  change out with (r, s', out).2. rewrite <- Hrun. now apply emits_count.
Qed.

Lemma extract_count lib world config u headers n :
  wp (extract_organizer_details lib world config u headers) n
     (fun _ _ out => (requests_in out <= 3)%nat /\ (pauses_in out <= 1)%nat).
Proof.
  unfold extract_organizer_details. wp_go. apply wp_run_local. wp_go.
  apply wp_send. destruct (http world n _) as [response|e]; wp_go; [|split; count].
  unfold raise_for_status. destruct (http_error response); wp_go; [split; count|].
  eapply wp_mono; [apply wp_emits_count, method_1_emits|].
  intros [[]|e] s1 out1 [Hr1 Hp1]; wp_go; [|split; count].
  eapply wp_mono; [apply wp_emits_count, method_2_emits|].
  intros [[]|e] s2 out2 [Hr2 Hp2]; wp_go; [|split; count].
  eapply wp_mono; [apply probe_links_count|].
  intros [[]|e] s3 out3 [Hr3 Hp3]; wp_go; [|rewrite length_take in Hr3; split; count].
  apply wp_emit. wp_go. rewrite length_take in Hr3. split; count.
Qed.

Lemma validate_count lib world info s :
  wp (validate lib world info) s
     (fun _ s' out => s'.1 = s.1 /\ (requests_in out <= 1)%nat /\ pauses_in out = 0%nat).
Proof.
  unfold validate. wp_go; try (repeat split; count).
  destruct (negb _); wp_go; try (repeat split; count).
  eapply wp_mono; [apply validate_url_count|].
  intros [alive|e] n1 out1 [Hr Hp]; wp_go; repeat split; count.
Qed.

Lemma process_card_count lib world config headers total i card s :
  wp (process_card lib world config headers total i card) s
     (fun _ _ out => (requests_in out <= 4)%nat /\ (pauses_in out <= 1)%nat).
Proof.
  unfold process_card, extract_event_data_from_card. wp_go; try (split; count).
  rewrite bool_decide_eq_false_2 by apply card_fields_nonempty. wp_go; try (split; count).
  match goal with |- context [if str_eqb ?x NA then _ else _] => destruct (str_eqb x NA) end;
    wp_go; try (split; count).
  assert (Hrest : forall (organizer_info : dict) s0,
    wp (validate lib world organizer_info) s0
       (fun _ _ out => (requests_in out <= 1)%nat /\ pauses_in out = 0%nat)).
  { intros. eapply wp_mono; [apply validate_count|]. now intros ? ? ? (_ & ? & ?). }
  destruct (negb _); wp_go.
  - eapply wp_mono; [apply extract_count|].
    intros [info|e] n1 out1 [Hr Hp]; wp_go; [|split; count].
    eapply wp_mono; [apply Hrest|].
    intros [notes|e] s1 out2 [Hr2 Hp2]; wp_go; split; count.
  - eapply wp_mono; [apply Hrest|].
    intros [notes|e] s1 out2 [Hr2 Hp2]; wp_go; split; count.
Qed.

Lemma wp_and {S A} (m : M S A) s (Q1 Q2 : Result A -> S -> list event -> Prop) :
  wp m s Q1 -> wp m s Q2 -> wp m s (fun r s' out => Q1 r s' out /\ Q2 r s' out).
Proof.
  intros H1 H2. apply wp_case. intros r s' out Hrun.
  split; [exact (wp_run _ _ _ _ _ _ Hrun H1) | exact (wp_run _ _ _ _ _ _ Hrun H2)].
Qed.

(** A loop whose body sends at most [k] requests, pauses at most [j]
    times and makes [size] grow by one at most. *)
Lemma wp_for_each_count {S A} (xs : list A) (body : A -> M S unit) (size : S -> nat)
    (k j : nat) s :
  (forall x s, wp (body x) s (fun _ s' out =>
     (requests_in out <= k)%nat /\ (pauses_in out <= j)%nat /\
     (size s' <= size s + 1)%nat)) ->
  wp (for_each xs body) s (fun _ s' out =>
     (requests_in out <= k * length xs)%nat /\ (pauses_in out <= j * length xs)%nat /\
     (size s' <= size s + length xs)%nat).
Proof.
  intros Hbody. revert s. induction xs as [|x xs IH]; intros s; cbn [for_each].
  - apply wp_ret. repeat split; cbn; lia.
  - apply wp_bind. eapply wp_mono; [apply Hbody|].
    intros [[]|e] s1 out1 (Hr & Hp & Hn); [|repeat split; cbn [length]; nia].
    eapply wp_mono; [apply IH|].
    intros r s2 out2 (Hr2 & Hp2 & Hn2).
    rewrite requests_in_app, pauses_in_app. cbn [length]. repeat split; nia.
Qed.

Lemma process_cards_count lib world config headers cards s :
  wp (process_cards lib world config headers cards) s (fun _ s' out =>
     (requests_in out <= 4 * length cards)%nat /\ (pauses_in out <= 1 * length cards)%nat /\
     (length s'.1.1 <= length s.1.1 + length cards)%nat).
Proof.
  unfold process_cards.
  eapply wp_mono;
    [apply (wp_for_each_count _ _ (fun s => length s.1.1) 4 1)|].
  - intros [i card] s0. eapply wp_mono;
      [apply wp_and; [apply process_card_count | apply process_card_appends_built]|].
    intros r s1 out [[Hr Hp] Happ]. repeat split; [exact Hr | exact Hp |].
    destruct Happ as [-> | (record & -> & _)]; cbn [fst snd]; [lia|].
    rewrite length_app. cbn. lia.
  - intros r s' out. rewrite length_zip, length_seq, Nat.min_id. auto.
Qed.

Lemma scrape_count lib world config n :
  wp (scrape_10times_medical_pharma lib world config) n (fun r _ out =>
     (requests_in out <= 1 + 4 * EVENTS_TO_SCRAPE config)%nat /\
     (pauses_in out <= EVENTS_TO_SCRAPE config)%nat /\
     forall records, r = Ok records -> (length records <= EVENTS_TO_SCRAPE config)%nat).
Proof.
  unfold scrape_10times_medical_pharma. wp_go.
  apply wp_send. destruct (http world n _) as [response|e]; wp_go.
  - unfold raise_for_status. destruct (http_error response) as [e|]; wp_go.
    + destruct (exn_kind e); wp_go; [destruct (contains _ _); wp_go|];
        (repeat split; [count | count | intros records [= <-]; cbn; lia]).
    + apply wp_run_local. eapply wp_mono; [apply process_cards_count|].
      intros r [[scraped log] n3] out3 (Hr & Hp & Hn).
      rewrite length_take in Hr, Hp, Hn. cbn [fst snd length] in Hn. wp_go.
      unfold write_text. destruct (open_w world (VALIDATION_LOG config)) as [e|]; wp_go.
      * destruct (exn_kind e); wp_go; [destruct (contains _ _); wp_go|];
          (repeat split; [count | count | intros records [= <-]; cbn; lia]).
      * apply wp_emit. wp_go.
        repeat split; [count | count | intros records [= <-]; lia].
  - destruct (exn_kind e); wp_go; [destruct (contains _ _); wp_go|];
      (repeat split; [count | count | intros records [= <-]; cbn; lia]).
Qed.

(** X10.  A run sends at most one request for the listing page and four
    for each card it goes through (one GET for the page of the event, at
    most two HEAD requests of Method 3, one HEAD request of the
    validation), and it goes through [EVENTS_TO_SCRAPE] cards at most: so
    it sends at most [1 + 4 * EVENTS_TO_SCRAPE] requests, pauses at most
    [EVENTS_TO_SCRAPE] times, and returns at most [EVENTS_TO_SCRAPE]
    records. *)
Theorem run_is_bounded lib world config n :
  (requests_in (main lib world config n).2 <= 1 + 4 * EVENTS_TO_SCRAPE config)%nat /\
  (pauses_in (main lib world config n).2 <= EVENTS_TO_SCRAPE config)%nat /\
  (forall records,
     (scrape_10times_medical_pharma lib world config n).1.1 = Ok records ->
     (length records <= EVENTS_TO_SCRAPE config)%nat) /\
  (forall headers total i card s,
     (requests_in (process_card lib world config headers total i card s).2 <= 4)%nat).
Proof.
  destruct (scrape_10times_medical_pharma lib world config n) as [[r n1] out1] eqn:Hscrape.
  destruct (wp_run _ _ _ _ _ _ Hscrape (scrape_count lib world config n)) as (Hr & Hp & Hn).
  assert (Hsave : forall data m,
    requests_in (save_to_csv_with_validation lib world config data m).2 = 0%nat /\
    pauses_in (save_to_csv_with_validation lib world config data m).2 = 0%nat).
  { intros data m. apply emits_count, save_emits; intros; exact I. }
  assert (Hmain : (requests_in (main lib world config n).2 <= 1 + 4 * EVENTS_TO_SCRAPE config)%nat
                  /\ (pauses_in (main lib world config n).2 <= EVENTS_TO_SCRAPE config)%nat).
  { unfold main. mstep. rewrite Hscrape. cbn [fst snd].
    destruct r as [[|event rest]|e]; cbn [fst snd app]; [split; count| |split; count].
    destruct (Hsave (event :: rest) n1) as [Hr2 Hp2].
    destruct (save_to_csv_with_validation lib world config (event :: rest) n1)
      as [[[saved|e] n2] out2]; cbn [fst snd app] in *; split; count. }
  destruct Hmain as [Hmr Hmp]. split; [exact Hmr|]. split; [exact Hmp|]. split.
  - cbn [fst snd]. exact Hn.
  - intros headers total i card s.
    destruct (process_card lib world config headers total i card s) as [[r' s'] out'] eqn:Hcard.
    exact (proj1 (wp_run _ _ _ _ _ _ Hcard (process_card_count lib world config headers total i card s))).
Qed.

(** ** How a run can end *)

Lemma scrape_returns_wp lib world config n :
  wp (scrape_10times_medical_pharma lib world config) n
     (fun r _ _ => exists records, r = Ok records).
Proof.
  unfold scrape_10times_medical_pharma. wp_go.
  apply wp_any. intros [response|e] n1 out1; wp_go.
  - apply wp_any. intros [[]|e] n2 out2; wp_go.
    + apply wp_any. intros [[r lists]|e] n3 out3; wp_go.
      * apply wp_any. intros [[]|e] n4 out4; wp_go; [eauto|].
        destruct (exn_kind e); wp_go; [destruct (contains _ _); wp_go|]; eauto.
      * destruct (exn_kind e); wp_go; [destruct (contains _ _); wp_go|]; eauto.
    + destruct (exn_kind e); wp_go; [destruct (contains _ _); wp_go|]; eauto.
  - destruct (exn_kind e); wp_go; [destruct (contains _ _); wp_go|]; eauto.
Qed.

Lemma scrape_returns lib world config n :
  exists records n' out,
    scrape_10times_medical_pharma lib world config n = (Ok records, n', out).
Proof.
  destruct (scrape_10times_medical_pharma lib world config n) as [[r n'] out] eqn:Hrun.
  destruct (wp_run _ _ _ _ _ _ Hrun (scrape_returns_wp lib world config n)) as [records ->].
  eauto.
Qed.

Lemma save_raises_iff lib world config (data : list dict) n e :
  (save_to_csv_with_validation lib world config data n).1.1 = Raise e <->
  data <> [] /\ open_w world (OUTPUT_CSV config) = Some e.
Proof.
  destruct data as [|event data].
  - cbn. split; [discriminate | intros [[] _]; reflexivity].
  - unfold save_to_csv_with_validation, write_csv.
    destruct (open_w world (OUTPUT_CSV config)) as [e'|] eqn:Hopen.
    + cbn. split; [intros [= ->]; split; [discriminate | reflexivity]
                  | intros [_ [= ->]]; reflexivity].
    + split; [|intros [_ [=]]].
      destruct (save_writes_rows lib world config (event :: data) n) as [printed Hs];
        [discriminate | exact Hopen |].
      unfold save_to_csv_with_validation, write_csv in Hs. rewrite Hopen in Hs.
      rewrite Hs. discriminate.
Qed.

(** X11.  The scrape function never raises, and the program raises in
    one case only: records were scraped and the CSV file cannot be opened
    for writing; the exception of [open] then leaves the program.
    (Printing, the CSV writer and the summary of the data frame are taken
    not to fail, as in the embedding.) *)
Theorem run_raises_only_for_the_csv_file lib world config n :
  (exists records, (scrape_10times_medical_pharma lib world config n).1.1 = Ok records) /\
  (forall e,
     (main lib world config n).1.1 = Raise e <->
     (exists records,
        (scrape_10times_medical_pharma lib world config n).1.1 = Ok records /\
        records <> []) /\
     open_w world (OUTPUT_CSV config) = Some e).
Proof.
  destruct (scrape_returns lib world config n) as (records & n1 & out1 & Hscrape).
  split; [rewrite Hscrape; eauto|]. intros e.
  unfold main. mstep. rewrite Hscrape. cbn [fst snd].
  destruct records as [|event rest].
  - cbn. split; [discriminate | intros [(records & [= <-] & Hne) _]; done].
  - pose proof (save_raises_iff lib world config (event :: rest) n1) as Hsave.
    destruct (save_to_csv_with_validation lib world config (event :: rest) n1)
      as [[[saved|e'] n2] out2]; cbn [fst snd] in *.
    + split; [discriminate|]. intros [_ Hopen].
      specialize (Hsave e). destruct Hsave as [_ Hsave].
      discriminate Hsave. split; [discriminate | exact Hopen].
    + split.
      * intros [= ->]. split; [eexists; split; [reflexivity | discriminate]|].
        now apply (Hsave e).
      * intros [_ Hopen]. destruct (Hsave e') as [Hsave' _].
        destruct (Hsave' eq_refl) as [_ Hopen']. congruence.
Qed.

Lemma scrape_unwritable_log lib world config n e :
  open_w world (VALIDATION_LOG config) = Some e ->
  wp (scrape_10times_medical_pharma lib world config) n (fun r _ _ => r = Ok []).
Proof.
  intros Hopen. unfold scrape_10times_medical_pharma, write_text. rewrite Hopen. wp_go.
  apply wp_any. intros [response|e1] n1 out1; wp_go.
  - apply wp_any. intros [[]|e2] n2 out2; wp_go.
    + apply wp_any. intros [[r lists]|e3] n3 out3; wp_go;
        match goal with |- context [exn_kind ?x] => destruct (exn_kind x) end; wp_go;
        try (destruct (contains _ _); wp_go); reflexivity.
    + destruct (exn_kind e2); wp_go; [destruct (contains _ _); wp_go|]; reflexivity.
  - destruct (exn_kind e1); wp_go; [destruct (contains _ _); wp_go|]; reflexivity.
Qed.

(** X12.  When the validation log cannot be opened for writing, the
    scrape function returns the empty list, whatever it had scraped: the
    exception of [open] is caught by the handler of the listing fetch.
    The program then reports that scraping failed, ends normally, and has
    written no file at all. *)
Theorem unwritable_log_discards_records lib world config n e :
  open_w world (VALIDATION_LOG config) = Some e ->
  (scrape_10times_medical_pharma lib world config n).1.1 = Ok [] /\
  (main lib world config n).1.1 = Ok () /\
  Printed failed_line ∈ (main lib world config n).2 /\
  Forall no_file (main lib world config n).2.
Proof.
  intros Hopen.
  destruct (scrape_10times_medical_pharma lib world config n) as [[r n1] out1] eqn:Hscrape.
  pose proof (wp_run _ _ _ _ _ _ Hscrape (scrape_unwritable_log lib world config n e Hopen))
    as ->.
  assert (Hquiet : Forall no_file out1).
  { change out1 with (Ok (@nil dict), n1, out1).2. rewrite <- Hscrape.
    apply scrape_emits; try (intros; exact I).
    intros text Hnone. congruence. }
  split; [reflexivity|].
  unfold main. mstep. rewrite Hscrape. cbn [fst snd app].
  split; [reflexivity|]. split.
  - rewrite !elem_of_cons, elem_of_app, !elem_of_cons. unfold failed_line. tauto.
  - repeat (apply Forall_cons; split; [exact I|]).
    apply Forall_app. split; [exact Hquiet|]. repeat constructor.
Qed.

(** X17.  A listing page that is fetched but gives no card to go through
    (it has none, or [EVENTS_TO_SCRAPE] is 0) ends like a failed fetch:
    the scrape function returns the empty list and the program reports
    that scraping failed and writes no CSV file.  Only the validation log
    is written, with its banner and no line. *)
Theorem no_cards_is_reported_as_failure lib world config n (response : Response) :
  http world n listing_request = Ok response ->
  http_error response = None ->
  take (EVENTS_TO_SCRAPE config) (event_cards (content response)) = [] ->
  open_w world (VALIDATION_LOG config) = None ->
  (exists printed_before printed_after,
     scrape_10times_medical_pharma lib world config n
     = (Ok [], S n,
        (Printed <$> printed_before)
        ++ [Sent listing_request; Printed ([9989] ++ lit " Page fetched successfully (Status: "
                                             ++ lit (pretty (status_code response)) ++ lit ")");
            Printed ([128269] ++ lit " Found "
                       ++ nat_str (length (event_cards (content response)))
                       ++ lit " event cards");
            WroteText (VALIDATION_LOG config) (log_text world [] [])]
        ++ (Printed <$> printed_after))) /\
  (main lib world config n).1 = (Ok (), S n) /\
  Printed failed_line ∈ (main lib world config n).2 /\
  (forall file header rows, WroteCsv file header rows ∉ (main lib world config n).2).
Proof.
  intros Hfetch Hstatus Hcards Hopen.
  assert (Hscrape : exists printed_before printed_after,
     scrape_10times_medical_pharma lib world config n
     = (Ok [], S n,
        (Printed <$> printed_before)
        ++ [Sent listing_request; Printed ([9989] ++ lit " Page fetched successfully (Status: "
                                             ++ lit (pretty (status_code response)) ++ lit ")");
            Printed ([128269] ++ lit " Found "
                       ++ nat_str (length (event_cards (content response)))
                       ++ lit " event cards");
            WroteText (VALIDATION_LOG config) (log_text world [] [])]
        ++ (Printed <$> printed_after))).
  { unfold scrape_10times_medical_pharma, process_cards, write_text, send, raise_for_status.
    fold listing_request. mstep. rewrite Hfetch. cbn [fst snd]. rewrite Hstatus.
    cbn [fst snd]. rewrite Hcards. cbn [length seq zip zip_with for_each]. mstep.
    rewrite Hopen. cbn [fst snd app].
    eexists [_; _; _; _; _; _], [_; _; _]. reflexivity. }
  destruct Hscrape as (before & after & Hscrape). split; [eauto|].
  unfold main. mstep. rewrite Hscrape. cbn [fst snd app].
  split; [reflexivity|]. split.
  - rewrite !elem_of_cons, !elem_of_app, !elem_of_cons. unfold failed_line. tauto.
  - assert (Hall : Forall (fun e => match e with WroteCsv _ _ _ => False | _ => True end)
                     (Printed <$> after)).
    { apply Forall_fmap, Forall_true. now intros line. }
    assert (Hall' : Forall (fun e => match e with WroteCsv _ _ _ => False | _ => True end)
                      (Printed <$> before)).
    { apply Forall_fmap, Forall_true. now intros line. }
    intros file header rows Hin.
    match type of Hin with _ ∈ ?out =>
      assert (Hout : Forall (fun e => match e with WroteCsv _ _ _ => False | _ => True end) out)
    end.
    { repeat first [ apply Forall_cons; split; [exact I|] | apply Forall_app; split
                   | exact Hall | exact Hall' | apply Forall_nil; exact I ]. }
    rewrite Forall_forall in Hout. exact (Hout _ Hin).
Qed.

(** ** The stealth-mode toggle *)

(** C8.  Setting the toggle to either value changes nothing in what the
    scrape function, the reporter and the organizer extractor do: the same
    requests, the same returned records, the same validation log and the
    same CSV rows (and the same console lines).  Every request the program
    sends carries the one header set of [get_stealth_headers], whatever the
    toggle.  For the whole program, the result and everything emitted off
    the console are the same; the toggle is read only for the seventh line
    of the start-up banner, which echoes it. *)
Theorem stealth_toggle_changes_no_output lib world config (b : bool) (n : nat) :
  scrape_10times_medical_pharma lib world (with_stealth b config) n
  = scrape_10times_medical_pharma lib world config n /\
  (forall data,
     save_to_csv_with_validation lib world (with_stealth b config) data n
     = save_to_csv_with_validation lib world config data n) /\
  (forall u headers,
     extract_organizer_details lib world (with_stealth b config) u headers n
     = extract_organizer_details lib world config u headers n) /\
  (forall r, Sent r ∈ (main lib world (with_stealth b config) n).2 ->
             req_headers r = get_stealth_headers) /\
  (main lib world (with_stealth b config) n).2
  = <[6%nat := Printed (lit "   Stealth mode: " ++ bool_str b)]> (main lib world config n).2 /\
  (main lib world (with_stealth b config) n).1 = (main lib world config n).1 /\
  off_console (main lib world (with_stealth b config) n).2
  = off_console (main lib world config n).2.
Proof.
  split; [reflexivity|]. split; [reflexivity|]. split; [reflexivity|].
  split; [apply main_requests_carry_stealth_headers|].
  unfold main. mstep.
  change (scrape_10times_medical_pharma lib world (with_stealth b config) n)
    with (scrape_10times_medical_pharma lib world config n).
  destruct (scrape_10times_medical_pharma lib world config n)
    as [[[organizer_data|e] n1] out1]; [|repeat split; reflexivity].
  destruct organizer_data as [|event rest].
  - repeat split; reflexivity.
  - change (save_to_csv_with_validation lib world (with_stealth b config) (event :: rest) n1)
      with (save_to_csv_with_validation lib world config (event :: rest) n1).
    destruct (save_to_csv_with_validation lib world config (event :: rest) n1)
      as [[[saved|e] n2] out2]; repeat split; reflexivity.
Qed.

(** ** Instances *)

Ltac not_in_text :=
  let H := fresh in
  intros H; apply list_elem_of_In in H; vm_compute in H; intuition discriminate.

Lemma card_location_examples :
  (card_location (venue_card (lit "Boston, MA")) ∅ !! "city" = Some (lit "Boston") /\
   card_location (venue_card (lit "Boston, MA")) ∅ !! "state" = Some (lit "MA")) /\
  (card_location (venue_card (lit "Boston, Greater Area, MA")) ∅ !! "city"
   = Some (lit "Boston") /\
   card_location (venue_card (lit "Boston, Greater Area, MA")) ∅ !! "state"
   = Some (lit "MA")) /\
  (card_location (venue_card (lit "Boston")) ∅ !! "city" = Some (lit "Boston") /\
   card_location (venue_card (lit "Boston")) ∅ !! "state" = Some NA) /\
  (card_location no_venue_card ∅ !! "city" = Some NA /\
   card_location no_venue_card ∅ !! "state" = Some NA).
Proof.
  split; [|split; [|split]].
  - destruct (card_location_city_state (venue_card (lit "Boston, MA")) ∅)
      as (Hcity & Hstate & _).
    split.
    + apply (Hcity (lit "Boston") (lit " MA")); [reflexivity | not_in_text].
    + apply (Hstate (lit "Boston") (lit " MA")); [reflexivity | not_in_text].
  - destruct (card_location_city_state (venue_card (lit "Boston, Greater Area, MA")) ∅)
      as (Hcity & Hstate & _).
    split.
    + apply (Hcity (lit "Boston") (lit " Greater Area, MA")); [reflexivity | not_in_text].
    + apply (Hstate (lit "Boston, Greater Area") (lit " MA")); [reflexivity | not_in_text].
  - destruct (card_location_city_state (venue_card (lit "Boston")) ∅) as (_ & _ & Hnone).
    apply Hnone. not_in_text.
  - exact (card_location_city_state no_venue_card ∅).
Defined.

Lemma method_2_press_page :
  method_2 ascii_library press_page (initial_organizer_info, 0%nat)
  = (Ok (),
     (<["verification_status" := lit "Email_Found"]>
        (<["organiser_email" := lit "press@acme-pharma.com"]> initial_organizer_info),
      0%nat),
     []).
Proof.
  apply (method_2_first_surviving_email ascii_library press_page initial_organizer_info 0
           [lit "info@facebook.com"] [] (lit "press@acme-pharma.com")).
  - vm_compute. reflexivity.
  - constructor; [|constructor]. exists (lit "facebook").
    split; [apply list_elem_of_here | vm_compute; reflexivity].
  - intros H. apply not_social_false in H. vm_compute in H. discriminate.
Defined.

Lemma probe_links_skips_mail_link :
  passed_over mail_link /\
  probe_links ascii_library (one_card_world 200) (lit "https://10times.com/pharma-expo")
              [mail_link; about_link] (initial_organizer_info, 1%nat)
  = probe_links ascii_library (one_card_world 200) (lit "https://10times.com/pharma-expo")
                [about_link] (initial_organizer_info, 1%nat).
Proof.
  assert (Hpass : passed_over mail_link).
  { right. eexists. split; reflexivity. }
  split; [exact Hpass|].
  exact (probe_links_skips_mail_and_missing_href ascii_library (one_card_world 200)
           (lit "https://10times.com/pharma-expo") [] [about_link] mail_link
           (initial_organizer_info, 1%nat) Hpass).
Defined.

Lemma unreachable_listing_aborts_run :
  fetch_raises unreachable_world 0 listing_request timed_out /\
  (scrape_10times_medical_pharma ascii_library unreachable_world source_config 0%nat).1
  = (Ok [], 1%nat) /\
  (main ascii_library unreachable_world source_config 0%nat).1 = (Ok (), 1%nat).
Proof.
  assert (Hfetch : fetch_raises unreachable_world 0 listing_request timed_out).
  { left. reflexivity. }
  split; [exact Hfetch|].
  destruct (listing_failure_aborts_run ascii_library unreachable_world source_config 0
              timed_out Hfetch) as ((b1 & a1 & -> & _) & (b2 & a2 & -> & _) & _).
  split; reflexivity.
Defined.

Lemma method_1_two_mentions_last_hit :
  hits two_mentions_page = [acme_link] ++ [hotel_link] /\
  exists d',
    method_1 two_mentions_page (initial_organizer_info, 0%nat) = (Ok (), (d', 0%nat), [])
    /\ d' !! "organiser_website" = Some (lit "https://www.grand-hotel.example")
    /\ d' !! "organiser_name" = Some (lit "Grand Hotel")
    /\ d' !! "verification_status" = Some (lit "Website_Found").
Proof.
  split; [reflexivity|].
  apply (method_1_last_hit_remains two_mentions_page initial_organizer_info 0 [acme_link]
           hotel_link); [reflexivity|].
  intros l Hl. change (hits two_mentions_page) with [acme_link; hotel_link] in Hl.
  rewrite !elem_of_cons, elem_of_nil in Hl. destruct Hl as [->|[->|[]]]; eexists; reflexivity.
Defined.

Lemma card_without_click_handler :
  card_link ascii_library no_venue_card = None /\
  card_fields ascii_library no_venue_card !! "event_link" = Some NA /\
  card_fields ascii_library no_venue_card !! "event_name" = Some NA /\
  process_card ascii_library unreachable_world source_config get_stealth_headers 1 1
               no_venue_card (([], []), 0%nat)
  = (Ok (), (([], []), 0%nat), [Printed (processing_line 1 1); Printed skipped_line]).
Proof.
  split; [reflexivity|].
  apply (card_without_link_is_skipped ascii_library unreachable_world source_config
           get_stealth_headers 1 1 no_venue_card ([], []) 0).
  reflexivity.
Defined.

Lemma expo_record_has_every_field :
  Forall (fun k => is_Some (expo_record !! k)) record_keys.
Proof.
  apply Forall_forall. intros k Hk.
  refine (proj1 (scraped_records_have_every_field ascii_library (one_card_world 200)
                   source_config 0 [expo_record] 2
                   (scrape_10times_medical_pharma ascii_library (one_card_world 200)
                      source_config 0%nat).2
                   _ expo_record _) k Hk).
  - vm_compute. reflexivity.
  - apply list_elem_of_here.
Defined.

Lemma expo_log_line :
  exists log,
    WroteText (VALIDATION_LOG source_config) (log_text (one_card_world 200) [expo_record] log)
      ∈ (scrape_10times_medical_pharma ascii_library (one_card_world 200) source_config
           0%nat).2 /\
    Forall2 (fun record entry => exists i, entry = log_line i record) [expo_record] log.
Proof.
  apply (log_has_one_line_per_record ascii_library (one_card_world 200) source_config 0
           [expo_record] 2).
  - vm_compute. reflexivity.
  - discriminate.
Defined.


Lemma read_only_run_discards_records :
  (scrape_10times_medical_pharma ascii_library read_only_world source_config 0%nat).1.1
  = Ok [] /\
  (main ascii_library read_only_world source_config 0%nat).1.1 = Ok () /\
  Printed failed_line ∈ (main ascii_library read_only_world source_config 0%nat).2 /\
  Forall no_file (main ascii_library read_only_world source_config 0%nat).2.
Proof.
  apply (unwritable_log_discards_records ascii_library read_only_world source_config 0
           (Exn OtherException (lit "[Errno 30] Read-only file system"))).
  reflexivity.
Defined.

Lemma image_link_page_error :
  extract_organizer_details ascii_library image_link_world source_config
    (lit "https://10times.com/pharma-expo") get_stealth_headers 1%nat
  = (Ok (<["verification_status" := lit "Error: list index out of range"]>
           (<["organiser_website" := lit "/redirect?to=http%3A%2F%2Fwww.acme-events.example"]>
              initial_organizer_info)),
     2%nat,
     [Printed (extracting_line (lit "https://10times.com/pharma-expo"));
      Sent (get_request (lit "https://10times.com/pharma-expo") get_stealth_headers);
      Printed (extract_error_line index_error)]).
Proof.
  apply (method_1_error_keeps_the_website ascii_library image_link_world source_config
           (lit "https://10times.com/pharma-expo") get_stealth_headers 1
           {| status_code := 200; reason := lit "OK";
              url := lit "https://10times.com/pharma-expo"; content := image_link_page |}
           [] [] [ {| find_a := Some image_link |} ] image_link).
  - reflexivity.
  - reflexivity.
  - reflexivity.
  - intros l Hl. inversion Hl.
  - reflexivity.
  - reflexivity.
Defined.


Lemma empty_listing_run :
  (main ascii_library empty_listing_world source_config 0%nat).1 = (Ok (), 1%nat) /\
  Printed failed_line ∈ (main ascii_library empty_listing_world source_config 0%nat).2 /\
  WroteText (VALIDATION_LOG source_config) (log_text empty_listing_world [] [])
    ∈ (scrape_10times_medical_pharma ascii_library empty_listing_world source_config
         0%nat).2.
Proof.
  destruct (no_cards_is_reported_as_failure ascii_library empty_listing_world source_config 0
              {| status_code := 200; reason := lit "OK"; url := listing_url;
                 content := empty_soup |} eq_refl eq_refl eq_refl eq_refl)
    as ((before & after & Hscrape) & Hmain & Hfailed & _).
  split; [exact Hmain|]. split; [exact Hfailed|].
  rewrite Hscrape. cbn [snd]. rewrite !elem_of_app, !elem_of_cons. tauto.
Defined.

Lemma arab_health_link :
  name_of_link ascii_library (lit "https://10times.com/arab--health-expo") = lit "Arab Health Expo" /\
  name_of_link ascii_library (lit "https://10times.com/") = [].
Proof.
  assert (Hword : forall w, w <> [] -> forallb is_lower w = true -> lower_word w).
  { intros w Hne Hw. split; [exact Hne|].
    apply Forall_forall. intros c Hc. rewrite forallb_forall in Hw. apply Hw.
    now apply list_elem_of_In. }
  apply (event_name_is_the_last_segment ascii_library (lit "https://10times.com")
           (lit "arab") [(1%nat, lit "health"); (0%nat, lit "expo")]).
  - apply Hword; [discriminate | reflexivity].
  - repeat (constructor; [apply Hword; [discriminate | reflexivity]|]). constructor.
Defined.

(** A handler that opens the text "N/A" gives "N/A" as the link, and the
    name of that link, "A"; the card is not skipped. *)
Example literal_NA_link :
  card_link ascii_library literal_NA_card = Some NA /\
  card_fields ascii_library literal_NA_card !! "event_link" = Some NA /\
  card_fields ascii_library literal_NA_card !! "event_name" = Some (lit "A").
Proof. repeat split; vm_compute; reflexivity. Qed.
